(** * Event fingerprint grouping with time-windowed suppression

    A shallow embedding of the alert deduplication engine
    (03-observability/alert_deduplicator.py) and of the log error classifier
    (03-observability/log_classifier.py), with the properties of their
    design document stated and settled against the code.

    Conventions of the embedding.
    - A Python [str] is a [string]: a sequence of characters whose code
      points are below 256 (the first 256 Unicode code points).
    - A [datetime] is a [Z], the number of microseconds since an epoch; a
      [timedelta] is a [Z] number of microseconds.
    - A [dict] is an association list in insertion order, as Python's dict
      iterates; a lookup takes the binding of the key, an assignment to an
      existing key keeps its position, a new key goes to the end.
    - A method that mutates [self] takes the old object and returns the new
      one together with its result. *)

From Stdlib Require Import Ascii String List ZArith Lia Bool Permutation Sorted Arith.
From Stdlib Require DecimalString.
Import ListNotations.
Local Open Scope Z_scope.

(* ===================================================================== *)
(** ** Characters *)
(* ===================================================================== *)

Module Chars.

Definition code (c : ascii) : Z := Z.of_N (N_of_ascii c).

Definition in_range (lo hi : Z) (c : ascii) : bool :=
  (lo <=? code c) && (code c <=? hi).

(** [\d] of the [re] module on [str] patterns: a decimal digit.  Below code
    point 256 the only decimal digits are 0-9. *)
Definition is_digit (c : ascii) : bool := in_range 48 57 c.

(** [[0-9a-f]]. *)
Definition is_hex (c : ascii) : bool := in_range 48 57 c || in_range 97 102 c.

(** [str.isalnum] below code point 256: the ASCII letters and digits, the
    Latin-1 letters, and the superscripts, fractions and ordinal
    indicators. *)
Definition is_alnum (c : ascii) : bool :=
  in_range 48 57 c || in_range 65 90 c || in_range 97 122 c
  || (code c =? 170) || (code c =? 178) || (code c =? 179) || (code c =? 181)
  || (code c =? 185) || (code c =? 186) || in_range 188 190 c
  || in_range 192 214 c || in_range 216 246 c || in_range 248 255 c.

(** [\w] of the [re] module: alphanumeric or underscore. *)
Definition is_word (c : ascii) : bool := is_alnum c || (code c =? 95).

(** [str.lower], one character: A-Z and the Latin-1 capitals move up by 32. *)
Definition lower_char (c : ascii) : ascii :=
  if in_range 65 90 c || (in_range 192 222 c && negb (code c =? 215))
  then ascii_of_N (N_of_ascii c + 32) else c.

Definition lower (s : list ascii) : list ascii := map lower_char s.

End Chars.

(* ===================================================================== *)
(** ** hashlib.md5 (RFC 1321) *)
(* ===================================================================== *)

Module MD5.

Definition mask32 (x : Z) : Z := Z.land x 4294967295.

Definition rotl (x n : Z) : Z :=
  mask32 (Z.lor (Z.shiftl x n) (Z.shiftr (mask32 x) (32 - n))).

Definition K : list Z :=
  [3614090360; 3905402710; 606105819; 3250441966; 4118548399; 1200080426;
   2821735955; 4249261313; 1770035416; 2336552879; 4294925233; 2304563134;
   1804603682; 4254626195; 2792965006; 1236535329; 4129170786; 3225465664;
   643717713; 3921069994; 3593408605; 38016083; 3634488961; 3889429448;
   568446438; 3275163606; 4107603335; 1163531501; 2850285829; 4243563512;
   1735328473; 2368359562; 4294588738; 2272392833; 1839030562; 4259657740;
   2763975236; 1272893353; 4139469664; 3200236656; 681279174; 3936430074;
   3572445317; 76029189; 3654602809; 3873151461; 530742520; 3299628645;
   4096336452; 1126891415; 2878612391; 4237533241; 1700485571; 2399980690;
   4293915773; 2240044497; 1873313359; 4264355552; 2734768916; 1309151649;
   4149444226; 3174756917; 718787259; 3951481745].

Definition S : list Z :=
  [7; 12; 17; 22; 7; 12; 17; 22; 7; 12; 17; 22; 7; 12; 17; 22;
   5; 9; 14; 20; 5; 9; 14; 20; 5; 9; 14; 20; 5; 9; 14; 20;
   4; 11; 16; 23; 4; 11; 16; 23; 4; 11; 16; 23; 4; 11; 16; 23;
   6; 10; 15; 21; 6; 10; 15; 21; 6; 10; 15; 21; 6; 10; 15; 21].

(** [str.encode()]: UTF-8; a code point from 128 to 255 takes two bytes. *)
Definition encode (s : list ascii) : list Z :=
  flat_map (fun c =>
    let n := Chars.code c in
    if n <? 128 then [n]
    else [Z.lor 192 (Z.shiftr n 6); Z.lor 128 (Z.land n 63)]) s.

Definition le_bytes (k : nat) (x : Z) : list Z :=
  map (fun i => Z.land (Z.shiftr x (8 * Z.of_nat i)) 255) (seq 0 k).

Definition pad (msg : list Z) : list Z :=
  let len := Z.of_nat (length msg) in
  let zeros := Z.to_nat ((55 - len) mod 64) in
  msg ++ [128] ++ repeat 0 zeros ++ le_bytes 8 (8 * len).

Fixpoint word_le (bs : list Z) : Z :=
  match bs with
  | [] => 0
  | b :: bs' => b + 256 * word_le bs'
  end.

Fixpoint words (n : nat) (bs : list Z) : list Z :=
  match n with
  | O => []
  | Datatypes.S n' => word_le (firstn 4 bs) :: words n' (skipn 4 bs)
  end.

Definition round (M : list Z) (st : Z * Z * Z * Z) (i : nat) : Z * Z * Z * Z :=
  let '(a, b, c, d) := st in
  let zi := Z.of_nat i in
  let '(f, g) :=
    if zi <? 16 then (Z.lor (Z.land b c) (Z.land (Z.lxor b 4294967295) d), zi)
    else if zi <? 32 then
      (Z.lor (Z.land d b) (Z.land (Z.lxor d 4294967295) c), (5 * zi + 1) mod 16)
    else if zi <? 48 then (Z.lxor b (Z.lxor c d), (3 * zi + 5) mod 16)
    else (Z.lxor c (Z.lor b (Z.lxor d 4294967295)), (7 * zi) mod 16) in
  let f' := mask32 (f + a + nth i K 0 + nth (Z.to_nat g) M 0) in
  (d, mask32 (b + rotl f' (nth i S 0)), b, c).

Definition block (st : Z * Z * Z * Z) (M : list Z) : Z * Z * Z * Z :=
  let '(a0, b0, c0, d0) := st in
  let '(a, b, c, d) := fold_left (round M) (seq 0 64) st in
  (mask32 (a0 + a), mask32 (b0 + b), mask32 (c0 + c), mask32 (d0 + d)).

Fixpoint blocks (n : nat) (bs : list Z) (st : Z * Z * Z * Z) : Z * Z * Z * Z :=
  match n with
  | O => st
  | Datatypes.S n' => blocks n' (skipn 64 bs) (block st (words 16 (firstn 64 bs)))
  end.

Definition digest (msg : list Z) : list Z :=
  let p := pad msg in
  let '(a, b, c, d) :=
    blocks (length p / 64)%nat p (1732584193, 4023233417, 2562383102, 271733878) in
  le_bytes 4 a ++ le_bytes 4 b ++ le_bytes 4 c ++ le_bytes 4 d.

Definition hex_digit (n : Z) : ascii :=
  if n <? 10 then ascii_of_N (Z.to_N (48 + n)) else ascii_of_N (Z.to_N (87 + n)).

Definition hexdigest (msg : list Z) : list ascii :=
  flat_map (fun b => [hex_digit (b / 16); hex_digit (b mod 16)]) (digest msg).

End MD5.

(** [hashlib.md5(s.encode()).hexdigest()[:12]], the fingerprint both engines
    use. *)
Definition md5_hex12 (s : string) : string :=
  string_of_list_ascii
    (firstn 12 (MD5.hexdigest (MD5.encode (list_ascii_of_string s)))).

(* ===================================================================== *)
(** ** The fragment of the [re] module the classifier uses *)
(* ===================================================================== *)

Module Re.
Import Chars.

(** Character classes: a literal character, [\d], [[0-9a-f]]. *)
Inductive cls : Type :=
| CChar (a : ascii)
| CDigit
| CHex.

Definition accepts (k : cls) (c : ascii) : bool :=
  match k with
  | CChar a => Ascii.eqb a c
  | CDigit => is_digit c
  | CHex => is_hex c
  end.

(** A pattern is a sequence of atoms: one character of a class, a greedy
    [+] repetition of a class, or the word boundary [\b]. *)
Inductive atom : Type :=
| One (k : cls)
| Plus (k : cls)
| Bound.

Definition regex : Type := list atom.

(** [k{n}] *)
Definition times (n : nat) (k : cls) : regex := repeat (One k) n.

(** A pattern without metacharacters. *)
Definition lit (s : string) : regex :=
  map (fun c => One (CChar c)) (list_ascii_of_string s).

Definition word_before (prev : option ascii) : bool :=
  match prev with
  | Some c => is_word c
  | None => false
  end.

Definition word_at (s : list ascii) : bool :=
  match s with
  | c :: _ => is_word c
  | [] => false
  end.

(** The greedy loop of [k+]: one character of the class, then as many more
    as possible, giving characters back one at a time while the rest of the
    pattern fails. *)
Fixpoint plus_loop (k : cls) (rest : option ascii -> list ascii -> option nat)
    (s : list ascii) : option nat :=
  match s with
  | c :: s' =>
      if accepts k c then
        match plus_loop k rest s' with
        | Some n => Some (S n)
        | None => option_map S (rest (Some c) s')
        end
      else None
  | [] => None
  end.

(** [rmatch r prev s]: the backtracking match of [r] at the head of [s],
    [prev] being the character before it; the number of characters
    consumed. *)
Fixpoint rmatch (r : regex) (prev : option ascii) (s : list ascii) : option nat :=
  match r with
  | [] => Some O
  | One k :: r' =>
      match s with
      | c :: s' => if accepts k c then option_map S (rmatch r' (Some c) s') else None
      | [] => None
      end
  | Plus k :: r' => plus_loop k (rmatch r') s
  | Bound :: r' =>
      if xorb (word_before prev) (word_at s) then rmatch r' prev s else None
  end.

(** [re.search(r, s) is not None] *)
Fixpoint search_from (r : regex) (prev : option ascii) (s : list ascii) : bool :=
  match rmatch r prev s with
  | Some _ => true
  | None =>
      match s with
      | [] => false
      | c :: s' => search_from r (Some c) s'
      end
  end.

Definition search (r : regex) (s : list ascii) : bool := search_from r None s.

(** [re.sub(r, repl, s)] for a replacement without escapes: the leftmost
    match is replaced and the scan goes on behind it.  [skip] counts the
    characters of the current match that are still to be dropped. *)
Fixpoint sub_from (r : regex) (repl : list ascii) (prev : option ascii)
    (s : list ascii) (skip : nat) : list ascii :=
  match s with
  | [] =>
      match skip, rmatch r prev [] with
      | O, Some _ => repl
      | _, _ => []
      end
  | c :: s' =>
      match skip with
      | S k => sub_from r repl (Some c) s' k
      | O =>
          match rmatch r prev s with
          | Some (S n) => repl ++ sub_from r repl (Some c) s' n
          | Some O => repl ++ c :: sub_from r repl (Some c) s' O
          | None => c :: sub_from r repl (Some c) s' O
          end
      end
  end.

Definition sub (r : regex) (repl : list ascii) (s : list ascii) : list ascii :=
  sub_from r repl None s O.

(** The character before position [n] of [s], [prev] being the one before
    [s]. *)
Fixpoint prev_at (prev : option ascii) (s : list ascii) (n : nat) : option ascii :=
  match n, s with
  | S n', c :: s' => prev_at (Some c) s' n'
  | _, _ => prev
  end.

(** [r] matches at no position of [s], the end included. *)
Fixpoint free (r : regex) (prev : option ascii) (s : list ascii) : Prop :=
  rmatch r prev s = None
  /\ match s with
     | [] => True
     | c :: s' => free r (Some c) s'
     end.

(** Wherever [rj] does not match at a position of [s], [ri] does not
    either. *)
Fixpoint free_where (ri rj : regex) (prev : option ascii) (s : list ascii) : Prop :=
  (rmatch rj prev s = None -> rmatch ri prev s = None)
  /\ match s with
     | [] => True
     | c :: s' => free_where ri rj (Some c) s'
     end.

Definition class_of (a : atom) : option cls :=
  match a with
  | One k | Plus k => Some k
  | Bound => None
  end.

(** Every character an atom consumes is in [A]. *)
Definition atom_in (A : ascii -> bool) (a : atom) : Prop :=
  match class_of a with
  | Some k => forall c, accepts k c = true -> A c = true
  | None => True
  end.

(** A pattern without repetition. *)
Definition no_plus (r : regex) : bool :=
  forallb (fun a => match a with Plus _ => false | _ => true end) r.

End Re.

(* ===================================================================== *)
(** ** log_classifier.py: patterns *)
(* ===================================================================== *)

Open Scope string_scope.
Open Scope list_scope.
Open Scope Z_scope.

Definition NOISE_PATTERNS : list Re.regex :=
  [Re.lit "health check";
   Re.lit "connection reset by peer";
   Re.lit "context canceled";
   Re.lit "request canceled";
   Re.lit "EOF"].

(** A literal character of a pattern. *)
Definition chr (c : ascii) : Re.atom := Re.One (Re.CChar c).

Definition DATE_RE : Re.regex :=
  Re.times 4 Re.CDigit ++ [chr "-"%char] ++ Re.times 2 Re.CDigit ++ [chr "-"%char]
  ++ Re.times 2 Re.CDigit.

Definition TIME_RE : Re.regex :=
  Re.times 2 Re.CDigit ++ [chr ":"%char] ++ Re.times 2 Re.CDigit ++ [chr ":"%char]
  ++ Re.times 2 Re.CDigit.

Definition UUID_RE : Re.regex :=
  [Re.Bound] ++ Re.times 8 Re.CHex ++ [chr "-"%char] ++ Re.times 4 Re.CHex
  ++ [chr "-"%char] ++ Re.times 4 Re.CHex ++ [chr "-"%char] ++ Re.times 4 Re.CHex
  ++ [chr "-"%char] ++ Re.times 12 Re.CHex ++ [Re.Bound].

Definition IP_RE : Re.regex :=
  [Re.Bound; Re.Plus Re.CDigit; chr "."%char; Re.Plus Re.CDigit; chr "."%char;
   Re.Plus Re.CDigit; chr "."%char; Re.Plus Re.CDigit; Re.Bound].

Definition NUM_RE : Re.regex := [Re.Bound; Re.Plus Re.CDigit; Re.Bound].

Definition NORMALIZE_PATTERNS : list (Re.regex * string) :=
  [(DATE_RE, "<DATE>"); (TIME_RE, "<TIME>"); (UUID_RE, "<UUID>");
   (IP_RE, "<IP>"); (NUM_RE, "<NUM>")].

(** The pattern that matches the characters [p] literally. *)
Definition lit_chars (p : list ascii) : Re.regex :=
  map (fun c => Re.One (Re.CChar c)) p.

(** The characters a UUID is made of. *)
Definition uuid_char (c : ascii) : bool := Chars.is_hex c || Ascii.eqb "-" c.

(** [_normalize_message]: the rules applied in order, each to the result of
    the one before. *)
Definition normalize_chars (message : list ascii) : list ascii :=
  fold_left (fun result '(pattern, replacement) =>
               Re.sub pattern (list_ascii_of_string replacement) result)
            NORMALIZE_PATTERNS message.

Definition _normalize_message (message : string) : string :=
  string_of_list_ascii (normalize_chars (list_ascii_of_string message)).

(* ===================================================================== *)
(** ** Python dicts with string keys *)
(* ===================================================================== *)

Module Dict.
Section Dict.
Context {V : Type}.

Definition t : Type := list (string * V).

(** [d.get(k)] / [k in d] / [d[k]] *)
Fixpoint get (k : string) (d : t) : option V :=
  match d with
  | [] => None
  | (k', v) :: d' => if String.eqb k k' then Some v else get k d'
  end.

(** [d[k] = v]; also the write-back of an in-place mutation of [d[k]]. *)
Fixpoint set (k : string) (v : V) (d : t) : t :=
  match d with
  | [] => [(k, v)]
  | (k', v') :: d' =>
      if String.eqb k k' then (k', v) :: d' else (k', v') :: set k v d'
  end.

(** [d.values()], in insertion order. *)
Definition values (d : t) : list V := map snd d.

Definition keys (d : t) : list string := map fst d.

(** [d1 == d2] on dicts: the same keys with the same values, whatever the
    insertion order. *)
Definition eq (d1 d2 : t) : Prop := forall k, get k d1 = get k d2.

End Dict.
Arguments t V : clear implicits.
End Dict.

(* ===================================================================== *)
(** ** alert_deduplicator.py *)
(* ===================================================================== *)

Module Dedup.

Inductive AlertSeverity : Type := CRITICAL | WARNING | INFO.

Definition value (s : AlertSeverity) : string :=
  match s with
  | CRITICAL => "critical"
  | WARNING => "warning"
  | INFO => "info"
  end.

Record Alert : Type := mkAlert {
  id : string;
  name : string;
  severity : AlertSeverity;
  service : string;
  message : string;
  timestamp : Z;
  labels : list (string * string)
}.

Module AlertGroup.
Record t : Type := mk {
  signature : string;
  name : string;
  severity : AlertSeverity;
  count : Z;
  first_seen : Z;
  last_seen : Z;
  services : list string;
  alerts : list Alert
}.
End AlertGroup.

(** The object state of [AlertDeduplicator]. *)
Record AlertDeduplicator : Type := mkDedup {
  groups : Dict.t AlertGroup.t;
  suppressed_count : Z
}.

(** [timedelta(minutes=5)] *)
Definition SUPPRESSION_WINDOW : Z := 5 * 60 * 1000000.

(** [__init__] *)
Definition init : AlertDeduplicator := mkDedup [] 0.

Definition _get_signature (alert : Alert) : string :=
  let fingerprint := (name alert ++ "|" ++ value (severity alert))%string in
  md5_hex12 fingerprint.

(** [x not in l] then [l.append(x)] *)
Definition append_if_absent (x : string) (l : list string) : list string :=
  if existsb (String.eqb x) l then l else l ++ [x].

Definition process_alert (self : AlertDeduplicator) (alert : Alert)
  : AlertDeduplicator * bool :=
  let signature := _get_signature alert in
  match Dict.get signature (groups self) with
  | Some group =>
      let time_since_last := timestamp alert - AlertGroup.last_seen group in
      if time_since_last <? SUPPRESSION_WINDOW then
        let group' :=
          AlertGroup.mk (AlertGroup.signature group) (AlertGroup.name group)
            (AlertGroup.severity group)
            (AlertGroup.count group + 1)
            (AlertGroup.first_seen group)
            (timestamp alert)
            (append_if_absent (service alert) (AlertGroup.services group))
            (AlertGroup.alerts group ++ [alert]) in
        (mkDedup (Dict.set signature group' (groups self))
                 (suppressed_count self + 1), false)
      else
        let group' :=
          AlertGroup.mk (AlertGroup.signature group) (AlertGroup.name group)
            (AlertGroup.severity group)
            (AlertGroup.count group + 1)
            (AlertGroup.first_seen group)
            (timestamp alert)
            (AlertGroup.services group)
            (AlertGroup.alerts group ++ [alert]) in
        (mkDedup (Dict.set signature group' (groups self))
                 (suppressed_count self), true)
  | None =>
      let group' :=
        AlertGroup.mk signature (name alert) (severity alert) 1
          (timestamp alert) (timestamp alert) [service alert] [alert] in
      (mkDedup (Dict.set signature group' (groups self))
               (suppressed_count self), true)
  end.

(** What [process_alert] does to the group of the alert's signature: the
    group after the call and the returned value. *)
Definition upsert_group (og : option AlertGroup.t) (alert : Alert)
  : AlertGroup.t * bool :=
  match og with
  | Some group =>
      if timestamp alert - AlertGroup.last_seen group <? SUPPRESSION_WINDOW then
        (AlertGroup.mk (AlertGroup.signature group) (AlertGroup.name group)
           (AlertGroup.severity group) (AlertGroup.count group + 1)
           (AlertGroup.first_seen group) (timestamp alert)
           (append_if_absent (service alert) (AlertGroup.services group))
           (AlertGroup.alerts group ++ [alert]), false)
      else
        (AlertGroup.mk (AlertGroup.signature group) (AlertGroup.name group)
           (AlertGroup.severity group) (AlertGroup.count group + 1)
           (AlertGroup.first_seen group) (timestamp alert)
           (AlertGroup.services group)
           (AlertGroup.alerts group ++ [alert]), true)
  | None =>
      (AlertGroup.mk (_get_signature alert) (name alert) (severity alert) 1
         (timestamp alert) (timestamp alert) [service alert] [alert], true)
  end.

(** Every alert has a signature. *)
Definition key (alert : Alert) : option string := Some (_get_signature alert).

(** The alerts of signature [s]. *)
Definition with_signature (s : string) (alert : Alert) : bool :=
  String.eqb (_get_signature alert) s.

(** [get_active_groups]; [now] is what [datetime.now()] returns. *)
Definition get_active_groups (now : Z) (self : AlertDeduplicator)
  : list AlertGroup.t :=
  let active_window := 30 * 60 * 1000000 in
  filter (fun g => now - AlertGroup.last_seen g <? active_window)
         (Dict.values (groups self)).

(** [sorted(l, key=lambda x: x.count, reverse=True)] as [print_report] calls
    it: a stable sort, larger counts first. *)
Fixpoint insert_by_count (g : AlertGroup.t) (l : list AlertGroup.t)
  : list AlertGroup.t :=
  match l with
  | [] => [g]
  | h :: l' =>
      if AlertGroup.count h <=? AlertGroup.count g then g :: l
      else h :: insert_by_count g l'
  end.

Definition sorted_by_count_desc (l : list AlertGroup.t) : list AlertGroup.t :=
  fold_right insert_by_count [] l.

(** The groups in the order [print_report] lists them. *)
Definition report_groups (now : Z) (self : AlertDeduplicator)
  : list AlertGroup.t :=
  sorted_by_count_desc (get_active_groups now self).

(** The loop of [main]: the alerts processed in order; the final object and
    each alert with the value [process_alert] returned for it. *)
Fixpoint run (self : AlertDeduplicator) (alerts : list Alert)
  : AlertDeduplicator * list (Alert * bool) :=
  match alerts with
  | [] => (self, [])
  | alert :: rest =>
      let '(self1, sent) := process_alert self alert in
      let '(self2, trace) := run self1 rest in
      (self2, (alert, sent) :: trace)
  end.

(** An entry of the trace of [run] with its returned value under [Some],
    and back. *)
Definition some_decision (p : Alert * bool) : Alert * option bool :=
  (fst p, Some (snd p)).

Definition drop_some (p : Alert * option bool) : Alert * bool :=
  (fst p, match snd p with Some b => b | None => true end).

(** The alert of this entry of the trace was suppressed. *)
Definition suppressed (p : Alert * bool) : bool := negb (snd p).

(** [g] comes before [h] in a list ordered by count, largest first. *)
Definition count_ge (g h : AlertGroup.t) : Prop :=
  AlertGroup.count h <= AlertGroup.count g.

End Dedup.

(* ===================================================================== *)
(** ** log_classifier.py *)
(* ===================================================================== *)

Module Classifier.

Inductive LogLevel : Type := DEBUG | INFO | WARNING | ERROR | CRITICAL.

Record LogEntry : Type := mkEntry {
  timestamp : Z;
  level : LogLevel;
  service : string;
  message : string;
  trace_id : option string
}.

Record ErrorCluster : Type := mkCluster {
  pattern : string;
  signature : string;
  count : Z;
  first_seen : Z;
  last_seen : Z;
  samples : list LogEntry;
  is_noise : bool
}.

(** The object state of [LogClassifier]. *)
Record LogClassifier : Type := mkClassifier {
  clusters : Dict.t ErrorCluster;
  noise_count : Z
}.

Definition init : LogClassifier := mkClassifier [] 0.

Definition _is_noise (entry : LogEntry) : bool :=
  let msg_lower := Chars.lower (list_ascii_of_string (message entry)) in
  existsb (fun p => Re.search p msg_lower) NOISE_PATTERNS.

(** The signature [classify] computes for an entry that is not noise. *)
Definition signature_of (entry : LogEntry) : string :=
  md5_hex12 (_normalize_message (message entry)).

(** [classify]: the new object and the returned signature, [None] for
    noise. *)
Definition classify (self : LogClassifier) (entry : LogEntry)
  : LogClassifier * option string :=
  if _is_noise entry then
    (mkClassifier (clusters self) (noise_count self + 1), None)
  else
    let normalized := _normalize_message (message entry) in
    let signature := md5_hex12 normalized in
    match Dict.get signature (clusters self) with
    | Some cluster =>
        let samples' :=
          if (length (samples cluster) <? 3)%nat
          then samples cluster ++ [entry] else samples cluster in
        let cluster' :=
          mkCluster (pattern cluster) (Classifier.signature cluster)
            (count cluster + 1) (first_seen cluster) (timestamp entry)
            samples' (is_noise cluster) in
        (mkClassifier (Dict.set signature cluster' (clusters self))
                      (noise_count self), Some signature)
    | None =>
        let cluster' :=
          mkCluster normalized signature 1 (timestamp entry) (timestamp entry)
            [entry] false in
        (mkClassifier (Dict.set signature cluster' (clusters self))
                      (noise_count self), Some signature)
    end.

(** What [classify] does to the cluster of the entry's signature. *)
Definition upsert_cluster (oc : option ErrorCluster) (entry : LogEntry)
  : ErrorCluster * string :=
  let normalized := _normalize_message (message entry) in
  let signature := md5_hex12 normalized in
  match oc with
  | Some cluster =>
      (mkCluster (pattern cluster) (Classifier.signature cluster)
         (count cluster + 1) (first_seen cluster) (timestamp entry)
         (if (length (samples cluster) <? 3)%nat
          then samples cluster ++ [entry] else samples cluster)
         (is_noise cluster), signature)
  | None =>
      (mkCluster normalized signature 1 (timestamp entry) (timestamp entry)
         [entry] false, signature)
  end.

(** Noise has no signature. *)
Definition key (entry : LogEntry) : option string :=
  if _is_noise entry then None else Some (signature_of entry).

(** The entries that are not noise and have signature [s]. *)
Definition with_signature (s : string) (entry : LogEntry) : bool :=
  negb (_is_noise entry) && String.eqb (signature_of entry) s.

Definition get_actionable_errors (min_count : Z) (self : LogClassifier)
  : list ErrorCluster :=
  filter (fun c => negb (is_noise c) && (min_count <=? count c))
         (Dict.values (clusters self)).

(** The loop of [main]. *)
Fixpoint run (self : LogClassifier) (entries : list LogEntry)
  : LogClassifier * list (LogEntry * option string) :=
  match entries with
  | [] => (self, [])
  | entry :: rest =>
      let '(self1, sig) := classify self entry in
      let '(self2, trace) := run self1 rest in
      (self2, (entry, sig) :: trace)
  end.

(** The entry of this item of the trace was noise. *)
Definition is_noise_decision (p : LogEntry * option string) : bool :=
  match snd p with
  | Some _ => false
  | None => true
  end.

End Classifier.

(* ===================================================================== *)
(** ** The same methods on objects whose attributes may be absent *)
(* ===================================================================== *)

(** Python checks no field: an event object can lack an attribute, or hold
    None in it.  This module follows both methods statement by statement on
    such objects, with the exception an attribute access or an operation
    raises, and with the object as the statements before the raise left
    it. *)
Module Untyped.

Inductive attr (A : Type) : Type :=
| Missing
| PyNone
| Has (a : A).
Arguments Missing {A}.
Arguments PyNone {A}.
Arguments Has {A} a.

Inductive exn : Type := AttributeError | TypeError.

Inductive outcome (S R : Type) : Type :=
| Returned (self : S) (result : R)
| Raised (e : exn) (self : S).
Arguments Returned {S R} self result.
Arguments Raised {S R} e self.

(** A value that was read from an attribute that is there: None or a
    value. *)
Definition stored {A : Type} (x : attr A) : option A :=
  match x with
  | Has a => Some a
  | _ => None
  end.

(** [f"{x}"] *)
Definition str (x : option string) : string :=
  match x with
  | Some s => s
  | None => "None"
  end.

Definition opt_eqb (x y : option string) : bool :=
  match x, y with
  | Some a, Some b => String.eqb a b
  | None, None => true
  | _, _ => false
  end.

Record Alert : Type := mkAlert {
  id : attr string;
  name : attr string;
  severity : attr Dedup.AlertSeverity;
  service : attr string;
  message : attr string;
  timestamp : attr Z;
  labels : attr (list (string * string))
}.

Record AlertGroup : Type := mkGroup {
  g_signature : string;
  g_name : option string;
  g_severity : Dedup.AlertSeverity;
  g_count : Z;
  g_first_seen : option Z;
  g_last_seen : option Z;
  g_services : list (option string);
  g_alerts : list Alert
}.

Record AlertDeduplicator : Type := mkDedup {
  groups : Dict.t AlertGroup;
  suppressed_count : Z
}.

(** [alert.name] must be there, [alert.severity] must be there and have a
    [value]. *)
Definition _get_signature (alert : Alert) : exn + string :=
  match name alert with
  | Missing => inl AttributeError
  | n =>
      match severity alert with
      | Has s => inr (md5_hex12 (str (stored n) ++ "|" ++ Dedup.value s)%string)
      | _ => inl AttributeError
      end
  end.

Definition with_count (g : AlertGroup) (n : Z) : AlertGroup :=
  mkGroup (g_signature g) (g_name g) (g_severity g) n (g_first_seen g)
    (g_last_seen g) (g_services g) (g_alerts g).

Definition with_last_seen (g : AlertGroup) (t : option Z) : AlertGroup :=
  mkGroup (g_signature g) (g_name g) (g_severity g) (g_count g)
    (g_first_seen g) t (g_services g) (g_alerts g).

Definition with_services (g : AlertGroup) (l : list (option string)) : AlertGroup :=
  mkGroup (g_signature g) (g_name g) (g_severity g) (g_count g)
    (g_first_seen g) (g_last_seen g) l (g_alerts g).

Definition with_alerts (g : AlertGroup) (l : list Alert) : AlertGroup :=
  mkGroup (g_signature g) (g_name g) (g_severity g) (g_count g)
    (g_first_seen g) (g_last_seen g) (g_services g) l.

Definition put (self : AlertDeduplicator) (k : string) (g : AlertGroup)
  : AlertDeduplicator :=
  mkDedup (Dict.set k g (groups self)) (suppressed_count self).

Definition process_alert (self : AlertDeduplicator) (alert : Alert)
  : outcome AlertDeduplicator bool :=
  match _get_signature alert with
  | inl e => Raised e self
  | inr signature =>
      match Dict.get signature (groups self) with
      | Some group =>
          (* time_since_last = alert.timestamp - group.last_seen *)
          match timestamp alert, g_last_seen group with
          | Missing, _ => Raised AttributeError self
          | Has t, Some seen =>
              if t - seen <? Dedup.SUPPRESSION_WINDOW then
                (* group.count += 1; group.last_seen = alert.timestamp *)
                let group1 := with_count group (g_count group + 1) in
                let group2 := with_last_seen group1 (Some t) in
                let self2 := put self signature group2 in
                (* if alert.service not in group.services: ... *)
                match service alert with
                | Missing => Raised AttributeError self2
                | svc =>
                    let group3 :=
                      if existsb (opt_eqb (stored svc)) (g_services group2)
                      then group2
                      else with_services group2 (g_services group2 ++ [stored svc]) in
                    let group4 := with_alerts group3 (g_alerts group3 ++ [alert]) in
                    Returned (mkDedup (Dict.set signature group4 (groups self))
                                      (suppressed_count self + 1)) false
                end
              else
                let group1 := with_count group (g_count group + 1) in
                let group2 := with_last_seen group1 (Some t) in
                let group3 := with_alerts group2 (g_alerts group2 ++ [alert]) in
                Returned (put self signature group3) true
          | _, _ => Raised TypeError self
          end
      | None =>
          (* the arguments of AlertGroup(...) are read before the dict is
             assigned *)
          match severity alert, timestamp alert, service alert with
          | Has sev, Missing, _ => Raised AttributeError self
          | Has sev, _, Missing => Raised AttributeError self
          | Has sev, t, svc =>
              Returned
                (put self signature
                   (mkGroup signature (stored (name alert)) sev 1 (stored t)
                      (stored t) [stored svc] [alert])) true
          | _, _, _ => Raised AttributeError self
          end
      end
  end.

Record LogEntry : Type := mkEntry {
  e_timestamp : attr Z;
  e_level : attr Classifier.LogLevel;
  e_service : attr string;
  e_message : attr string;
  e_trace_id : attr string
}.

Record ErrorCluster : Type := mkCluster {
  c_pattern : string;
  c_signature : string;
  c_count : Z;
  c_first_seen : option Z;
  c_last_seen : option Z;
  c_samples : list LogEntry;
  c_is_noise : bool
}.

Record LogClassifier : Type := mkClassifier {
  clusters : Dict.t ErrorCluster;
  noise_count : Z
}.

Definition classify (self : LogClassifier) (entry : LogEntry)
  : outcome LogClassifier (option string) :=
  (* entry.message.lower() *)
  match e_message entry with
  | Has msg =>
      if existsb (fun p => Re.search p (Chars.lower (list_ascii_of_string msg)))
                 NOISE_PATTERNS
      then Returned (mkClassifier (clusters self) (noise_count self + 1)) None
      else
        let normalized := _normalize_message msg in
        let signature := md5_hex12 normalized in
        match Dict.get signature (clusters self) with
        | Some cluster =>
            (* cluster.count += 1 *)
            let cluster1 :=
              mkCluster (c_pattern cluster) (c_signature cluster)
                (c_count cluster + 1) (c_first_seen cluster)
                (c_last_seen cluster) (c_samples cluster) (c_is_noise cluster) in
            let self1 :=
              mkClassifier (Dict.set signature cluster1 (clusters self))
                           (noise_count self) in
            (* cluster.last_seen = entry.timestamp *)
            match e_timestamp entry with
            | Missing => Raised AttributeError self1
            | t =>
                let cluster2 :=
                  mkCluster (c_pattern cluster) (c_signature cluster)
                    (c_count cluster + 1) (c_first_seen cluster) (stored t)
                    (if (length (c_samples cluster) <? 3)%nat
                     then c_samples cluster ++ [entry] else c_samples cluster)
                    (c_is_noise cluster) in
                Returned
                  (mkClassifier (Dict.set signature cluster2 (clusters self))
                                (noise_count self)) (Some signature)
            end
        | None =>
            match e_timestamp entry with
            | Missing => Raised AttributeError self
            | t =>
                Returned
                  (mkClassifier
                     (Dict.set signature
                        (mkCluster normalized signature 1 (stored t) (stored t)
                           [entry] false) (clusters self))
                     (noise_count self)) (Some signature)
            end
        end
  | _ => Raised AttributeError self
  end.

(** The well-formed objects of [Dedup] and [Classifier] as objects of this
    module. *)
Definition of_alert (a : Dedup.Alert) : Alert :=
  mkAlert (Has (Dedup.id a)) (Has (Dedup.name a)) (Has (Dedup.severity a))
    (Has (Dedup.service a)) (Has (Dedup.message a)) (Has (Dedup.timestamp a))
    (Has (Dedup.labels a)).

Definition of_group (g : Dedup.AlertGroup.t) : AlertGroup :=
  mkGroup (Dedup.AlertGroup.signature g) (Some (Dedup.AlertGroup.name g))
    (Dedup.AlertGroup.severity g) (Dedup.AlertGroup.count g)
    (Some (Dedup.AlertGroup.first_seen g)) (Some (Dedup.AlertGroup.last_seen g))
    (map Some (Dedup.AlertGroup.services g))
    (map of_alert (Dedup.AlertGroup.alerts g)).

Definition of_dict {V W : Type} (f : V -> W) (d : Dict.t V) : Dict.t W :=
  map (fun kv => (fst kv, f (snd kv))) d.

Definition of_dedup (self : Dedup.AlertDeduplicator) : AlertDeduplicator :=
  mkDedup (of_dict of_group (Dedup.groups self)) (Dedup.suppressed_count self).

Definition of_entry (e : Classifier.LogEntry) : LogEntry :=
  mkEntry (Has (Classifier.timestamp e)) (Has (Classifier.level e))
    (Has (Classifier.service e)) (Has (Classifier.message e))
    (match Classifier.trace_id e with Some t => Has t | None => PyNone end).

Definition of_cluster (c : Classifier.ErrorCluster) : ErrorCluster :=
  mkCluster (Classifier.pattern c) (Classifier.signature c) (Classifier.count c)
    (Some (Classifier.first_seen c)) (Some (Classifier.last_seen c))
    (map of_entry (Classifier.samples c)) (Classifier.is_noise c).

Definition of_classifier (self : Classifier.LogClassifier) : LogClassifier :=
  mkClassifier (of_dict of_cluster (Classifier.clusters self))
    (Classifier.noise_count self).

End Untyped.

(* ===================================================================== *)
(** ** Sample events *)
(* ===================================================================== *)

Module Samples.

Definition seconds (n : Z) : Z := n * 1000000.

(** [HighErrorRate], critical, from [service] at [t] seconds. *)
Definition high_error_rate (service : string) (t : Z) : Dedup.Alert :=
  Dedup.mkAlert "alert-0000" "HighErrorRate" Dedup.CRITICAL service
    "Error rate > 5%" (seconds t) [].

(** [HighCPU], warning, from [service] at [t] seconds. *)
Definition high_cpu (service : string) (t : Z) : Dedup.Alert :=
  Dedup.mkAlert "alert-0001" "HighCPU" Dedup.WARNING service "CPU > 80%"
    (seconds t) [].

(** An error line of service [api] at [t] seconds. *)
Definition log_line (message : string) (t : Z) : Classifier.LogEntry :=
  Classifier.mkEntry (seconds t) Classifier.ERROR "api" message
    (Some "trace-1000").

End Samples.

(* ===================================================================== *)
(** ** A store keyed by signature, seen one signature at a time *)
(* ===================================================================== *)

(** Both engines have the same shape: an event either has no key (noise) and
    leaves the dict alone, or it has a key and the dict entry of that key,
    and nothing else, is replaced by a function of the old entry and the
    event. *)
Module Keyed.
Section Keyed.
Variables E G D : Type.
Variable key : E -> option string.
Variable step : option G -> E -> G * D.

Definition has_key (s : string) (e : E) : bool :=
  match key e with
  | Some k => String.eqb k s
  | None => false
  end.

Definition keyless (e : E) : bool :=
  match key e with
  | Some _ => false
  | None => true
  end.

Definition kstep (d : Dict.t G) (e : E) : Dict.t G * option D :=
  match key e with
  | None => (d, None)
  | Some k =>
      let '(g, dec) := step (Dict.get k d) e in (Dict.set k g d, Some dec)
  end.

Fixpoint krun (d : Dict.t G) (es : list E) : Dict.t G * list (E * option D) :=
  match es with
  | [] => (d, [])
  | e :: rest =>
      let '(d1, dec) := kstep d e in
      let '(d2, trace) := krun d1 rest in
      (d2, (e, dec) :: trace)
  end.

(** The entry of one key, fed the events of that key only. *)
Fixpoint grun (og : option G) (es : list E) : option G * list (E * option D) :=
  match es with
  | [] => (og, [])
  | e :: rest =>
      let '(g, dec) := step og e in
      let '(og', trace) := grun (Some g) rest in
      (og', (e, Some dec) :: trace)
  end.

End Keyed.

Arguments has_key {E} key s e.
Arguments keyless {E} key e.
Arguments kstep {E G D} key step d e.
Arguments krun {E G D} key step d es.
Arguments grun {E G D} step og es.
End Keyed.

(** No member of [l] has a timestamp before that of the first. *)
Definition first_is_oldest {E : Type} (ts : E -> Z) (l : list E) : Prop :=
  match l with
  | [] => True
  | e0 :: rest => Forall (fun e => ts e0 <= ts e) rest
  end.

(** The keys of a dict after one more event: a new key goes to the end. *)
Definition note_key (seen : list string) (ok : option string) : list string :=
  match ok with
  | None => seen
  | Some k => if existsb (String.eqb k) seen then seen else seen ++ [k]
  end.

(** The distinct keys of a run of events, each at its first occurrence. *)
Definition key_order (seen : list string) (oks : list (option string))
  : list string :=
  fold_left note_key oks seen.

(** [sum(cnt(v) for v in d.values())] *)
Module DictSum.
Definition total {V : Type} (cnt : V -> Z) (d : Dict.t V) : Z :=
  fold_left (fun acc v => acc + cnt v) (Dict.values d) 0.
End DictSum.

(* ===================================================================== *)
(** ** alert_deduplicator.py: summary, generator and report *)
(* ===================================================================== *)

Module DedupReport.
Import Dedup.

(** The string [_get_signature] hashes: [f"{alert.name}|{alert.severity.value}"]. *)
Definition fingerprint (alert : Alert) : string :=
  (name alert ++ "|" ++ value (severity alert))%string.

(** [sum(g.count for g in self.groups.values())] *)
Definition total_processed (self : AlertDeduplicator) : Z :=
  fold_left (fun acc g => acc + AlertGroup.count g) (Dict.values (groups self)) 0.

(** The dict [get_summary] returns, without its "suppression_rate" entry,
    which is a float formatted for display. *)
Record Summary : Type := mkSummary {
  total_alerts_processed : Z;
  unique_alert_types : Z;
  alerts_suppressed : Z;
  active_groups : Z
}.

Definition get_summary (now : Z) (self : AlertDeduplicator) : Summary :=
  let total_processed := total_processed self in
  let unique_alerts := Z.of_nat (length (groups self)) in
  mkSummary total_processed unique_alerts (suppressed_count self)
    (Z.of_nat (length (get_active_groups now self))).

(** [sent_count] of [main]: one more for every alert [process_alert]
    returned True for. *)
Definition sent_count (trace : list (Alert * bool)) : Z :=
  Z.of_nat (length (filter snd trace)).

(** [sorted(alerts, key=lambda x: x.timestamp)], the last line of
    [AlertGenerator.generate]: a stable sort, earliest first. *)
Fixpoint insert_by_timestamp (a : Alert) (l : list Alert) : list Alert :=
  match l with
  | [] => [a]
  | h :: l' =>
      if timestamp a <=? timestamp h then a :: l
      else h :: insert_by_timestamp a l'
  end.

Definition sorted_by_timestamp (alerts : list Alert) : list Alert :=
  fold_right insert_by_timestamp [] alerts.

(** [a] is not later than [b]. *)
Definition not_later (a b : Alert) : Prop := timestamp a <= timestamp b.

(** The decisions a sliding window gives a sequence of alerts of one
    signature: the first is sent, each later one is sent exactly when it
    comes five minutes or more after the one before it.  [last] is the
    timestamp of the alert before, if any. *)
Fixpoint gap_decisions (last : option Z) (l : list Alert) : list (Alert * bool) :=
  match l with
  | [] => []
  | a :: rest =>
      (a, match last with
          | None => true
          | Some t => negb (timestamp a - t <? SUPPRESSION_WINDOW)
          end) :: gap_decisions (Some (timestamp a)) rest
  end.

(** Every alert of [l] comes less than five minutes after the one before
    it, [t] being the timestamp before the first. *)
Fixpoint within_window (t : Z) (l : list Alert) : Prop :=
  match l with
  | [] => True
  | a :: rest =>
      timestamp a - t < SUPPRESSION_WINDOW /\ within_window (timestamp a) rest
  end.

(** The services of a group are distinct, each is the service of an alert
    the group holds, and the first is the service of its first alert. *)
Definition services_ok (g : AlertGroup.t) : Prop :=
  NoDup (AlertGroup.services g)
  /\ (forall s, In s (AlertGroup.services g) ->
        exists a, In a (AlertGroup.alerts g) /\ service a = s)
  /\ option_map service (hd_error (AlertGroup.alerts g)) =
     hd_error (AlertGroup.services g)
  /\ AlertGroup.alerts g <> [].

End DedupReport.

(* ===================================================================== *)
(** ** log_classifier.py: summary and report *)
(* ===================================================================== *)

Module ClassifierReport.
Import Classifier.

(** [sum(c.count for c in self.clusters.values())] *)
Definition total_errors (self : LogClassifier) : Z :=
  fold_left (fun acc c => acc + count c) (Dict.values (clusters self)) 0.

(** The dict [get_summary] returns, without its "noise_reduction_pct"
    entry, which is a rounded float. *)
Record Summary : Type := mkSummary {
  total_entries : Z;
  unique_patterns : Z;
  noise_filtered : Z;
  actionable_clusters : Z
}.

Definition get_summary (self : LogClassifier) : Summary :=
  let total_errors := total_errors self in
  let actionable := get_actionable_errors 2 self in
  mkSummary (total_errors + noise_count self)
    (Z.of_nat (length (clusters self))) (noise_count self)
    (Z.of_nat (length actionable)).

(** [sorted(actionable, key=lambda x: x.count, reverse=True)]: a stable
    sort, larger counts first. *)
Fixpoint insert_cluster (c : ErrorCluster) (l : list ErrorCluster)
  : list ErrorCluster :=
  match l with
  | [] => [c]
  | h :: l' =>
      if count h <=? count c then c :: l else h :: insert_cluster c l'
  end.

Definition sorted_clusters (l : list ErrorCluster) : list ErrorCluster :=
  fold_right insert_cluster [] l.

(** The clusters [print_report] lists:
    [sorted(actionable, key=lambda x: x.count, reverse=True)[:5]] with
    [actionable = classifier.get_actionable_errors()]. *)
Definition top_patterns (self : LogClassifier) : list ErrorCluster :=
  firstn 5 (sorted_clusters (get_actionable_errors 2 self)).

(** [c] comes before [d] in a list ordered by count, largest first. *)
Definition cluster_ge (c d : ErrorCluster) : Prop := count d <= count c.

(** [total_errors + self.noise_count] *)
Definition grand_total (self : LogClassifier) : Z :=
  total_errors self + noise_count self.

(** The entries [classify] does not count as noise. *)
Definition not_noise (entry : LogEntry) : bool := negb (_is_noise entry).

End ClassifierReport.

(* ===================================================================== *)
(** ** log_classifier.py: the messages of LogGenerator *)
(* ===================================================================== *)

Module LogGen.

Definition ERROR_TEMPLATES : list string :=
  ["Database connection failed: timeout after <NUM>ms";
   "API request failed: status <NUM>";
   "User authentication failed for user_id: <UUID>";
   "Payment processing error: transaction <UUID>";
   "health check passed";
   "connection reset by peer";
   "File not found: /path/to/file";
   "Rate limit exceeded for IP <IP>"].

(** [str(n)] of an int. *)
Definition str (n : Z) : list ascii :=
  list_ascii_of_string (DecimalString.NilZero.string_of_int (Z.to_int n)).

(** [f"{x:08x}"] for [x] from [random.randint(0, 0xffffffff)]: eight
    hexadecimal digits, the high ones first. *)
Definition hex8 (x : Z) : list ascii :=
  map (fun i => MD5.hex_digit ((x / 16 ^ i) mod 16)) [7; 6; 5; 4; 3; 2; 1; 0].

(** [f"{x:08x}-0000-0000-0000-000000000000"] *)
Definition uuid_text (x : Z) : list ascii :=
  hex8 x ++ list_ascii_of_string "-0000-0000-0000-000000000000".

(** [f"{a}.{b}.{c}.{d}"] *)
Definition ip_text (a b c d : Z) : list ascii :=
  str a ++ list_ascii_of_string "." ++ str b ++ list_ascii_of_string "."
  ++ str c ++ list_ascii_of_string "." ++ str d.

(** The message [generate] builds from a template and its random draws:
    [num] from [randint(1, 10000)], [x] from [randint(0, 0xffffffff)] and
    the four fields of the address. *)
Definition message_of (template : string) (num x a b c d : Z) : string :=
  let message := list_ascii_of_string template in
  let message := Re.sub (Re.lit "<NUM>") (str num) message in
  let message := Re.sub (Re.lit "<UUID>") (uuid_text x) message in
  let message := Re.sub (Re.lit "<IP>") (ip_text a b c d) message in
  string_of_list_ascii message.

(** The templates whose placeholder stands apart from the words around
    it, and the one without placeholder that is not noise. *)
Definition round_trip_templates : list string :=
  ["API request failed: status <NUM>";
   "User authentication failed for user_id: <UUID>";
   "Payment processing error: transaction <UUID>";
   "File not found: /path/to/file";
   "Rate limit exceeded for IP <IP>"].

(** The two templates the source marks as noise. *)
Definition noise_templates : list string :=
  ["health check passed"; "connection reset by peer"].

(** The characters a filled placeholder is made of (hexadecimal digits,
    dash, dot) and those of the unit "ms" that follows the number of the
    first template. *)
Definition filling_char (c : ascii) : bool :=
  Chars.is_hex c || Ascii.eqb c "-" || Ascii.eqb c "." || Ascii.eqb c "m"
  || Ascii.eqb c "s".

(** The ranges [generate] draws from: [randint(1, 10000)],
    [randint(0, 0xffffffff)], [randint(1,255)], [randint(0,255)],
    [randint(0,255)], [randint(1,255)]. *)
Definition draws_in_range (num x a b c d : Z) : Prop :=
  1 <= num <= 10000 /\ 0 <= x <= 4294967295
  /\ 1 <= a <= 255 /\ 0 <= b <= 255 /\ 0 <= c <= 255 /\ 1 <= d <= 255.

End LogGen.

(** An entry whose message [LogGenerator.generate] can have built from one
    of [templates]. *)
Definition generated_from (templates : list string) (e : Classifier.LogEntry)
  : Prop :=
  exists template num x a b c d,
    In template templates /\ LogGen.draws_in_range num x a b c d
    /\ Classifier.message e = LogGen.message_of template num x a b c d.

(* ===================================================================== *)
(** ** alert_deduplicator.py: AlertGenerator *)
(* ===================================================================== *)

Module AlertGen.
Import Dedup.

Definition ALERT_TYPES : list (string * AlertSeverity * string) :=
  [("HighErrorRate", CRITICAL, "Error rate > 5%");
   ("HighLatency", WARNING, "P99 latency > 500ms");
   ("PodCrashLooping", CRITICAL, "Pod restarting");
   ("HighCPU", WARNING, "CPU > 80%");
   ("DiskSpaceLow", WARNING, "Disk < 10%")].

Definition services : list string := ["api"; "auth"; "payment"; "worker"].

(** [f"alert-{i:04d}"] *)
Definition alert_id (i : nat) : string :=
  let digits := LogGen.str (Z.of_nat i) in
  "alert-" ++ string_of_list_ascii
                (repeat "0"%char (4 - length digits) ++ digits).

(** What one turn of the loop of [generate] draws: the template and the
    service [random.choice] returns, the minutes [random.randint(0, 30)]
    returns and the clock [datetime.now()] reads. *)
Record draw : Type := mkDraw {
  template : string * AlertSeverity * string;
  service : string;
  minutes : Z;
  now : Z
}.

Definition in_range (d : draw) : Prop :=
  In (template d) ALERT_TYPES /\ In (service d) services /\ 0 <= minutes d <= 30.

Definition alert_of (i : nat) (d : draw) : Alert :=
  mkAlert (alert_id i) (fst (fst (template d))) (snd (fst (template d)))
    (service d) (snd (template d))
    (now d - minutes d * 60 * 1000000) [].

Fixpoint build (i : nat) (draws : list draw) : list Alert :=
  match draws with
  | [] => []
  | d :: rest => alert_of i d :: build (S i) rest
  end.

(** [generate(count)], [count] being the number of draws. *)
Definition generate (draws : list draw) : list Alert :=
  DedupReport.sorted_by_timestamp (build 0 draws).

(** The signatures of the five alert types. *)
Definition type_signatures : list string :=
  map (fun t => md5_hex12 (fst (fst t) ++ "|" ++ value (snd (fst t))))
      ALERT_TYPES.

End AlertGen.

(* ===================================================================== *)
(** * Properties *)
(* ===================================================================== *)

(** ** Dicts *)

Module DictFacts.
Section DictFacts.
Context {V : Type}.
Implicit Types (d : Dict.t V) (k : string) (v : V).

Lemma get_set_eq d k v : Dict.get k (Dict.set k v d) = Some v.
Proof.
  induction d as [|[k' v'] d IH]; simpl.
  - now rewrite String.eqb_refl.
  - destruct (String.eqb k k') eqn:Hk; simpl; rewrite Hk; auto.
Qed.

Lemma get_set_ne d k k' v : k <> k' -> Dict.get k (Dict.set k' v d) = Dict.get k d.
Proof.
  intros Hne. induction d as [|[k0 v0] d IH]; simpl.
  - destruct (String.eqb k k') eqn:Hk; auto.
    apply String.eqb_eq in Hk. contradiction.
  - destruct (String.eqb k' k0) eqn:Hk0; simpl.
    + apply String.eqb_eq in Hk0. subst k0.
      destruct (String.eqb k k') eqn:Hk; auto.
      apply String.eqb_eq in Hk. contradiction.
    + destruct (String.eqb k k0); auto.
Qed.

Lemma get_In d k v : Dict.get k d = Some v -> In v (Dict.values d).
Proof.
  induction d as [|[k0 v0] d IH]; simpl; [discriminate|].
  destruct (String.eqb k k0); intros H.
  - injection H as ->. now left.
  - right. now apply IH.
Qed.

Lemma keys_set_in d k v g :
  Dict.get k d = Some g -> Dict.keys (Dict.set k v d) = Dict.keys d.
Proof.
  induction d as [|[k0 v0] d IH]; simpl; [discriminate|].
  destruct (String.eqb k k0) eqn:Hk; simpl; intros H; auto.
  f_equal. now apply IH.
Qed.

Lemma values_set_new d k v :
  Dict.get k d = None -> Dict.values (Dict.set k v d) = Dict.values d ++ [v].
Proof.
  induction d as [|[k0 v0] d IH]; simpl; auto.
  destruct (String.eqb k k0) eqn:Hk; simpl; intros H; [discriminate|].
  f_equal. now apply IH.
Qed.

(** Every value of a dict sits under a key that looks it up, when no key
    is bound twice. *)
Lemma In_get d v :
  NoDup (Dict.keys d) -> In v (Dict.values d) -> exists k, Dict.get k d = Some v.
Proof.
  induction d as [|[k0 v0] d IH]; simpl; [tauto|].
  intros Hnd [->|Hin].
  - exists k0. now rewrite String.eqb_refl.
  - inversion Hnd as [|? ? Hnot Hnd']; subst.
    destruct (IH Hnd' Hin) as [k Hk]. exists k.
    destruct (String.eqb k k0) eqn:E; auto.
    apply String.eqb_eq in E. subst k0. exfalso. apply Hnot.
    clear -Hk. induction d as [|[k1 v1] d IHd]; simpl in *; [discriminate|].
    destruct (String.eqb k k1) eqn:E1.
    + apply String.eqb_eq in E1. now left.
    + right. auto.
Qed.

Lemma Forall_set (P : V -> Prop) d k v :
  Forall P (Dict.values d) -> P v -> Forall P (Dict.values (Dict.set k v d)).
Proof.
  intros Hd Hv. induction d as [|[k0 v0] d IH]; simpl.
  - constructor; auto.
  - inversion Hd; subst. destruct (String.eqb k k0); simpl; constructor; auto.
Qed.

Lemma keys_set_notin d k v :
  Dict.get k d = None -> Dict.keys (Dict.set k v d) = Dict.keys d ++ [k].
Proof.
  induction d as [|[k0 v0] d IH]; simpl; auto.
  destruct (String.eqb k k0) eqn:Hk; simpl; intros H; [discriminate|].
  f_equal. now apply IH.
Qed.

Lemma get_None_notin d k : Dict.get k d = None -> ~ In k (Dict.keys d).
Proof.
  induction d as [|[k0 v0] d IH]; simpl; [tauto|].
  destruct (String.eqb k k0) eqn:Hk; [discriminate|].
  intros H [->|Hin]; [now rewrite String.eqb_refl in Hk | now apply IH].
Qed.

Lemma NoDup_set d k v : NoDup (Dict.keys d) -> NoDup (Dict.keys (Dict.set k v d)).
Proof.
  intros Hnd. destruct (Dict.get k d) eqn:Hg.
  - now rewrite (keys_set_in _ _ _ _ Hg).
  - rewrite (keys_set_notin _ _ _ Hg).
    apply (Permutation_NoDup (l := k :: Dict.keys d)).
    + apply Permutation_cons_append.
    + constructor; auto. now apply get_None_notin.
Qed.

End DictFacts.
End DictFacts.

(** ** The keyed store: an entry depends on the events of its key only *)

Module KeyedFacts.
Import Keyed.

Lemma count_occ_filter {A : Type} (dec : forall x y : A, {x = y} + {x <> y})
    (p : A -> bool) (l : list A) (x : A) :
  p x = true -> count_occ dec (filter p l) x = count_occ dec l x.
Proof.
  intros Hp. induction l as [|y l IH]; simpl; auto.
  destruct (p y) eqn:Hy; simpl.
  - destruct (dec y x); auto.
  - destruct (dec y x) as [->|]; auto. congruence.
Qed.

Section KeyedFacts.
Variables E G D : Type.
Variable key : E -> option string.
Variable step : option G -> E -> G * D.

Lemma kstep_get s d e :
  Dict.get s (fst (kstep key step d e)) =
  if has_key key s e then Some (fst (step (Dict.get s d) e)) else Dict.get s d.
Proof.
  unfold kstep, has_key. destruct (key e) as [k|]; simpl; auto.
  destruct (String.eqb k s) eqn:Hk.
  - apply String.eqb_eq in Hk. subst k.
    destruct (step (Dict.get s d) e) as [g dec]. simpl.
    apply DictFacts.get_set_eq.
  - destruct (step (Dict.get k d) e) as [g dec]. simpl.
    apply DictFacts.get_set_ne. intros ->. now rewrite String.eqb_refl in Hk.
Qed.

Lemma kstep_dec s d e :
  has_key key s e = true ->
  snd (kstep key step d e) = Some (snd (step (Dict.get s d) e)).
Proof.
  unfold kstep, has_key. destruct (key e) as [k|]; [|discriminate].
  intros Hk. apply String.eqb_eq in Hk. subst k.
  now destruct (step (Dict.get s d) e).
Qed.

Lemma kstep_keyless d e :
  keyless key e = true -> kstep key step d e = (d, None).
Proof. unfold kstep, keyless. now destruct (key e). Qed.

Lemma kstep_keyed d e :
  keyless key e = false -> exists dec, snd (kstep key step d e) = Some dec.
Proof.
  unfold kstep, keyless. destruct (key e) as [k|]; [|discriminate].
  intros _. destruct (step (Dict.get k d) e) as [g dec]. now exists dec.
Qed.

(** The entry of [s] after a run, and the events of [s] with their
    decisions, are those of the run of [s] alone. *)
Lemma krun_proj s es : forall d,
  Dict.get s (fst (krun key step d es)) =
    fst (grun step (Dict.get s d) (filter (has_key key s) es))
  /\ filter (fun p => has_key key s (fst p)) (snd (krun key step d es)) =
    snd (grun step (Dict.get s d) (filter (has_key key s) es)).
Proof.
  induction es as [|e rest IH]; intros d; simpl; auto.
  pose proof (kstep_get s d e) as Hget.
  pose proof (kstep_dec s d e) as Hdec.
  destruct (kstep key step d e) as [d1 dec] eqn:Hk. simpl in *.
  destruct (IH d1) as [IH1 IH2].
  destruct (krun key step d1 rest) as [d2 trace] eqn:Hr. simpl in *.
  destruct (has_key key s e) eqn:Hs; simpl.
  - rewrite (Hdec eq_refl).
    destruct (step (Dict.get s d) e) as [g dc] eqn:Hst. simpl in *.
    rewrite Hget in IH1, IH2.
    destruct (grun step (Some g) (filter (has_key key s) rest)) as [og tr].
    simpl in *. split; congruence.
  - rewrite Hget in IH1, IH2. auto.
Qed.

Lemma krun_fst es : forall d, map fst (snd (krun key step d es)) = es.
Proof.
  induction es as [|e rest IH]; intros d; simpl; auto.
  destruct (kstep key step d e) as [d1 dec].
  specialize (IH d1). destruct (krun key step d1 rest) as [d2 trace].
  simpl in *. now f_equal.
Qed.

Hypothesis E_eq_dec : forall x y : E, {x = y} + {x <> y}.
Hypothesis D_eq_dec : forall x y : D, {x = y} + {x <> y}.

Lemma pair_eq_dec (x y : E * option D) : {x = y} + {x <> y}.
Proof. repeat decide equality. Defined.

Lemma krun_keyless_count es e dec : forall d,
  keyless key e = true ->
  count_occ pair_eq_dec (snd (krun key step d es)) (e, dec) =
  match dec with
  | None => count_occ E_eq_dec es e
  | Some _ => O
  end.
Proof.
  intros d He. revert d.
  induction es as [|e' rest IH]; intros d.
  - simpl. now destruct dec.
  - cbn [krun]. destruct (keyless key e') eqn:He'.
    + rewrite (kstep_keyless d e' He').
      specialize (IH d). destruct (krun key step d rest) as [d2 trace].
      cbn [snd] in *.
      destruct (pair_eq_dec (e', None) (e, dec)) as [Heq|Hne].
      * rewrite (count_occ_cons_eq _ _ Heq), IH. injection Heq as -> <-.
        now rewrite (count_occ_cons_eq _ _ eq_refl).
      * rewrite (count_occ_cons_neq _ _ Hne), IH. destruct dec; auto.
        rewrite count_occ_cons_neq; auto. congruence.
    + destruct (kstep_keyed d e' He') as [dc Hdc].
      destruct (kstep key step d e') as [d1 dec1]. simpl in Hdc. subst dec1.
      specialize (IH d1). destruct (krun key step d1 rest) as [d2 trace].
      cbn [snd] in *.
      assert (Hne : (e', Some dc) <> (e, dec)).
      { intros Heq. injection Heq as -> <-. congruence. }
      rewrite (count_occ_cons_neq _ _ Hne), IH. destruct dec; auto.
      rewrite count_occ_cons_neq; auto. congruence.
Qed.

(** Two orders of the same events that agree on every key give equal
    dicts and, event by event, equal decisions. *)
Lemma order_irrelevant d es1 es2 :
  Permutation es1 es2 ->
  (forall s, filter (has_key key s) es1 = filter (has_key key s) es2) ->
  Dict.eq (fst (krun key step d es1)) (fst (krun key step d es2))
  /\ (forall s,
        filter (fun p => has_key key s (fst p)) (snd (krun key step d es1)) =
        filter (fun p => has_key key s (fst p)) (snd (krun key step d es2)))
  /\ Permutation (snd (krun key step d es1)) (snd (krun key step d es2)).
Proof.
  intros Hperm Hkeys.
  assert (Hsame : forall s,
    filter (fun p => has_key key s (fst p)) (snd (krun key step d es1)) =
    filter (fun p => has_key key s (fst p)) (snd (krun key step d es2))).
  { intros s. destruct (krun_proj s es1 d) as [_ ->].
    destruct (krun_proj s es2 d) as [_ ->]. now rewrite Hkeys. }
  split; [|split]; auto.
  - intros s. destruct (krun_proj s es1 d) as [-> _].
    destruct (krun_proj s es2 d) as [-> _]. now rewrite Hkeys.
  - apply (Permutation_count_occ pair_eq_dec). intros [e dec].
    destruct (key e) as [s|] eqn:Hk.
    + assert (Hp : (fun p : E * option D => has_key key s (fst p)) (e, dec) = true).
      { simpl. unfold has_key. rewrite Hk. apply String.eqb_refl. }
      rewrite <- (count_occ_filter pair_eq_dec _ (snd (krun key step d es1)) _ Hp).
      rewrite <- (count_occ_filter pair_eq_dec _ (snd (krun key step d es2)) _ Hp).
      now rewrite Hsame.
    + assert (He : keyless key e = true) by (unfold keyless; now rewrite Hk).
      rewrite !krun_keyless_count by assumption.
      destruct dec; auto.
      now apply (Permutation_count_occ E_eq_dec).
Qed.

End KeyedFacts.
End KeyedFacts.

(** ** The deduplicator as a keyed store *)

Module DedupFacts.
Import Dedup Keyed.

Lemma process_alert_kstep self alert :
  groups (fst (process_alert self alert)) =
    fst (kstep key upsert_group (groups self) alert)
  /\ Some (snd (process_alert self alert)) =
    snd (kstep key upsert_group (groups self) alert)
  /\ suppressed_count (fst (process_alert self alert)) =
    suppressed_count self + (if snd (process_alert self alert) then 0 else 1).
Proof.
  unfold process_alert, kstep, key, upsert_group.
  destruct (Dict.get (_get_signature alert) (groups self)) as [g|]; simpl.
  - destruct (timestamp alert - AlertGroup.last_seen g <? SUPPRESSION_WINDOW);
      simpl; repeat split; lia.
  - repeat split; lia.
Qed.

Lemma dedup_run_krun alerts : forall self,
  groups (fst (run self alerts)) = fst (krun key upsert_group (groups self) alerts)
  /\ map some_decision (snd (run self alerts)) =
     snd (krun key upsert_group (groups self) alerts)
  /\ suppressed_count (fst (run self alerts)) =
     suppressed_count self
     + Z.of_nat (length (filter suppressed (snd (run self alerts)))).
Proof.
  induction alerts as [|a rest IH]; intros self; simpl.
  - repeat split; lia.
  - destruct (process_alert_kstep self a) as (H1 & H2 & H3).
    destruct (process_alert self a) as [self1 sent]. simpl in *.
    destruct (kstep key upsert_group (groups self) a) as [d1 dec]. simpl in *.
    subst d1 dec.
    destruct (IH self1) as (I1 & I2 & I3).
    destruct (run self1 rest) as [self2 trace]. simpl in *.
    destruct (krun key upsert_group (groups self1) rest) as [d2 tr]. simpl in *.
    subst. repeat split; auto.
    rewrite I3, H3. unfold suppressed at 2. simpl.
    destruct sent; simpl length; lia.
Qed.

Lemma dedup_has_key_with_signature s :
  forall a, has_key key s a = with_signature s a.
Proof. reflexivity. Qed.

Lemma Alert_eq_dec (x y : Alert) : {x = y} + {x <> y}.
Proof.
  repeat decide equality; try apply Ascii.ascii_dec.
Defined.

Lemma filter_perm {A : Type} (p : A -> bool) (l1 l2 : list A) :
  Permutation l1 l2 -> Permutation (filter p l1) (filter p l2).
Proof.
  induction 1; simpl.
  - constructor.
  - destruct (p x); auto.
  - destruct (p x), (p y); auto. constructor.
  - eapply Permutation_trans; eauto.
Qed.

(** The group of signature [k] and the alerts of that signature with their
    returned values are those of a run over the alerts of [k] alone. *)
Lemma dedup_run_proj k alerts self :
  Dict.get k (groups (fst (run self alerts))) =
    fst (grun upsert_group (Dict.get k (groups self)) (filter (with_signature k) alerts))
  /\ map some_decision
       (filter (fun p => with_signature k (fst p)) (snd (run self alerts))) =
     snd (grun upsert_group (Dict.get k (groups self)) (filter (with_signature k) alerts)).
Proof.
  destruct (dedup_run_krun alerts self) as (H1 & H2 & _).
  destruct (KeyedFacts.krun_proj _ _ _ key upsert_group k alerts (groups self))
    as [P1 P2].
  change (has_key key k) with (with_signature k) in P1, P2.
  rewrite H1. split; [exact P1|].
  rewrite <- P2, <- H2. clear.
  induction (snd (run self alerts)) as [|p l IH]; simpl; auto.
  change (has_key key k (fst p)) with (with_signature k (fst p)).
  destruct (with_signature k (fst p)); simpl; now rewrite IH.
Qed.

Lemma last_cons {A : Type} (l : list A) : forall x d, last (x :: l) d = last l x.
Proof.
  induction l as [|y l IH]; intros x d; [reflexivity|].
  change (last (x :: y :: l) d) with (last (y :: l) d).
  now rewrite (IH y d), (IH y x).
Qed.

(** A run over the alerts of one signature, from a group [g]. *)
Lemma grun_group l : forall g,
  exists g', fst (grun upsert_group (Some g) l) = Some g'
    /\ AlertGroup.signature g' = AlertGroup.signature g
    /\ AlertGroup.name g' = AlertGroup.name g
    /\ AlertGroup.severity g' = AlertGroup.severity g
    /\ AlertGroup.first_seen g' = AlertGroup.first_seen g
    /\ AlertGroup.count g' = AlertGroup.count g + Z.of_nat (length l)
    /\ AlertGroup.alerts g' = AlertGroup.alerts g ++ l
    /\ AlertGroup.last_seen g' =
       last (map timestamp l) (AlertGroup.last_seen g).
Proof.
  induction l as [|a rest IH]; intros g.
  - exists g. simpl. rewrite app_nil_r. repeat split; auto; lia.
  - cbn [grun].
    destruct (upsert_group (Some g) a) as [g1 dec] eqn:Hu.
    destruct (IH g1) as (g' & Hg & A1 & A2 & A3 & A4 & A5 & A6 & A7).
    destruct (grun upsert_group (Some g1) rest) as [og tr]. simpl in Hg.
    exists g'. simpl fst.
    assert (Hg1 : AlertGroup.signature g1 = AlertGroup.signature g
                  /\ AlertGroup.name g1 = AlertGroup.name g
                  /\ AlertGroup.severity g1 = AlertGroup.severity g
                  /\ AlertGroup.first_seen g1 = AlertGroup.first_seen g
                  /\ AlertGroup.count g1 = AlertGroup.count g + 1
                  /\ AlertGroup.alerts g1 = AlertGroup.alerts g ++ [a]
                  /\ AlertGroup.last_seen g1 = timestamp a).
    { unfold upsert_group in Hu.
      destruct (timestamp a - AlertGroup.last_seen g <? SUPPRESSION_WINDOW);
        injection Hu as <- <-; simpl; repeat split; auto. }
    destruct Hg1 as (B1 & B2 & B3 & B4 & B5 & B6 & B7).
    repeat split; try congruence.
    + rewrite A5, B5. simpl length. lia.
    + rewrite A6, B6, <- app_assoc. reflexivity.
    + rewrite A7, B7. simpl map. symmetry. apply last_cons.
Qed.

(** The group stored under [k] after a run from the empty store, in terms
    of the alerts of signature [k] in processing order. *)
Lemma group_shape alerts k g :
  Dict.get k (groups (fst (run init alerts))) = Some g ->
  exists a0 rest,
    filter (with_signature k) alerts = a0 :: rest
    /\ AlertGroup.signature g = k
    /\ AlertGroup.name g = name a0
    /\ AlertGroup.severity g = severity a0
    /\ AlertGroup.first_seen g = timestamp a0
    /\ AlertGroup.last_seen g = last (map timestamp rest) (timestamp a0)
    /\ AlertGroup.count g = Z.of_nat (length (a0 :: rest))
    /\ AlertGroup.alerts g = a0 :: rest.
Proof.
  destruct (dedup_run_proj k alerts init) as [-> _]. simpl Dict.get.
  destruct (filter (with_signature k) alerts) as [|a0 rest] eqn:Hf.
  - discriminate.
  - cbn [grun]. cbn [upsert_group].
    match goal with |- context [grun upsert_group (Some ?g0) rest] =>
      destruct (grun_group rest g0) as (g' & Hg & A1 & A2 & A3 & A4 & A5 & A6 & A7);
      destruct (grun upsert_group (Some g0) rest) as [og tr] end.
    cbn [fst AlertGroup.signature AlertGroup.name AlertGroup.severity
         AlertGroup.first_seen AlertGroup.last_seen AlertGroup.count
         AlertGroup.alerts app] in *.
    intros H. rewrite Hg in H. injection H as <-.
    exists a0, rest. repeat split; auto.
    + rewrite A1. assert (Hin : In a0 (filter (with_signature k) alerts))
        by (rewrite Hf; now left).
      apply filter_In in Hin. destruct Hin as [_ Hk].
      now apply String.eqb_eq in Hk.
    + rewrite A5. simpl length. lia.
Qed.

End DedupFacts.

(** ** The classifier as a keyed store *)

Module ClassifierFacts.
Import Classifier Keyed.

Lemma classify_kstep self entry :
  clusters (fst (classify self entry)) =
    fst (kstep key upsert_cluster (clusters self) entry)
  /\ snd (classify self entry) =
    snd (kstep key upsert_cluster (clusters self) entry)
  /\ noise_count (fst (classify self entry)) =
    noise_count self
    + (match snd (classify self entry) with Some _ => 0 | None => 1 end).
Proof.
  unfold classify, kstep, key, upsert_cluster, signature_of.
  destruct (_is_noise entry); simpl; [repeat split; lia|].
  destruct (Dict.get (md5_hex12 (_normalize_message (message entry)))
                     (clusters self)); simpl; repeat split; lia.
Qed.

Lemma classifier_run_krun entries : forall self,
  clusters (fst (run self entries)) =
    fst (krun key upsert_cluster (clusters self) entries)
  /\ snd (run self entries) =
    snd (krun key upsert_cluster (clusters self) entries)
  /\ noise_count (fst (run self entries)) =
     noise_count self
     + Z.of_nat (length (filter is_noise_decision (snd (run self entries)))).
Proof.
  induction entries as [|e rest IH]; intros self; simpl.
  - repeat split; lia.
  - destruct (classify_kstep self e) as (H1 & H2 & H3).
    destruct (classify self e) as [self1 sig]. simpl in *.
    destruct (kstep key upsert_cluster (clusters self) e) as [d1 dec].
    simpl in *. subst d1 dec.
    destruct (IH self1) as (I1 & I2 & I3).
    destruct (run self1 rest) as [self2 trace]. simpl in *.
    destruct (krun key upsert_cluster (clusters self1) rest) as [d2 tr].
    simpl in *. subst. repeat split; auto.
    rewrite I3, H3. unfold is_noise_decision at 2. simpl.
    destruct sig; simpl length; lia.
Qed.

Lemma classifier_has_key_with_signature s e : has_key key s e = with_signature s e.
Proof.
  unfold has_key, key, with_signature. now destruct (_is_noise e).
Qed.

Lemma keyless_is_noise e : keyless key e = _is_noise e.
Proof. unfold keyless, key. now destruct (_is_noise e). Qed.

Lemma classifier_run_proj k entries self :
  Dict.get k (clusters (fst (run self entries))) =
    fst (grun upsert_cluster (Dict.get k (clusters self))
           (filter (with_signature k) entries))
  /\ filter (fun p => with_signature k (fst p)) (snd (run self entries)) =
     snd (grun upsert_cluster (Dict.get k (clusters self))
            (filter (with_signature k) entries)).
Proof.
  destruct (classifier_run_krun entries self) as (H1 & H2 & _).
  destruct (KeyedFacts.krun_proj _ _ _ key upsert_cluster k entries (clusters self))
    as [P1 P2].
  rewrite (filter_ext _ _ (classifier_has_key_with_signature k)) in P1, P2.
  rewrite H1, H2. split; [exact P1|].
  rewrite <- P2. apply filter_ext. intros p. symmetry.
  apply classifier_has_key_with_signature.
Qed.

Lemma firstn_app_exact {A : Type} (l r : list A) :
  firstn (length l) (l ++ r) = l.
Proof.
  rewrite firstn_app, firstn_all, Nat.sub_diag. simpl. apply app_nil_r.
Qed.

(** A run over the entries of one signature, from a cluster [c]. *)
Lemma grun_cluster l : forall c,
  (length (samples c) <= 3)%nat ->
  exists c', fst (grun upsert_cluster (Some c) l) = Some c'
    /\ signature c' = signature c
    /\ pattern c' = pattern c
    /\ is_noise c' = is_noise c
    /\ first_seen c' = first_seen c
    /\ count c' = count c + Z.of_nat (length l)
    /\ samples c' = firstn 3 (samples c ++ l)
    /\ last_seen c' = last (map timestamp l) (last_seen c).
Proof.
  induction l as [|e rest IH]; intros c Hlen.
  - exists c. cbn [grun fst length map last].
    rewrite app_nil_r, firstn_all2 by assumption.
    repeat split; auto; lia.
  - cbn [grun].
    destruct (upsert_cluster (Some c) e) as [c1 dec] eqn:Hu.
    assert (Hc1 : signature c1 = signature c
                  /\ pattern c1 = pattern c
                  /\ is_noise c1 = is_noise c
                  /\ first_seen c1 = first_seen c
                  /\ count c1 = count c + 1
                  /\ last_seen c1 = timestamp e
                  /\ (length (samples c1) <= 3)%nat
                  /\ firstn 3 (samples c1 ++ rest) = firstn 3 (samples c ++ e :: rest)).
    { unfold upsert_cluster in Hu. injection Hu as <- <-.
      cbn [signature pattern is_noise first_seen count last_seen samples].
      repeat split; auto.
      - destruct (Nat.ltb_spec (length (samples c)) 3); auto.
        rewrite length_app. simpl. lia.
      - destruct (Nat.ltb_spec (length (samples c)) 3).
        + now rewrite <- app_assoc.
        + assert (Hl : length (samples c) = 3%nat) by lia.
          rewrite <- Hl. now rewrite !firstn_app_exact. }
    destruct Hc1 as (B1 & B2 & B3 & B4 & B5 & B6 & B7 & B8).
    destruct (IH c1 B7) as (c' & Hg & A1 & A2 & A3 & A4 & A5 & A6 & A7).
    destruct (grun upsert_cluster (Some c1) rest) as [oc tr]. simpl in Hg.
    exists c'. simpl fst. repeat split; try congruence.
    + rewrite A5, B5. simpl length. lia.
    + rewrite A7, B6. simpl map. symmetry. apply DedupFacts.last_cons.
Qed.

(** The cluster stored under [k] after a run from the empty store, in terms
    of the entries of signature [k] in processing order. *)
Lemma cluster_shape entries k c :
  Dict.get k (clusters (fst (run init entries))) = Some c ->
  exists e0 rest,
    filter (with_signature k) entries = e0 :: rest
    /\ signature c = k
    /\ pattern c = _normalize_message (message e0)
    /\ is_noise c = false
    /\ first_seen c = timestamp e0
    /\ last_seen c = last (map timestamp rest) (timestamp e0)
    /\ count c = Z.of_nat (length (e0 :: rest))
    /\ samples c = firstn 3 (e0 :: rest).
Proof.
  destruct (classifier_run_proj k entries init) as [-> _]. simpl Dict.get.
  destruct (filter (with_signature k) entries) as [|e0 rest] eqn:Hf.
  - discriminate.
  - cbn [grun]. cbn [upsert_cluster].
    match goal with |- context [grun upsert_cluster (Some ?c0) rest] =>
      destruct (grun_cluster rest c0) as (c' & Hg & A1 & A2 & A3 & A4 & A5 & A6 & A7);
      [simpl; lia|];
      destruct (grun upsert_cluster (Some c0) rest) as [oc tr] end.
    cbn [fst signature pattern is_noise first_seen last_seen count samples app]
      in *.
    intros H. rewrite Hg in H. injection H as <-.
    exists e0, rest. repeat split; auto.
    + rewrite A1. assert (Hin : In e0 (filter (with_signature k) entries))
        by (rewrite Hf; now left).
      apply filter_In in Hin. destruct Hin as [_ Hk].
      unfold with_signature in Hk. apply andb_prop in Hk. destruct Hk as [_ Hk].
      now apply String.eqb_eq in Hk.
    + rewrite A5. simpl length. lia.
Qed.

End ClassifierFacts.

(* ===================================================================== *)
(** * The claims about the deduplicator *)
(* ===================================================================== *)

Module DedupClaims.
Import Dedup Samples.

Lemma process_alert_get self alert :
  Dict.get (_get_signature alert) (groups (fst (process_alert self alert))) =
    Some (fst (upsert_group (Dict.get (_get_signature alert) (groups self)) alert))
  /\ snd (process_alert self alert) =
    snd (upsert_group (Dict.get (_get_signature alert) (groups self)) alert).
Proof.
  destruct (DedupFacts.process_alert_kstep self alert) as (H1 & H2 & _).
  assert (Hk : Keyed.has_key key (_get_signature alert) alert = true)
    by apply String.eqb_refl.
  split.
  - rewrite H1, KeyedFacts.kstep_get. now rewrite Hk.
  - rewrite (KeyedFacts.kstep_dec _ _ _ key upsert_group _ (groups self) _ Hk) in H2.
    now injection H2.
Qed.

Lemma upsert_group_last_seen og alert :
  AlertGroup.last_seen (fst (upsert_group og alert)) = timestamp alert.
Proof.
  unfold upsert_group. destruct og as [g|]; auto.
  now destruct (timestamp alert - AlertGroup.last_seen g <? SUPPRESSION_WINDOW).
Qed.

(** C1. Two alerts of the same signature processed one after the other, with
    a five-minute window W: after the first the group's last_seen is its
    timestamp; the second is suppressed ([process_alert] returns False)
    when its timestamp minus that last_seen is below W and sent (True) when
    the difference is W or more, so also when it exceeds W; either way the
    group's count grows by one and its last_seen becomes the second
    timestamp. *)
Theorem suppression_window_boundary (self : AlertDeduplicator) (a1 a2 : Alert) :
  _get_signature a1 = _get_signature a2 ->
  let self1 := fst (process_alert self a1) in
  let self2 := fst (process_alert self1 a2) in
  let sent := snd (process_alert self1 a2) in
  SUPPRESSION_WINDOW = 5 * 60 * 1000000
  /\ exists g1 g2,
    Dict.get (_get_signature a2) (groups self1) = Some g1
    /\ Dict.get (_get_signature a2) (groups self2) = Some g2
    /\ AlertGroup.last_seen g1 = timestamp a1
    /\ (timestamp a2 - AlertGroup.last_seen g1 < SUPPRESSION_WINDOW -> sent = false)
    /\ (SUPPRESSION_WINDOW <= timestamp a2 - AlertGroup.last_seen g1 -> sent = true)
    /\ AlertGroup.count g2 = AlertGroup.count g1 + 1
    /\ AlertGroup.last_seen g2 = timestamp a2.
Proof.
  intros Hsig self1 self2 sent. split; [reflexivity|].
  destruct (process_alert_get self a1) as [G1 _].
  destruct (process_alert_get self1 a2) as [G2 S2].
  fold self1 in G1. fold self2 in G2. fold sent in S2.
  rewrite Hsig in G1. rewrite G1 in G2, S2.
  set (g1 := fst (upsert_group (Dict.get (_get_signature a2) (groups self)) a1)) in *.
  exists g1, (fst (upsert_group (Some g1) a2)).
  assert (L1 : AlertGroup.last_seen g1 = timestamp a1)
    by apply upsert_group_last_seen.
  repeat split; auto.
  - intros Hlt. rewrite S2. unfold upsert_group.
    destruct (Z.ltb_spec (timestamp a2 - AlertGroup.last_seen g1) SUPPRESSION_WINDOW);
      [reflexivity | lia].
  - intros Hge. rewrite S2. unfold upsert_group.
    destruct (Z.ltb_spec (timestamp a2 - AlertGroup.last_seen g1) SUPPRESSION_WINDOW);
      [lia | reflexivity].
  - unfold upsert_group.
    now destruct (timestamp a2 - AlertGroup.last_seen g1 <? SUPPRESSION_WINDOW).
  - apply upsert_group_last_seen.
Qed.

Lemma suppression_window_boundary_witness :
  let a1 := high_error_rate "api" 0 in
  let a2 := high_error_rate "auth" 299 in
  snd (process_alert (fst (process_alert init a1)) a2) = false.
Proof.
  intros a1 a2.
  assert (Hsig : _get_signature a1 = _get_signature a2)
    by (vm_compute; reflexivity).
  destruct (suppression_window_boundary init a1 a2 Hsig)
    as (_ & g1 & g2 & _ & _ & L1 & Hlt & _).
  apply Hlt. rewrite L1. vm_compute. reflexivity.
Defined.

Lemma last_ge {E : Type} (ts : E -> Z) (x : Z) (rest : list E) : forall d,
  x <= d -> Forall (fun e => x <= ts e) rest -> x <= last (map ts rest) d.
Proof.
  induction rest as [|e rest IH]; intros d Hd Hall; simpl; auto.
  inversion Hall; subst.
  destruct rest as [|e' rest']; auto.
  change (x <= last (map ts (e' :: rest')) d). now apply IH.
Qed.

(** C6. On a window rollover [process_alert] returns True, adds one to the
    count, moves last_seen and appends the alert, but the service of the
    alert is not added to the group's services, which the suppress branch
    does for the same alert inside the window. *)
Theorem rollover_leaves_services :
  let first := high_error_rate "api" 0 in
  let self1 := fst (process_alert init first) in
  let rolled := process_alert self1 (high_error_rate "auth" 400) in
  let inside := process_alert self1 (high_error_rate "auth" 60) in
  snd rolled = true
  /\ map AlertGroup.count (Dict.values (groups (fst rolled))) = [2]
  /\ map AlertGroup.last_seen (Dict.values (groups (fst rolled))) = [seconds 400]
  /\ map AlertGroup.services (Dict.values (groups (fst rolled))) = [["api"]]
  /\ snd inside = false
  /\ map AlertGroup.services (Dict.values (groups (fst inside))) = [["api"; "auth"]].
Proof. vm_compute. repeat split. Qed.

End DedupClaims.

(* ===================================================================== *)
(** * The claims about both engines *)
(* ===================================================================== *)

Module GroupingClaims.
Import Samples.

Lemma LogEntry_eq_dec (x y : Classifier.LogEntry) : {x = y} + {x <> y}.
Proof.
  repeat decide equality; try apply Ascii.ascii_dec.
Defined.

Lemma drop_some_decision l : map Dedup.drop_some (map Dedup.some_decision l) = l.
Proof.
  rewrite map_map. rewrite <- (map_id l) at 2. apply map_ext.
  now intros [a b].
Qed.

(** C3, counterexample.  Two alerts of one signature, the second with the
    earlier timestamp: the group ends with last_seen before first_seen. *)
Lemma last_seen_before_first_seen :
  exists k g,
    Dict.get k (Dedup.groups (fst (Dedup.run Dedup.init
      [high_error_rate "api" 100; high_error_rate "api" 50]))) = Some g
    /\ Dedup.AlertGroup.last_seen g < Dedup.AlertGroup.first_seen g.
Proof.
  exists "ef2e0d8b2bdf". eexists. split.
  - vm_compute. reflexivity.
  - vm_compute. reflexivity.
Qed.

(** C3, amended.  After any sequence of events processed from an empty
    store, a group's first_seen is the timestamp of the first processed
    event of its signature and its last_seen that of the most recently
    processed one; so last_seen >= first_seen holds whenever no event of
    the signature has a timestamp before that of the first processed one.
    The same for the clusters of the log classifier. *)
Theorem last_seen_ge_first_seen
    (alerts : list Dedup.Alert) (entries : list Classifier.LogEntry) :
  (forall k g,
     Dict.get k (Dedup.groups (fst (Dedup.run Dedup.init alerts))) = Some g ->
     exists a0 rest,
       filter (Dedup.with_signature k) alerts = a0 :: rest
       /\ Dedup.AlertGroup.first_seen g = Dedup.timestamp a0
       /\ Dedup.AlertGroup.last_seen g = Dedup.timestamp (last rest a0)
       /\ (first_is_oldest Dedup.timestamp (a0 :: rest) ->
           Dedup.AlertGroup.first_seen g <= Dedup.AlertGroup.last_seen g))
  /\ (forall k c,
     Dict.get k (Classifier.clusters (fst (Classifier.run Classifier.init entries)))
       = Some c ->
     exists e0 rest,
       filter (Classifier.with_signature k) entries = e0 :: rest
       /\ Classifier.first_seen c = Classifier.timestamp e0
       /\ Classifier.last_seen c = Classifier.timestamp (last rest e0)
       /\ (first_is_oldest Classifier.timestamp (e0 :: rest) ->
           Classifier.first_seen c <= Classifier.last_seen c)).
Proof.
  assert (Hlast : forall (E : Type) (ts : E -> Z) (rest : list E) (x : E),
             last (map ts rest) (ts x) = ts (last rest x)).
  { intros E ts rest. induction rest as [|y rest IH]; intros x; [reflexivity|].
    change (map ts (y :: rest)) with (ts y :: map ts rest).
    now rewrite !DedupFacts.last_cons, IH. }
  split.
  - intros k g Hg.
    destruct (DedupFacts.group_shape alerts k g Hg)
      as (a0 & rest & Hf & _ & _ & _ & F & L & _).
    exists a0, rest. repeat split; auto.
    + now rewrite L, Hlast.
    + intros Ha. cbn [first_is_oldest] in Ha.
      rewrite F, L. apply DedupClaims.last_ge; [lia | exact Ha].
  - intros k c Hc.
    destruct (ClassifierFacts.cluster_shape entries k c Hc)
      as (e0 & rest & Hf & _ & _ & _ & F & L & _).
    exists e0, rest. repeat split; auto.
    + now rewrite L, Hlast.
    + intros He. cbn [first_is_oldest] in He.
      rewrite F, L. apply DedupClaims.last_ge; [lia | exact He].
Qed.

Lemma last_seen_ge_first_seen_witness :
  let alerts := [high_error_rate "api" 0; high_cpu "api" 10;
                 high_error_rate "auth" 400] in
  exists g,
    Dict.get "ef2e0d8b2bdf" (Dedup.groups (fst (Dedup.run Dedup.init alerts)))
      = Some g
    /\ Dedup.AlertGroup.first_seen g
       = Dedup.timestamp (high_error_rate "api" 0)
    /\ Dedup.AlertGroup.last_seen g
       = Dedup.timestamp (high_error_rate "auth" 400)
    /\ Dedup.AlertGroup.first_seen g <= Dedup.AlertGroup.last_seen g.
Proof.
  intros alerts.
  assert (Hg : { g | Dict.get "ef2e0d8b2bdf"
                 (Dedup.groups (fst (Dedup.run Dedup.init alerts))) = Some g }).
  { eexists. vm_compute. reflexivity. }
  destruct Hg as [g Hg]. exists g. split; [exact Hg|].
  assert (Hfil : filter (Dedup.with_signature "ef2e0d8b2bdf") alerts
                 = [high_error_rate "api" 0; high_error_rate "auth" 400])
    by (vm_compute; reflexivity).
  destruct (proj1 (last_seen_ge_first_seen alerts
                     [log_line "disk full" 5; log_line "disk full" 7])
              "ef2e0d8b2bdf" g Hg)
    as (a0 & rest & Hf & F & L & Hle).
  rewrite Hfil in Hf. injection Hf as <- <-.
  repeat split; [exact F | exact L | apply Hle].
  cbn [first_is_oldest]. apply Forall_cons; [|apply Forall_nil].
  vm_compute. discriminate.
Defined.

Lemma map_some_decision_inj l1 l2 :
  map Dedup.some_decision l1 = map Dedup.some_decision l2 -> l1 = l2.
Proof.
  intros H. rewrite <- (drop_some_decision l1), <- (drop_some_decision l2).
  now rewrite H.
Qed.

Lemma dedup_order (self : Dedup.AlertDeduplicator) (alerts1 alerts2 : list Dedup.Alert) :
  Permutation alerts1 alerts2 ->
  (forall s, filter (Dedup.with_signature s) alerts1 =
             filter (Dedup.with_signature s) alerts2) ->
  Dict.eq (Dedup.groups (fst (Dedup.run self alerts1)))
          (Dedup.groups (fst (Dedup.run self alerts2)))
  /\ Dedup.suppressed_count (fst (Dedup.run self alerts1)) =
     Dedup.suppressed_count (fst (Dedup.run self alerts2))
  /\ Permutation (snd (Dedup.run self alerts1)) (snd (Dedup.run self alerts2))
  /\ (forall s,
        filter (fun p => Dedup.with_signature s (fst p)) (snd (Dedup.run self alerts1)) =
        filter (fun p => Dedup.with_signature s (fst p)) (snd (Dedup.run self alerts2))).
Proof.
  intros Hperm Hsig.
  destruct (KeyedFacts.order_irrelevant _ _ _ Dedup.key Dedup.upsert_group
              DedupFacts.Alert_eq_dec Bool.bool_dec (Dedup.groups self)
              alerts1 alerts2 Hperm Hsig) as (Hd & _ & Hp).
  destruct (DedupFacts.dedup_run_krun alerts1 self) as (G1 & T1 & C1).
  destruct (DedupFacts.dedup_run_krun alerts2 self) as (G2 & T2 & C2).
  assert (HP : Permutation (snd (Dedup.run self alerts1)) (snd (Dedup.run self alerts2))).
  { rewrite <- T1, <- T2 in Hp. apply (Permutation_map Dedup.drop_some) in Hp.
    now rewrite !drop_some_decision in Hp. }
  repeat split.
  - rewrite G1, G2. exact Hd.
  - rewrite C1, C2. f_equal. f_equal. apply Permutation_length.
    now apply DedupFacts.filter_perm.
  - exact HP.
  - intros s. apply map_some_decision_inj.
    destruct (DedupFacts.dedup_run_proj s alerts1 self) as [_ ->].
    destruct (DedupFacts.dedup_run_proj s alerts2 self) as [_ ->].
    now rewrite Hsig.
Qed.

Lemma classifier_order (self : Classifier.LogClassifier)
    (entries1 entries2 : list Classifier.LogEntry) :
  Permutation entries1 entries2 ->
  (forall s, filter (Classifier.with_signature s) entries1 =
             filter (Classifier.with_signature s) entries2) ->
  Dict.eq (Classifier.clusters (fst (Classifier.run self entries1)))
          (Classifier.clusters (fst (Classifier.run self entries2)))
  /\ Classifier.noise_count (fst (Classifier.run self entries1)) =
     Classifier.noise_count (fst (Classifier.run self entries2))
  /\ Permutation (snd (Classifier.run self entries1))
                 (snd (Classifier.run self entries2))
  /\ (forall s,
        filter (fun p => Classifier.with_signature s (fst p))
               (snd (Classifier.run self entries1)) =
        filter (fun p => Classifier.with_signature s (fst p))
               (snd (Classifier.run self entries2))).
Proof.
  intros Hperm Hsig.
  assert (Hkey : forall s,
    filter (Keyed.has_key Classifier.key s) entries1 =
    filter (Keyed.has_key Classifier.key s) entries2).
  { intros s.
    rewrite !(filter_ext _ _ (ClassifierFacts.classifier_has_key_with_signature s)).
    apply Hsig. }
  destruct (KeyedFacts.order_irrelevant _ _ _ Classifier.key
              Classifier.upsert_cluster LogEntry_eq_dec string_dec
              (Classifier.clusters self) entries1 entries2 Hperm Hkey)
    as (Hd & _ & Hp).
  destruct (ClassifierFacts.classifier_run_krun entries1 self) as (G1 & T1 & C1).
  destruct (ClassifierFacts.classifier_run_krun entries2 self) as (G2 & T2 & C2).
  rewrite <- T1, <- T2 in Hp.
  repeat split.
  - rewrite G1, G2. exact Hd.
  - rewrite C1, C2. f_equal. f_equal. apply Permutation_length.
    now apply DedupFacts.filter_perm.
  - exact Hp.
  - intros s.
    destruct (ClassifierFacts.classifier_run_proj s entries1 self) as [_ ->].
    destruct (ClassifierFacts.classifier_run_proj s entries2 self) as [_ ->].
    now rewrite Hsig.
Qed.

(** C5.  Two sequences of events that are permutations of each other and
    list the events of every signature in the same order leave, from the
    same initial object, equal stores (the dicts are equal as Python
    compares them, key by key, and the counters are equal), and every event
    gets the same decision in both runs: the events of each signature, in
    their common order, carry the same returned values, and the two lists
    of (event, returned value) pairs are permutations of each other.  For
    the deduplicator the returned value is True (emit) or False (suppress);
    for the classifier it is the signature, or None for noise. *)
Theorem order_across_signatures
    (dedup : Dedup.AlertDeduplicator) (alerts1 alerts2 : list Dedup.Alert)
    (classifier : Classifier.LogClassifier)
    (entries1 entries2 : list Classifier.LogEntry) :
  Permutation alerts1 alerts2 ->
  (forall s, filter (Dedup.with_signature s) alerts1 =
             filter (Dedup.with_signature s) alerts2) ->
  Permutation entries1 entries2 ->
  (forall s, filter (Classifier.with_signature s) entries1 =
             filter (Classifier.with_signature s) entries2) ->
  (Dict.eq (Dedup.groups (fst (Dedup.run dedup alerts1)))
           (Dedup.groups (fst (Dedup.run dedup alerts2)))
   /\ Dedup.suppressed_count (fst (Dedup.run dedup alerts1)) =
      Dedup.suppressed_count (fst (Dedup.run dedup alerts2))
   /\ Permutation (snd (Dedup.run dedup alerts1)) (snd (Dedup.run dedup alerts2))
   /\ (forall s,
         filter (fun p => Dedup.with_signature s (fst p))
                (snd (Dedup.run dedup alerts1)) =
         filter (fun p => Dedup.with_signature s (fst p))
                (snd (Dedup.run dedup alerts2))))
  /\ (Dict.eq (Classifier.clusters (fst (Classifier.run classifier entries1)))
              (Classifier.clusters (fst (Classifier.run classifier entries2)))
      /\ Classifier.noise_count (fst (Classifier.run classifier entries1)) =
         Classifier.noise_count (fst (Classifier.run classifier entries2))
      /\ Permutation (snd (Classifier.run classifier entries1))
                     (snd (Classifier.run classifier entries2))
      /\ (forall s,
            filter (fun p => Classifier.with_signature s (fst p))
                   (snd (Classifier.run classifier entries1)) =
            filter (fun p => Classifier.with_signature s (fst p))
                   (snd (Classifier.run classifier entries2)))).
Proof.
  intros Ha1 Ha2 He1 He2. split.
  - now apply dedup_order.
  - now apply classifier_order.
Qed.

Lemma order_across_signatures_witness :
  let cpu := high_cpu "api" 10 in
  let err1 := high_error_rate "api" 0 in
  let err2 := high_error_rate "auth" 60 in
  let noise := log_line "health check passed" 1 in
  let disk := log_line "disk full" 2 in
  Dedup.suppressed_count (fst (Dedup.run Dedup.init [err1; cpu; err2])) =
  Dedup.suppressed_count (fst (Dedup.run Dedup.init [cpu; err1; err2]))
  /\ Classifier.noise_count (fst (Classifier.run Classifier.init [noise; disk])) =
     Classifier.noise_count (fst (Classifier.run Classifier.init [disk; noise])).
Proof.
  intros cpu err1 err2 noise disk.
  assert (Hcpu : forall s, Dedup.with_signature s cpu = String.eqb "0d95764791dd" s).
  { intros s. unfold Dedup.with_signature.
    now replace (Dedup._get_signature cpu) with "0d95764791dd"
      by (vm_compute; reflexivity). }
  assert (Herr1 : forall s, Dedup.with_signature s err1 = String.eqb "ef2e0d8b2bdf" s).
  { intros s. unfold Dedup.with_signature.
    now replace (Dedup._get_signature err1) with "ef2e0d8b2bdf"
      by (vm_compute; reflexivity). }
  assert (Hnoise : forall s, Classifier.with_signature s noise = false).
  { intros s. unfold Classifier.with_signature.
    replace (Classifier._is_noise noise) with true by (vm_compute; reflexivity).
    reflexivity. }
  assert (H1 : Permutation [err1; cpu; err2] [cpu; err1; err2]) by constructor.
  assert (H2 : forall s, filter (Dedup.with_signature s) [err1; cpu; err2] =
                         filter (Dedup.with_signature s) [cpu; err1; err2]).
  { intros s. cbn [filter]. rewrite Hcpu, Herr1.
    destruct (String.eqb "0d95764791dd" s) eqn:E1;
      destruct (String.eqb "ef2e0d8b2bdf" s) eqn:E2; auto.
    apply String.eqb_eq in E1, E2. subst s. discriminate. }
  assert (H3 : Permutation [noise; disk] [disk; noise]) by constructor.
  assert (H4 : forall s, filter (Classifier.with_signature s) [noise; disk] =
                         filter (Classifier.with_signature s) [disk; noise]).
  { intros s. cbn [filter]. rewrite Hnoise.
    now destruct (Classifier.with_signature s disk). }
  destruct (order_across_signatures Dedup.init [err1; cpu; err2] [cpu; err1; err2]
              Classifier.init [noise; disk] [disk; noise] H1 H2 H3 H4)
    as [(_ & Hs & _) (_ & Hn & _)].
  split; assumption.
Defined.

(** C7, counterexample.  Four alerts of one signature: the group's alerts
    list holds all four. *)
Lemma alerts_list_exceeds_cap :
  exists k g,
    Dict.get k (Dedup.groups (fst (Dedup.run Dedup.init
      [high_error_rate "api" 0; high_error_rate "api" 10;
       high_error_rate "api" 20; high_error_rate "api" 30]))) = Some g
    /\ (3 < length (Dedup.AlertGroup.alerts g))%nat.
Proof.
  exists "ef2e0d8b2bdf". eexists. split.
  - vm_compute. reflexivity.
  - vm_compute. reflexivity.
Qed.

(** C7, amended.  After any sequence of entries processed from an empty
    store, the samples of a cluster of the log classifier are the first
    three processed entries of its signature (all of them when there are
    fewer), so at most 3, the oldest processed ones, and count >=
    len(samples).  The alerts list of a group of the deduplicator has no
    cap: it holds every processed alert of the signature, in processing
    order, and count = len(alerts). *)
Theorem samples_capped_alerts_kept
    (entries : list Classifier.LogEntry) (alerts : list Dedup.Alert)
    (k : string) (c : Classifier.ErrorCluster)
    (k' : string) (g : Dedup.AlertGroup.t) :
  Dict.get k (Classifier.clusters (fst (Classifier.run Classifier.init entries)))
    = Some c ->
  Dict.get k' (Dedup.groups (fst (Dedup.run Dedup.init alerts))) = Some g ->
  ((length (Classifier.samples c) <= 3)%nat
   /\ Classifier.samples c =
      firstn 3 (filter (Classifier.with_signature k) entries)
   /\ Z.of_nat (length (Classifier.samples c)) <= Classifier.count c)
  /\ (Dedup.AlertGroup.alerts g = filter (Dedup.with_signature k') alerts
      /\ Dedup.AlertGroup.count g = Z.of_nat (length (Dedup.AlertGroup.alerts g))).
Proof.
  intros Hc Hg.
  destruct (ClassifierFacts.cluster_shape entries k c Hc)
    as (e0 & rest & Hf & _ & _ & _ & _ & _ & Cn & Sm).
  destruct (DedupFacts.group_shape alerts k' g Hg)
    as (a0 & rest' & Hf' & _ & _ & _ & _ & _ & Cn' & Al).
  rewrite Hf, Hf', Sm, Cn, Al, Cn'. repeat split.
  - apply firstn_le_length.
  - apply Nat2Z.inj_le. rewrite length_firstn. apply Nat.le_min_r.
Qed.

Lemma samples_capped_alerts_kept_witness :
  exists c g,
    (length (Classifier.samples c) <= 3)%nat
    /\ Dedup.AlertGroup.count g = Z.of_nat (length (Dedup.AlertGroup.alerts g)).
Proof.
  pose (entries := [log_line "disk full" 1; log_line "disk full" 2;
                    log_line "disk full" 3; log_line "disk full" 4]).
  pose (alerts := [high_error_rate "api" 0; high_error_rate "api" 10]).
  assert (Hc : { c | Dict.get "0ce552d660ff"
                 (Classifier.clusters (fst (Classifier.run Classifier.init entries)))
                 = Some c }).
  { eexists. vm_compute. reflexivity. }
  assert (Hg : { g | Dict.get "ef2e0d8b2bdf"
                 (Dedup.groups (fst (Dedup.run Dedup.init alerts))) = Some g }).
  { eexists. vm_compute. reflexivity. }
  destruct Hc as [c Hc]. destruct Hg as [g Hg].
  exists c, g.
  destruct (samples_capped_alerts_kept entries alerts _ c _ g Hc Hg)
    as [(H1 & _) (_ & H2)].
  split; assumption.
Defined.

(** C10.  After any sequence of entries processed from an empty store,
    every stored cluster has is_noise == False, and
    [get_actionable_errors(min_count)] returns exactly the stored clusters
    with count >= min_count, in the order of the dict. *)
Theorem stored_clusters_not_noise
    (entries : list Classifier.LogEntry) (min_count : Z) :
  let self := fst (Classifier.run Classifier.init entries) in
  Forall (fun c => Classifier.is_noise c = false)
         (Dict.values (Classifier.clusters self))
  /\ Classifier.get_actionable_errors min_count self =
     filter (fun c => min_count <=? Classifier.count c)
            (Dict.values (Classifier.clusters self)).
Proof.
  intros self.
  assert (Hinv : forall es st,
    Forall (fun c => Classifier.is_noise c = false)
           (Dict.values (Classifier.clusters st)) ->
    Forall (fun c => Classifier.is_noise c = false)
           (Dict.values (Classifier.clusters (fst (Classifier.run st es))))).
  { induction es as [|e rest IH]; intros st Hst; simpl; auto.
    destruct (Classifier.classify st e) as [st1 sig] eqn:Hcl.
    specialize (IH st1).
    destruct (Classifier.run st1 rest) as [st2 trace]. simpl in *.
    apply IH. unfold Classifier.classify in Hcl.
    destruct (Classifier._is_noise e).
    - injection Hcl as <- _. exact Hst.
    - destruct (Dict.get _ (Classifier.clusters st)) as [c|] eqn:Hget;
        injection Hcl as <- _; simpl; apply DictFacts.Forall_set; auto.
      simpl. apply DictFacts.get_In in Hget.
      rewrite Forall_forall in Hst. now apply Hst. }
  assert (Hall := Hinv entries Classifier.init (Forall_nil _)).
  fold self in Hall. split; [exact Hall|].
  unfold Classifier.get_actionable_errors. apply filter_ext_in.
  intros c Hin. rewrite Forall_forall in Hall. now rewrite (Hall c Hin).
Qed.

Lemma lower_char_not_E c : Ascii.eqb "E" (Chars.lower_char c) = false.
Proof. destruct c as [[] [] [] [] [] [] [] []]; reflexivity. Qed.

Lemma eof_never_found msg : forall prev,
  Re.search_from (Re.lit "EOF") prev (Chars.lower msg) = false.
Proof.
  induction msg as [|c msg IH]; intros prev; [reflexivity|].
  cbn [Chars.lower map Re.search_from]. change (map Chars.lower_char msg)
    with (Chars.lower msg).
  cbn [Re.lit list_ascii_of_string map Re.rmatch Re.accepts].
  rewrite lower_char_not_E. apply IH.
Qed.

(** C4.  The pattern EOF is searched in the lower-cased message, where no
    capital E is left, so it matches no message at all: the entry
    "unexpected EOF" is not noise, [classify] stores a cluster for it and
    the noise tally stays 0, while "connection reset by peer" in capitals
    is filtered. *)
Theorem eof_is_not_filtered :
  let entry := log_line "unexpected EOF" 0 in
  let self := fst (Classifier.classify Classifier.init entry) in
  (forall msg, Re.search (Re.lit "EOF") (Chars.lower msg) = false)
  /\ Classifier._is_noise entry = false
  /\ map Classifier.pattern (Dict.values (Classifier.clusters self))
     = ["unexpected EOF"]
  /\ Classifier.noise_count self = 0
  /\ Classifier._is_noise (log_line "Connection Reset By Peer" 0) = true.
Proof.
  split; [intros msg; apply eof_never_found|].
  vm_compute. repeat split.
Qed.

(** C8, counterexample.  Two active groups, the one stored first with the
    smaller count: [get_active_groups] lists it first. *)
Lemma active_groups_in_dict_order :
  exists g h,
    Dedup.get_active_groups (seconds 30)
      (fst (Dedup.run Dedup.init
         [high_cpu "api" 0; high_error_rate "api" 10; high_error_rate "api" 20]))
    = [g; h]
    /\ Dedup.AlertGroup.count g < Dedup.AlertGroup.count h.
Proof.
  eexists. eexists. split.
  - vm_compute. reflexivity.
  - vm_compute. reflexivity.
Qed.

Lemma insert_by_count_perm g l : Permutation (Dedup.insert_by_count g l) (g :: l).
Proof.
  induction l as [|h l IH]; simpl; auto.
  destruct (Dedup.AlertGroup.count h <=? Dedup.AlertGroup.count g); auto.
  eapply Permutation_trans; [apply perm_skip, IH | apply perm_swap].
Qed.

Lemma insert_by_count_sorted g l :
  Sorted Dedup.count_ge l -> Sorted Dedup.count_ge (Dedup.insert_by_count g l).
Proof.
  induction 1 as [|h l Hs IH Hhd]; simpl.
  - repeat constructor.
  - destruct (Z.leb_spec (Dedup.AlertGroup.count h) (Dedup.AlertGroup.count g)).
    + constructor; [now constructor|]. constructor. assumption.
    + constructor; auto.
      destruct l as [|h' l']; simpl.
      * constructor. unfold Dedup.count_ge. lia.
      * inversion Hhd; subst.
        destruct (Dedup.AlertGroup.count h' <=? Dedup.AlertGroup.count g);
          constructor; auto. unfold Dedup.count_ge. lia.
Qed.

(** C8, amended.  [get_active_groups] returns exactly the stored groups
    whose last_seen is less than 30 minutes before now, in the insertion
    order of the dict; the order by count, largest first, is that of the
    list [print_report] makes of it with [sorted]. *)
Theorem active_groups_then_sorted (now : Z) (self : Dedup.AlertDeduplicator) :
  (forall g, In g (Dedup.get_active_groups now self) <->
             In g (Dict.values (Dedup.groups self))
             /\ now - Dedup.AlertGroup.last_seen g < 30 * 60 * 1000000)
  /\ Dedup.get_active_groups now self =
     filter (fun g => now - Dedup.AlertGroup.last_seen g <? 30 * 60 * 1000000)
            (map snd (Dedup.groups self))
  /\ Permutation (Dedup.report_groups now self) (Dedup.get_active_groups now self)
  /\ Sorted Dedup.count_ge (Dedup.report_groups now self).
Proof.
  split; [|split; [reflexivity|split]].
  - intros g. unfold Dedup.get_active_groups. rewrite filter_In, Z.ltb_lt.
    reflexivity.
  - unfold Dedup.report_groups, Dedup.sorted_by_count_desc.
    induction (Dedup.get_active_groups now self) as [|g l IH]; simpl; auto.
    eapply Permutation_trans; [apply insert_by_count_perm | now constructor].
  - unfold Dedup.report_groups, Dedup.sorted_by_count_desc.
    induction (Dedup.get_active_groups now self) as [|g l IH]; simpl.
    + constructor.
    + now apply insert_by_count_sorted.
Qed.

End GroupingClaims.

(* ===================================================================== *)
(** * Events with absent attributes *)
(* ===================================================================== *)

Module UntypedFacts.
Import Untyped.

Lemma get_of_dict {V W : Type} (f : V -> W) (d : Dict.t V) k :
  Dict.get k (of_dict f d) = option_map f (Dict.get k d).
Proof.
  induction d as [|[k0 v0] d IH]; simpl; auto.
  now destruct (String.eqb k k0).
Qed.

Lemma set_of_dict {V W : Type} (f : V -> W) (d : Dict.t V) k v :
  Dict.set k (f v) (of_dict f d) = of_dict f (Dict.set k v d).
Proof.
  induction d as [|[k0 v0] d IH]; simpl; auto.
  destruct (String.eqb k k0); simpl; auto. now rewrite IH.
Qed.

Lemma existsb_of_services x l :
  existsb (opt_eqb (Some x)) (map Some l) = existsb (String.eqb x) l.
Proof. induction l as [|y l IH]; simpl; auto. now rewrite IH. Qed.

(** On well-formed objects the untyped [process_alert] returns, and does
    what [Dedup.process_alert] does. *)
Lemma process_alert_of (self : Dedup.AlertDeduplicator) (a : Dedup.Alert) :
  process_alert (of_dedup self) (of_alert a) =
  Returned (of_dedup (fst (Dedup.process_alert self a)))
           (snd (Dedup.process_alert self a)).
Proof.
  unfold process_alert, Dedup.process_alert, _get_signature, of_dedup.
  cbn [of_alert name severity service timestamp stored str groups
       suppressed_count Dedup.groups Dedup.suppressed_count].
  fold (Dedup._get_signature a).
  rewrite get_of_dict.
  destruct (Dict.get (Dedup._get_signature a) (Dedup.groups self)) as [g|];
    cbn [option_map of_group g_last_seen].
  - destruct (Dedup.timestamp a - Dedup.AlertGroup.last_seen g
              <? Dedup.SUPPRESSION_WINDOW).
    + cbn [fst snd Dedup.groups Dedup.suppressed_count with_last_seen with_count
           g_services g_alerts g_signature g_name g_severity g_count
           g_first_seen g_last_seen of_group].
      rewrite existsb_of_services. unfold Dedup.append_if_absent.
      rewrite <- set_of_dict. unfold of_group at 3.
      cbn [Dedup.AlertGroup.signature Dedup.AlertGroup.name
           Dedup.AlertGroup.severity Dedup.AlertGroup.count
           Dedup.AlertGroup.first_seen Dedup.AlertGroup.last_seen
           Dedup.AlertGroup.services Dedup.AlertGroup.alerts].
      destruct (existsb (String.eqb (Dedup.service a)) (Dedup.AlertGroup.services g));
        do 3 f_equal;
        unfold of_group, with_alerts, with_services, with_last_seen, with_count;
        simpl; now rewrite ?map_app.
    + cbn [fst snd Dedup.groups Dedup.suppressed_count with_last_seen with_count
           with_alerts put groups suppressed_count
           g_services g_alerts g_signature g_name g_severity g_count
           g_first_seen g_last_seen of_group].
      rewrite <- set_of_dict. do 3 f_equal.
      unfold of_group, with_alerts, with_last_seen, with_count.
      simpl. now rewrite map_app.
  - cbn [fst snd Dedup.groups Dedup.suppressed_count put groups suppressed_count].
    now rewrite <- set_of_dict.
Qed.

Lemma classify_of (self : Classifier.LogClassifier) (e : Classifier.LogEntry) :
  classify (of_classifier self) (of_entry e) =
  Returned (of_classifier (fst (Classifier.classify self e)))
           (snd (Classifier.classify self e)).
Proof.
  unfold classify, Classifier.classify, Classifier._is_noise, of_classifier.
  cbn [of_entry e_message e_timestamp stored clusters noise_count].
  destruct (existsb _ NOISE_PATTERNS); [reflexivity|].
  rewrite get_of_dict.
  destruct (Dict.get _ (Classifier.clusters self)) as [c|];
    cbn [option_map fst snd Classifier.clusters Classifier.noise_count];
    rewrite <- set_of_dict; unfold of_cluster;
    cbn [c_pattern c_signature c_count c_first_seen c_last_seen c_samples
         c_is_noise Classifier.pattern Classifier.signature Classifier.count
         Classifier.first_seen Classifier.last_seen Classifier.samples
         Classifier.is_noise map]; auto.
  rewrite length_map.
  destruct (length (Classifier.samples c) <? 3)%nat; now rewrite ?map_app.
Qed.

(** C9, counterexample.  An alert whose name is None is not rejected: it is
    fingerprinted as "None|critical" and a group is stored for it.  An
    alert without a service attribute, arriving inside the window of its
    group, raises after count and last_seen have been updated: the store
    after the error differs from the store before it. *)
Lemma malformed_alert_not_rejected :
  let nameless :=
    mkAlert (Has "alert-0002") PyNone (Has Dedup.CRITICAL) (Has "api")
      (Has "Error rate > 5%") (Has 0) (Has []) in
  let no_service :=
    mkAlert (Has "alert-0003") (Has "HighErrorRate") (Has Dedup.CRITICAL)
      Missing (Has "Error rate > 5%") (Has (Samples.seconds 60)) (Has []) in
  let self1 :=
    of_dedup (fst (Dedup.process_alert Dedup.init
                     (Samples.high_error_rate "api" 0))) in
  (exists self', process_alert (mkDedup [] 0) nameless = Returned self' true
                 /\ map g_name (Dict.values (groups self')) = [None])
  /\ (exists self', process_alert self1 no_service = Raised AttributeError self'
                    /\ map g_count (Dict.values (groups self1)) = [1]
                    /\ map g_count (Dict.values (groups self')) = [2]).
Proof.
  split; eexists; (split; [vm_compute; reflexivity|]); vm_compute; auto.
Qed.

(** C9, amended.  Neither method validates its argument.  An alert whose
    name attribute is missing, or whose severity is missing or None, makes
    [process_alert] raise AttributeError while the signature is computed,
    and a log entry whose message is missing or None makes [classify] raise
    AttributeError in the noise check; the store is then unchanged.  The
    store is also unchanged whenever [process_alert] raises for an alert
    that has a service attribute and whenever [classify] raises for an
    entry that has a timestamp attribute. *)
Theorem malformed_events
    (self : AlertDeduplicator) (alert : Alert)
    (classifier : LogClassifier) (entry : LogEntry) :
  (name alert = Missing \/ severity alert = Missing \/ severity alert = PyNone ->
   process_alert self alert = Raised AttributeError self)
  /\ (forall e self',
        process_alert self alert = Raised e self' ->
        service alert <> Missing -> self' = self)
  /\ (e_message entry = Missing \/ e_message entry = PyNone ->
      classify classifier entry = Raised AttributeError classifier)
  /\ (forall e self',
        classify classifier entry = Raised e self' ->
        e_timestamp entry <> Missing -> self' = classifier).
Proof.
  repeat split.
  - unfold process_alert, _get_signature.
    intros [H|[H|H]]; rewrite H; auto; destruct (name alert); auto.
  - intros e self'. unfold process_alert.
    destruct (_get_signature alert) as [e0|sig]; [congruence|].
    destruct (Dict.get sig (groups self)) as [g|].
    + destruct (timestamp alert) as [| |t]; try congruence;
        destruct (g_last_seen g) as [seen|]; try congruence.
      destruct (t - seen <? Dedup.SUPPRESSION_WINDOW); [|discriminate].
      destruct (service alert); congruence.
    + destruct (severity alert); try congruence;
        destruct (timestamp alert); try congruence;
        destruct (service alert); congruence.
  - unfold classify. intros [H|H]; now rewrite H.
  - intros e self'. unfold classify.
    destruct (e_message entry) as [| |msg]; try congruence.
    destruct (existsb _ NOISE_PATTERNS); [discriminate|].
    destruct (Dict.get _ (clusters classifier));
      destruct (e_timestamp entry); congruence.
Qed.

Lemma malformed_events_witness :
  let alert :=
    mkAlert (Has "alert-0004") (Has "HighErrorRate") PyNone (Has "api")
      (Has "Error rate > 5%") (Has 0) (Has []) in
  let entry :=
    mkEntry (Has 0) (Has Classifier.ERROR) (Has "api") PyNone PyNone in
  process_alert (mkDedup [] 0) alert = Raised AttributeError (mkDedup [] 0)
  /\ classify (mkClassifier [] 0) entry = Raised AttributeError (mkClassifier [] 0).
Proof.
  intros alert entry.
  destruct (malformed_events (mkDedup [] 0) alert (mkClassifier [] 0) entry)
    as (H1 & _ & H3 & _).
  split; [apply H1 | apply H3]; right; [right|]; reflexivity.
Defined.

End UntypedFacts.

(* ===================================================================== *)
(** * Matching and substitution *)
(* ===================================================================== *)

Module ReFacts.
Import Re Chars.
Local Open Scope nat_scope.

Lemma prev_at_0 prev s : prev_at prev s 0 = prev.
Proof. now destruct s. Qed.

Lemma prev_at_add j : forall prev s k,
  j <= length s ->
  prev_at (prev_at prev s j) (skipn j s) k = prev_at prev s (j + k).
Proof.
  induction j as [|j IH]; intros prev s k Hj.
  - now rewrite prev_at_0.
  - destruct s as [|c s]; simpl in Hj; [lia|]. simpl. apply IH. lia.
Qed.

Lemma prev_at_S prev s n c :
  nth_error s n = Some c -> prev_at prev s (S n) = Some c.
Proof.
  revert prev s. induction n as [|n IH]; intros prev [|c' s] H; try discriminate.
  - simpl in H. injection H as ->. simpl. now rewrite prev_at_0.
  - simpl in H. simpl. now apply IH.
Qed.

(** What a successful [k+] loop did: it took [j >= 1] characters of the
    class and the rest of the pattern matched behind them. *)
Lemma plus_loop_inv k rest s : forall n,
  plus_loop k rest s = Some n ->
  exists j c m,
    1 <= j <= length s /\ n = j + m
    /\ Forall (fun x => accepts k x = true) (firstn j s)
    /\ prev_at None s j = Some c /\ accepts k c = true
    /\ rest (Some c) (skipn j s) = Some m.
Proof.
  induction s as [|c s IH]; intros n H; simpl in H; [discriminate|].
  destruct (accepts k c) eqn:Hc; [|discriminate].
  destruct (plus_loop k rest s) as [n'|] eqn:Hloop.
  - injection H as <-.
    destruct (IH n' eq_refl) as (j & c' & m & Hj & Hn & Hall & Hp & Hc' & Hrest).
    exists (S j), c', m. simpl. repeat split; try lia; auto.
    destruct j as [|j]; [lia|].
    destruct s as [|c2 s]; [simpl in Hj; lia|]. simpl in Hp. exact Hp.
  - destruct (rest (Some c) s) as [m|] eqn:Hrest; [|discriminate].
    injection H as <-. exists 1, c, m. simpl. repeat split; try lia; auto.
    now rewrite prev_at_0.
Qed.

Lemma prev_at_None prev s j :
  1 <= j <= length s -> prev_at prev s j = prev_at None s j.
Proof.
  destruct j as [|j]; [lia|]. destruct s as [|c s]; simpl; [lia|]. reflexivity.
Qed.

Lemma rmatch_le r : forall prev s n, rmatch r prev s = Some n -> n <= length s.
Proof.
  induction r as [|a r IH]; intros prev s n H; simpl in H.
  - injection H as <-. lia.
  - destruct a as [k|k|].
    + destruct s as [|c s]; [discriminate|].
      destruct (accepts k c); [|discriminate].
      destruct (rmatch r (Some c) s) as [m|] eqn:Hm; [|discriminate].
      injection H as <-. apply IH in Hm. simpl. lia.
    + apply plus_loop_inv in H.
      destruct H as (j & c & m & Hj & -> & _ & _ & _ & Hrest).
      apply IH in Hrest. rewrite length_skipn in Hrest. lia.
    + destruct (xorb (word_before prev) (word_at s)); [|discriminate].
      now apply IH in H.
Qed.

(** [sub_from] with characters left to drop is [sub_from] behind them. *)
Lemma sub_from_skip r repl k : forall prev s,
  k <= length s ->
  sub_from r repl prev s k = sub_from r repl (prev_at prev s k) (skipn k s) 0.
Proof.
  induction k as [|k IH]; intros prev s Hk.
  - now rewrite prev_at_0.
  - destruct s as [|c s]; simpl in Hk; [lia|]. simpl. apply IH. lia.
Qed.

(** One step of the scan. *)
Lemma sub_from_cons r repl prev c s :
  sub_from r repl prev (c :: s) 0 =
  match rmatch r prev (c :: s) with
  | Some (S n) =>
      repl ++ sub_from r repl (prev_at prev (c :: s) (S n)) (skipn (S n) (c :: s)) 0
  | Some 0 => repl ++ c :: sub_from r repl (Some c) s 0
  | None => c :: sub_from r repl (Some c) s 0
  end.
Proof.
  simpl. destruct (rmatch r prev (c :: s)) as [[|n]|] eqn:Hm; auto.
  apply rmatch_le in Hm. simpl in Hm.
  f_equal. apply sub_from_skip. lia.
Qed.

Lemma free_skipn r p : forall prev s,
  p <= length s -> free r prev s -> free r (prev_at prev s p) (skipn p s).
Proof.
  induction p as [|p IH]; intros prev s Hp Hf.
  - now rewrite prev_at_0.
  - destruct s as [|c s]; simpl in Hp; [lia|]. simpl.
    apply IH; [lia|]. now destruct Hf.
Qed.

Lemma free_head r prev s : free r prev s -> rmatch r prev s = None.
Proof. destruct s; simpl; tauto. Qed.

(** Where the pattern matches nowhere the substitution changes nothing. *)
Lemma free_sub_id r repl s : forall prev,
  free r prev s -> sub_from r repl prev s 0 = s.
Proof.
  induction s as [|c s IH]; intros prev Hf.
  - simpl in *. destruct Hf as [-> _]. reflexivity.
  - rewrite sub_from_cons. destruct Hf as [-> Hf]. f_equal. now apply IH.
Qed.

Lemma prev_at_firstn n : forall prev s,
  prev_at prev s n = prev_at prev (firstn n s) n.
Proof.
  induction n as [|n IH]; intros prev [|c s]; simpl; auto.
Qed.

Lemma free_where_skipn ri rj p : forall prev s,
  p <= length s -> free_where ri rj prev s ->
  free_where ri rj (prev_at prev s p) (skipn p s).
Proof.
  induction p as [|p IH]; intros prev s Hp Hf.
  - now rewrite prev_at_0.
  - destruct s as [|c s]; simpl in Hp; [lia|]. simpl.
    apply IH; [lia|]. now destruct Hf.
Qed.

Lemma free_free_where ri rj s : forall prev,
  free ri prev s -> free_where ri rj prev s.
Proof.
  induction s as [|c s IH]; intros prev [H1 H2]; simpl; split; auto.
Qed.

Lemma free_where_self r s : forall prev, free_where r r prev s.
Proof. induction s as [|c s IH]; intros prev; simpl; split; auto. Qed.

(** ** A pattern absent before a substitution is absent after it

    [ri] is a pattern between word boundaries whose matches are made of
    characters of [A]; [rj] is a pattern between word boundaries; the
    replacement starts outside [A] and outside the word characters, and no
    match of [ri] starts with one of its characters. *)
Section Preserve.
Variables (ri rj : regex) (repl : list ascii) (A : ascii -> bool).

Hypothesis Hi_shape : forall prev s n,
  rmatch ri prev s = Some n ->
  1 <= n <= length s
  /\ Forall (fun c => A c = true) (firstn n s)
  /\ word_at s = true
  /\ word_before (prev_at prev s n) = true
  /\ word_at (skipn n s) = false.

Hypothesis Hi_start : forall prev c s,
  In c repl -> rmatch ri prev (c :: s) = None.

Hypothesis Hi_cong : forall prev s t n,
  rmatch ri prev t = Some n ->
  firstn n s = firstn n t -> n <= length s -> word_at (skipn n s) = false ->
  rmatch ri prev s = Some n.

Hypothesis Hj_shape : forall prev s n,
  rmatch rj prev s = Some n ->
  1 <= n <= length s
  /\ word_before prev = false
  /\ word_at s = true
  /\ word_before (prev_at prev s n) = true
  /\ word_at (skipn n s) = false.

Hypothesis Hrepl : exists a tl, repl = a :: tl /\ A a = false.

Lemma ri_nil prev : rmatch ri prev [] = None.
Proof.
  destruct (rmatch ri prev []) as [n|] eqn:H; auto.
  apply Hi_shape in H. simpl in H. lia.
Qed.

Lemma rj_nil prev : rmatch rj prev [] = None.
Proof.
  destruct (rmatch rj prev []) as [n|] eqn:H; auto.
  apply Hj_shape in H. simpl in H. lia.
Qed.

Lemma ri_not_word prev s : word_at s = false -> rmatch ri prev s = None.
Proof.
  intros Hw. destruct (rmatch ri prev s) as [n|] eqn:H; auto.
  apply Hi_shape in H. destruct H as (_ & _ & H & _). congruence.
Qed.

Lemma rj_not_word prev s : word_at s = false -> rmatch rj prev s = None.
Proof.
  intros Hw. destruct (rmatch rj prev s) as [n|] eqn:H; auto.
  apply Hj_shape in H. destruct H as (_ & _ & H & _). congruence.
Qed.

Lemma free_any_prev p q t : free ri p t -> word_at t = false -> free ri q t.
Proof.
  intros Hf Hw. destruct t as [|c t]; simpl in *.
  - split; auto. apply ri_nil.
  - split; [|tauto]. now apply (ri_not_word q (c :: t)).
Qed.

Lemma sub_word_at p u :
  word_at u = false -> word_at (sub_from rj repl p u 0) = false.
Proof.
  intros Hw. destruct u as [|c u].
  - simpl. now rewrite rj_nil.
  - rewrite sub_from_cons, (rj_not_word p (c :: u) Hw). exact Hw.
Qed.

Lemma sub_word_at_inv p u :
  word_before p = true ->
  word_at (sub_from rj repl p u 0) = false -> word_at u = false.
Proof.
  intros Hp Hw. destruct u as [|c u]; auto.
  rewrite sub_from_cons in Hw.
  destruct (rmatch rj p (c :: u)) as [n|] eqn:H.
  - apply Hj_shape in H. destruct H as (_ & H & _). congruence.
  - exact Hw.
Qed.

(** A prefix of the result made of characters of [A] was copied from the
    input, and behind it the result is the substitution of what is behind
    it in the input. *)
Lemma sub_prefix n : forall prev s,
  n <= length (sub_from rj repl prev s 0) ->
  Forall (fun c => A c = true) (firstn n (sub_from rj repl prev s 0)) ->
  firstn n s = firstn n (sub_from rj repl prev s 0)
  /\ n <= length s
  /\ skipn n (sub_from rj repl prev s 0) =
     sub_from rj repl (prev_at prev s n) (skipn n s) 0.
Proof.
  induction n as [|n IH]; intros prev s Hlen Hall.
  - rewrite prev_at_0. simpl. repeat split; auto. lia.
  - destruct s as [|c s].
    + simpl in Hlen. rewrite rj_nil in Hlen. simpl in Hlen. lia.
    + rewrite sub_from_cons in *.
      destruct (rmatch rj prev (c :: s)) as [[|m]|] eqn:Hm.
      * apply Hj_shape in Hm. lia.
      * destruct Hrepl as (a & tl & -> & Ha). simpl in Hall.
        inversion Hall; subst. congruence.
      * simpl in Hlen, Hall. inversion Hall as [|x l Hx Hl]; subst.
        destruct (IH (Some c) s) as (P1 & P2 & P3); auto; [lia|].
        simpl. repeat split; auto; [now f_equal | lia].
Qed.

Lemma free_repl_app t l :
  (forall q, free ri q t) -> incl l repl -> forall q, free ri q (l ++ t).
Proof.
  intros Ht. induction l as [|c l IH]; intros Hin q; simpl; auto.
  split.
  - apply Hi_start. apply Hin. now left.
  - apply IH. intros x Hx. apply Hin. now right.
Qed.

Lemma preserve_bounded N : forall s prev,
  length s <= N ->
  free_where ri rj prev s -> free ri prev (sub_from rj repl prev s 0).
Proof.
  induction N as [|N IH]; intros s prev Hlen Hw.
  - destruct s; [|simpl in Hlen; lia]. simpl. rewrite rj_nil. simpl.
    split; auto. apply ri_nil.
  - destruct s as [|c s].
    + simpl. rewrite rj_nil. simpl. split; auto. apply ri_nil.
    + simpl in Hlen.
      destruct (rmatch rj prev (c :: s)) as [n|] eqn:Hm.
      * rewrite sub_from_cons, Hm.
        pose proof (Hj_shape _ _ _ Hm) as (Hn & _ & _ & _ & Hafter).
        destruct n as [|n]; [lia|].
        apply free_repl_app; [|apply incl_refl].
        intros q.
        apply (free_any_prev (prev_at prev (c :: s) (S n))).
        -- apply IH.
           ++ rewrite length_skipn. simpl in *. lia.
           ++ apply free_where_skipn; [lia | exact Hw].
        -- now apply sub_word_at.
      * assert (Heq : sub_from rj repl prev (c :: s) 0 =
                      c :: sub_from rj repl (Some c) s 0)
          by now rewrite sub_from_cons, Hm.
        rewrite Heq. simpl. split.
        -- destruct (rmatch ri prev (c :: sub_from rj repl (Some c) s 0))
             as [n|] eqn:Hi; auto.
           exfalso. rewrite <- Heq in Hi.
           pose proof (Hi_shape _ _ _ Hi) as (Hn & Hall & _ & Hlast & Hafter).
           destruct (sub_prefix n prev (c :: s)) as (P1 & P2 & P3); auto; [lia|].
           rewrite P3 in Hafter.
           rewrite (prev_at_firstn n prev (sub_from rj repl prev (c :: s) 0)),
             <- P1, <- prev_at_firstn in Hlast.
           apply sub_word_at_inv in Hafter; auto.
           pose proof (Hi_cong prev (c :: s) _ n Hi P1 P2 Hafter) as Hs.
           destruct Hw as [Hw _]. rewrite (Hw Hm) in Hs. discriminate.
        -- apply IH; [lia|]. now destruct Hw.
Qed.

Lemma preserve s prev :
  free_where ri rj prev s -> free ri prev (sub_from rj repl prev s 0).
Proof. apply (preserve_bounded (length s)). lia. Qed.

End Preserve.

(** ** What a match looks like *)

Ltac ascii_cases c := destruct c as [[] [] [] [] [] [] [] []].

Lemma digit_word c : is_digit c = true -> is_word c = true.
Proof. ascii_cases c; vm_compute; auto. Qed.

Lemma hex_word c : is_hex c = true -> is_word c = true.
Proof. ascii_cases c; vm_compute; auto. Qed.

Lemma firstn_add {X : Type} j : forall m (s : list X),
  firstn (j + m) s = firstn j s ++ firstn m (skipn j s).
Proof.
  induction j as [|j IH]; intros m s; simpl; auto.
  destruct s as [|c s]; simpl.
  - now rewrite firstn_nil.
  - now rewrite IH.
Qed.

Lemma skipn_add {X : Type} j : forall m (s : list X),
  skipn (j + m) s = skipn m (skipn j s).
Proof.
  induction j as [|j IH]; intros m s; simpl; auto.
  destruct s as [|c s]; simpl; auto. now rewrite skipn_nil.
Qed.

Lemma rmatch_One_inv k r prev s n :
  rmatch (One k :: r) prev s = Some n ->
  exists c s' n', s = c :: s' /\ accepts k c = true /\ n = S n'
                  /\ rmatch r (Some c) s' = Some n'.
Proof.
  simpl. destruct s as [|c s]; [discriminate|].
  destruct (accepts k c) eqn:Hc; [|discriminate].
  destruct (rmatch r (Some c) s) as [n'|] eqn:Hr; [|discriminate].
  intros H. injection H as <-. now exists c, s, n'.
Qed.

Lemma rmatch_Bound_inv r prev s n :
  rmatch (Bound :: r) prev s = Some n ->
  xorb (word_before prev) (word_at s) = true /\ rmatch r prev s = Some n.
Proof.
  simpl. destruct (xorb (word_before prev) (word_at s)); [auto|discriminate].
Qed.

Lemma rmatch_Plus_inv k r prev s n :
  rmatch (Plus k :: r) prev s = Some n ->
  exists j c m,
    1 <= j <= length s /\ n = j + m
    /\ Forall (fun x => accepts k x = true) (firstn j s)
    /\ prev_at prev s j = Some c /\ accepts k c = true
    /\ rmatch r (Some c) (skipn j s) = Some m.
Proof.
  simpl. intros H. apply plus_loop_inv in H.
  destruct H as (j & c & m & Hj & Hn & Hall & Hp & Hc & Hr).
  exists j, c, m. repeat split; try tauto.
  now rewrite (prev_at_None prev s j Hj).
Qed.

(** The characters of a match belong to the classes of the pattern. *)
Lemma rmatch_chars (A : ascii -> bool) r :
  Forall (atom_in A) r ->
  forall prev s n, rmatch r prev s = Some n ->
  Forall (fun c => A c = true) (firstn n s).
Proof.
  induction r as [|a r IH]; intros Hr prev s n H.
  - simpl in H. injection H as <-. constructor.
  - inversion Hr as [|x l Ha Hr']; subst. destruct a as [k|k|].
    + apply rmatch_One_inv in H.
      destruct H as (c & s' & n' & -> & Hc & -> & H).
      simpl. constructor; [now apply Ha | now apply (IH Hr' (Some c))].
    + apply rmatch_Plus_inv in H.
      destruct H as (j & c & m & Hj & -> & Hall & _ & _ & H).
      rewrite firstn_add. apply Forall_app. split.
      * eapply Forall_impl; [|exact Hall]. intros x Hx. now apply Ha.
      * now apply (IH Hr' (Some c)).
    + apply rmatch_Bound_inv in H. now apply (IH Hr' prev).
Qed.

(** A pattern that ends with an atom of class [k] and a word boundary: the
    last character of a match is in [k] and a boundary follows it. *)
Lemma rmatch_last r0 a k : class_of a = Some k ->
  forall prev s n, rmatch (r0 ++ [a; Bound]) prev s = Some n ->
  exists c, 1 <= n /\ prev_at prev s n = Some c /\ accepts k c = true
            /\ xorb (is_word c) (word_at (skipn n s)) = true.
Proof.
  intros Hk. induction r0 as [|b r0 IH]; intros prev s n H.
  - simpl app in H. destruct a as [k'|k'|]; simpl in Hk; try discriminate;
      injection Hk as ->.
    + apply rmatch_One_inv in H.
      destruct H as (c & s' & n' & -> & Hc & -> & H).
      apply rmatch_Bound_inv in H. destruct H as [Hx H].
      simpl in H. injection H as <-. exists c. simpl.
      rewrite prev_at_0. repeat split; auto.
    + apply rmatch_Plus_inv in H.
      destruct H as (j & c & m & Hj & -> & _ & Hp & Hc & H).
      apply rmatch_Bound_inv in H. destruct H as [Hx H].
      simpl in H. injection H as <-. exists c. rewrite Nat.add_0_r.
      repeat split; auto; lia.
  - rewrite <- app_comm_cons in H. destruct b as [k'|k'|].
    + apply rmatch_One_inv in H.
      destruct H as (c' & s' & n' & -> & _ & -> & H).
      destruct (IH _ _ _ H) as (c & Hn & Hp & Hc & Hx).
      exists c. simpl. repeat split; auto; lia.
    + apply rmatch_Plus_inv in H.
      destruct H as (j & cj & m & Hj & -> & _ & Hp & _ & H).
      destruct (IH _ _ _ H) as (c & Hn & Hp' & Hc & Hx).
      exists c. rewrite <- prev_at_add, Hp, skipn_add by lia.
      repeat split; auto; lia.
    + apply rmatch_Bound_inv in H. destruct H as [_ H]. now apply IH.
Qed.

(** A pattern that starts with a word boundary and an atom of class [k]. *)
Lemma rmatch_first a k r prev s n : class_of a = Some k ->
  rmatch (Bound :: a :: r) prev s = Some n ->
  xorb (word_before prev) (word_at s) = true
  /\ exists c s', s = c :: s' /\ accepts k c = true.
Proof.
  intros Hk H. apply rmatch_Bound_inv in H. destruct H as [Hx H].
  split; auto. destruct a as [k'|k'|]; simpl in Hk; try discriminate;
    injection Hk as ->.
  - apply rmatch_One_inv in H. destruct H as (c & s' & _ & -> & Hc & _).
    now exists c, s'.
  - simpl in H. destruct s as [|c s']; [discriminate|]. simpl in H.
    destruct (accepts k c) eqn:Hc; [|discriminate]. now exists c, s'.
Qed.

(** A pattern between word boundaries whose first and last atoms take word
    characters. *)
Lemma word_bounded_shape (A : ascii -> bool) r a r1 r2 b k1 k2 :
  r = Bound :: a :: r1 -> r = r2 ++ [b; Bound] ->
  class_of a = Some k1 -> class_of b = Some k2 ->
  (forall c, accepts k1 c = true -> is_word c = true) ->
  (forall c, accepts k2 c = true -> is_word c = true) ->
  Forall (atom_in A) r ->
  forall prev s n, rmatch r prev s = Some n ->
  1 <= n <= length s
  /\ Forall (fun c => A c = true) (firstn n s)
  /\ word_before prev = false
  /\ word_at s = true
  /\ word_before (prev_at prev s n) = true
  /\ word_at (skipn n s) = false.
Proof.
  intros E1 E2 Ha Hb W1 W2 HA prev s n H.
  pose proof (rmatch_le _ _ _ _ H) as Hle.
  pose proof (rmatch_chars A r HA _ _ _ H) as Hall.
  pose proof H as H1. rewrite E1 in H1.
  apply (rmatch_first _ _ _ _ _ _ Ha) in H1.
  destruct H1 as (Hx & c & s' & -> & Hc).
  pose proof H as H2. rewrite E2 in H2.
  apply (rmatch_last _ _ _ Hb) in H2.
  destruct H2 as (c' & Hn & Hp & Hc' & Hx').
  apply W1 in Hc. apply W2 in Hc'.
  rewrite Hp. cbn [word_before]. cbn [word_at] in Hx |- *.
  rewrite Hc in Hx. rewrite Hc' in Hx'.
  destruct (word_before prev); [discriminate Hx|].
  destruct (word_at (skipn n (c :: s'))); [discriminate Hx'|].
  repeat split; auto.
Qed.

(** A pattern without repetition looks at the characters it consumes and at
    whether a word character follows them. *)
Lemma rmatch_cong_no_plus r : no_plus r = true ->
  forall prev s t n,
  rmatch r prev t = Some n ->
  firstn n s = firstn n t -> n <= length s ->
  word_at (skipn n s) = word_at (skipn n t) ->
  rmatch r prev s = Some n.
Proof.
  induction r as [|a r IH]; intros Hnp prev s t n H Hfirst Hlen Hafter.
  - exact H.
  - simpl in Hnp. apply andb_prop in Hnp. destruct Hnp as [Ha Hnp].
    destruct a as [k|k|]; [|discriminate|].
    + apply rmatch_One_inv in H.
      destruct H as (c & t' & n' & -> & Hc & -> & H).
      destruct s as [|c2 s']; [simpl in Hlen; lia|].
      simpl in Hfirst. injection Hfirst as -> Hfirst.
      simpl. rewrite Hc.
      rewrite (IH Hnp (Some c) s' t' n' H Hfirst); auto.
      simpl in Hlen. lia.
    + apply rmatch_Bound_inv in H. destruct H as [Hx H].
      assert (Hw : word_at s = word_at t).
      { destruct n as [|n]; [exact Hafter|].
        pose proof (rmatch_le _ _ _ _ H) as Ht.
        destruct s as [|c s']; [simpl in Hlen; lia|].
        destruct t as [|c' t']; [simpl in Ht; lia|].
        simpl in Hfirst. now injection Hfirst as -> _. }
      simpl. rewrite Hw, Hx. now apply (IH Hnp prev s t).
Qed.

End ReFacts.

(* ===================================================================== *)
(** * The normalizer *)
(* ===================================================================== *)

Module NormalizeFacts.
Import Re Chars ReFacts.
Local Open Scope nat_scope.

Ltac atoms_in :=
  cbv [UUID_RE IP_RE NUM_RE DATE_RE TIME_RE times repeat app chr];
  repeat (apply Forall_cons;
          [ unfold atom_in; cbn [class_of accepts]; try exact I;
            intros c Hc; unfold uuid_char; rewrite ?Hc, ?orb_true_r; reflexivity
          | ]);
  apply Forall_nil.

Lemma uuid_shape prev s n :
  rmatch UUID_RE prev s = Some n ->
  1 <= n <= length s
  /\ Forall (fun c => uuid_char c = true) (firstn n s)
  /\ word_before prev = false
  /\ word_at s = true
  /\ word_before (prev_at prev s n) = true
  /\ word_at (skipn n s) = false.
Proof.
  apply (word_bounded_shape uuid_char UUID_RE (One CHex) (skipn 2 UUID_RE)
           (firstn 36 UUID_RE) (One CHex) CHex CHex);
    try reflexivity; try exact hex_word.
  atoms_in.
Qed.

Lemma num_shape prev s n :
  rmatch NUM_RE prev s = Some n ->
  1 <= n <= length s
  /\ Forall (fun c => is_digit c = true) (firstn n s)
  /\ word_before prev = false
  /\ word_at s = true
  /\ word_before (prev_at prev s n) = true
  /\ word_at (skipn n s) = false.
Proof.
  apply (word_bounded_shape is_digit NUM_RE (Plus CDigit) [Bound]
           [Bound] (Plus CDigit) CDigit CDigit);
    try reflexivity; try exact digit_word.
  atoms_in.
Qed.

Lemma ip_shape prev s n :
  rmatch IP_RE prev s = Some n ->
  1 <= n <= length s
  /\ Forall (fun c => true = true) (firstn n s)
  /\ word_before prev = false
  /\ word_at s = true
  /\ word_before (prev_at prev s n) = true
  /\ word_at (skipn n s) = false.
Proof.
  apply (word_bounded_shape (fun _ => true) IP_RE (Plus CDigit) (skipn 2 IP_RE)
           (firstn 7 IP_RE) (Plus CDigit) CDigit CDigit);
    try reflexivity; try exact digit_word.
  atoms_in.
Qed.

(** Dropping the facts about the consumed characters. *)
Lemma shape_j {A : ascii -> Prop} {r : regex}
    (H : forall prev s n, rmatch r prev s = Some n ->
         1 <= n <= length s /\ Forall A (firstn n s) /\ word_before prev = false
         /\ word_at s = true /\ word_before (prev_at prev s n) = true
         /\ word_at (skipn n s) = false) :
  forall prev s n, rmatch r prev s = Some n ->
  1 <= n <= length s /\ word_before prev = false /\ word_at s = true
  /\ word_before (prev_at prev s n) = true /\ word_at (skipn n s) = false.
Proof. intros prev s n Hm. apply H in Hm. tauto. Qed.

Lemma shape_i {A : ascii -> Prop} {r : regex}
    (H : forall prev s n, rmatch r prev s = Some n ->
         1 <= n <= length s /\ Forall A (firstn n s) /\ word_before prev = false
         /\ word_at s = true /\ word_before (prev_at prev s n) = true
         /\ word_at (skipn n s) = false) :
  forall prev s n, rmatch r prev s = Some n ->
  1 <= n <= length s /\ Forall A (firstn n s) /\ word_at s = true
  /\ word_before (prev_at prev s n) = true /\ word_at (skipn n s) = false.
Proof. intros prev s n Hm. apply H in Hm. tauto. Qed.

Lemma uuid_cong prev s t n :
  rmatch UUID_RE prev t = Some n ->
  firstn n s = firstn n t -> n <= length s -> word_at (skipn n s) = false ->
  rmatch UUID_RE prev s = Some n.
Proof.
  intros H Hf Hl Hw.
  apply (rmatch_cong_no_plus UUID_RE eq_refl prev s t n); auto.
  apply uuid_shape in H. destruct H as (_ & _ & _ & _ & _ & H). congruence.
Qed.

(** The loop of [\d+\b] takes a whole run of digits that ends a word. *)
Lemma digits_loop s : forall n,
  1 <= n <= length s ->
  Forall (fun c => is_digit c = true) (firstn n s) ->
  word_at (skipn n s) = false ->
  plus_loop CDigit (rmatch [Bound]) s = Some n.
Proof.
  induction s as [|c s IH]; intros n Hn Hall Hw; simpl in Hn; [lia|].
  destruct n as [|n]; [lia|]. cbn [firstn skipn] in Hall, Hw.
  inversion Hall as [|x l Hc Hall']; subst.
  cbn [plus_loop accepts]. rewrite Hc.
  destruct n as [|n].
  - cbn [skipn] in Hw.
    assert (Hloop : plus_loop CDigit (rmatch [Bound]) s = None).
    { destruct s as [|c' s']; auto. cbn [word_at] in Hw.
      cbn [plus_loop accepts].
      destruct (is_digit c') eqn:Hd; auto.
      apply digit_word in Hd. congruence. }
    rewrite Hloop. cbn [skipn] in Hw. cbn [rmatch word_before].
    rewrite (digit_word c Hc), Hw. reflexivity.
  - rewrite (IH (S n)); auto. lia.
Qed.

Lemma num_match prev s n :
  1 <= n <= length s ->
  word_before prev = false ->
  Forall (fun c => is_digit c = true) (firstn n s) ->
  word_at (skipn n s) = false ->
  rmatch NUM_RE prev s = Some n.
Proof.
  intros Hn Hp Hall Hw. unfold NUM_RE. cbn [rmatch]. rewrite Hp.
  assert (Hs : word_at s = true).
  { destruct s as [|c s]; [simpl in Hn; lia|].
    destruct n as [|n]; [lia|]. simpl in Hall.
    inversion Hall; subst. simpl. now apply digit_word. }
  rewrite Hs. simpl xorb. cbv iota. now apply digits_loop.
Qed.

Lemma num_cong prev s t n :
  rmatch NUM_RE prev t = Some n ->
  firstn n s = firstn n t -> n <= length s -> word_at (skipn n s) = false ->
  rmatch NUM_RE prev s = Some n.
Proof.
  intros H Hf Hl Hw. apply num_shape in H.
  destruct H as (Hn & Hall & Hp & _). apply num_match; auto; [lia|].
  now rewrite Hf.
Qed.

Lemma uuid_start repl prev c s :
  In repl ["<UUID>"%string; "<IP>"%string; "<NUM>"%string] ->
  In c (list_ascii_of_string repl) -> rmatch UUID_RE prev (c :: s) = None.
Proof.
  intros Hr Hc. destruct (rmatch UUID_RE prev (c :: s)) as [n|] eqn:H; auto.
  apply (rmatch_first (One CHex) CHex _ _ _ _ eq_refl) in H.
  destruct H as (_ & c' & s' & E & Hacc). injection E as <- _.
  simpl in Hacc. exfalso.
  simpl in Hr. destruct Hr as [<-|[<-|[<-|[]]]]; simpl in Hc;
    repeat (destruct Hc as [<-|Hc]; [discriminate Hacc|]); exact Hc.
Qed.

Lemma num_start prev c s :
  In c (list_ascii_of_string "<NUM>") -> rmatch NUM_RE prev (c :: s) = None.
Proof.
  intros Hc. destruct (rmatch NUM_RE prev (c :: s)) as [n|] eqn:H; auto.
  apply (rmatch_first (Plus CDigit) CDigit _ _ _ _ eq_refl) in H.
  destruct H as (_ & c' & s' & E & Hacc). injection E as <- _.
  simpl in Hacc. exfalso. simpl in Hc.
  repeat (destruct Hc as [<-|Hc]; [discriminate Hacc|]); exact Hc.
Qed.

Ltac one_inv H :=
  let c := fresh "c" in let s := fresh "s" in let n := fresh "n" in
  let Hc := fresh "Hc" in
  apply rmatch_One_inv in H; destruct H as (c & s & n & -> & Hc & -> & H);
  cbn [accepts] in Hc.

Lemma dash_not_word c : Ascii.eqb "-" c = true -> is_word c = false.
Proof. intros H. apply Ascii.eqb_eq in H. now subst c. Qed.

Lemma colon_not_word c : Ascii.eqb ":" c = true -> is_word c = false.
Proof. intros H. apply Ascii.eqb_eq in H. now subst c. Qed.

Lemma dot_not_word c : Ascii.eqb "." c = true -> is_word c = false.
Proof. intros H. apply Ascii.eqb_eq in H. now subst c. Qed.

(** The middle field of a date is a number between two dashes. *)
Lemma date_has_num prev s n :
  rmatch DATE_RE prev s = Some n ->
  exists p, p <= length s
            /\ rmatch NUM_RE (prev_at prev s p) (skipn p s) <> None.
Proof.
  intros H. cbv [DATE_RE times repeat app chr] in H.
  do 10 one_inv H.
  exists 5. split; [simpl; lia|]. cbn [prev_at skipn].
  rewrite (num_match _ _ 2); [discriminate | simpl; lia | | |].
  - cbn [word_before]. now apply dash_not_word.
  - cbn [firstn]. repeat constructor; assumption.
  - cbn [skipn word_at]. now apply dash_not_word.
Qed.

(** The middle field of a time is a number between two colons. *)
Lemma time_has_num prev s n :
  rmatch TIME_RE prev s = Some n ->
  exists p, p <= length s
            /\ rmatch NUM_RE (prev_at prev s p) (skipn p s) <> None.
Proof.
  intros H. cbv [TIME_RE times repeat app chr] in H.
  do 8 one_inv H.
  exists 3. split; [simpl; lia|]. cbn [prev_at skipn].
  rewrite (num_match _ _ 2); [discriminate | simpl; lia | | |].
  - cbn [word_before]. now apply colon_not_word.
  - cbn [firstn]. repeat constructor; assumption.
  - cbn [skipn word_at]. now apply colon_not_word.
Qed.

(** The second field of a dotted quad is a number between two dots. *)
Lemma ip_has_num prev s n :
  rmatch IP_RE prev s = Some n ->
  exists p, p <= length s
            /\ rmatch NUM_RE (prev_at prev s p) (skipn p s) <> None.
Proof.
  intros H. unfold IP_RE, chr in H.
  apply rmatch_Bound_inv in H. destruct H as [_ H].
  apply rmatch_Plus_inv in H.
  destruct H as (j1 & c1 & m1 & Hj1 & -> & _ & Hp1 & _ & H).
  apply rmatch_One_inv in H.
  destruct H as (d1 & s1 & n1 & E1 & Hd1 & -> & H). cbn [accepts] in Hd1.
  apply rmatch_Plus_inv in H.
  destruct H as (j2 & c2 & m2 & Hj2 & -> & Hall2 & _ & _ & H).
  apply rmatch_One_inv in H.
  destruct H as (d2 & s2 & n2 & E2 & Hd2 & -> & H). cbn [accepts] in Hd2.
  assert (Hlen : length s = j1 + S (length s1)).
  { rewrite <- (firstn_skipn j1 s) at 1.
    rewrite length_app, length_firstn, E1. simpl. lia. }
  exists (j1 + 1). split; [lia|].
  rewrite skipn_add, <- prev_at_add by lia.
  rewrite E1. cbn [prev_at skipn]. rewrite prev_at_0.
  rewrite (num_match _ _ j2); [discriminate | exact Hj2 | | exact Hall2 |].
  - cbn [word_before]. now apply dot_not_word.
  - rewrite E2. cbn [word_at]. now apply dot_not_word.
Qed.

(** A pattern whose matches contain a number is absent where no number
    is. *)
Lemma free_of_num r :
  (forall prev s n, rmatch r prev s = Some n ->
     exists p, p <= length s
               /\ rmatch NUM_RE (prev_at prev s p) (skipn p s) <> None) ->
  forall s prev, free NUM_RE prev s -> free r prev s.
Proof.
  intros Hr. induction s as [|c s IH]; intros prev Hf.
  - simpl. split; auto.
    destruct (rmatch r prev []) as [n|] eqn:H; auto.
    destruct (Hr _ _ _ H) as (p & Hp & Hnum). exfalso. apply Hnum.
    apply free_head. now apply free_skipn.
  - simpl. split.
    + destruct (rmatch r prev (c :: s)) as [n|] eqn:H; auto.
      destruct (Hr _ _ _ H) as (p & Hp & Hnum). exfalso. apply Hnum.
      apply free_head. now apply free_skipn.
    + apply IH. now destruct Hf.
Qed.

Lemma repl_head_not_uuid :
  forall repl, In repl ["<UUID>"%string; "<IP>"%string; "<NUM>"%string] ->
  exists a tl, list_ascii_of_string repl = a :: tl /\ uuid_char a = false.
Proof.
  intros repl [<-|[<-|[<-|[]]]]; simpl; eexists; eexists; split;
    try reflexivity; reflexivity.
Qed.

(** After the UUID rule no UUID is left. *)
Lemma uuid_free_after_uuid s :
  free UUID_RE None (sub UUID_RE (list_ascii_of_string "<UUID>") s).
Proof.
  apply (preserve UUID_RE UUID_RE _ uuid_char (shape_i uuid_shape)).
  - intros prev c t. apply (uuid_start "<UUID>"). simpl; auto.
  - exact uuid_cong.
  - exact (shape_j uuid_shape).
  - apply repl_head_not_uuid. simpl; auto.
  - apply free_where_self.
Qed.

(** The IP rule and the number rule bring no UUID back. *)
Lemma uuid_free_after_ip s :
  free UUID_RE None s ->
  free UUID_RE None (sub IP_RE (list_ascii_of_string "<IP>") s).
Proof.
  intros Hf.
  apply (preserve UUID_RE IP_RE _ uuid_char (shape_i uuid_shape)).
  - intros prev c t. apply (uuid_start "<IP>"). simpl; auto.
  - exact uuid_cong.
  - exact (shape_j ip_shape).
  - apply repl_head_not_uuid. simpl; auto.
  - now apply free_free_where.
Qed.

Lemma uuid_free_after_num s :
  free UUID_RE None s ->
  free UUID_RE None (sub NUM_RE (list_ascii_of_string "<NUM>") s).
Proof.
  intros Hf.
  apply (preserve UUID_RE NUM_RE _ uuid_char (shape_i uuid_shape)).
  - intros prev c t. apply (uuid_start "<NUM>"). simpl; auto.
  - exact uuid_cong.
  - exact (shape_j num_shape).
  - apply repl_head_not_uuid. simpl; auto.
  - now apply free_free_where.
Qed.

(** After the number rule no number is left. *)
Lemma num_free_after_num s :
  free NUM_RE None (sub NUM_RE (list_ascii_of_string "<NUM>") s).
Proof.
  apply (preserve NUM_RE NUM_RE _ is_digit (shape_i num_shape)).
  - intros prev c t. apply num_start.
  - exact num_cong.
  - exact (shape_j num_shape).
  - simpl. eexists. eexists. split; reflexivity.
  - apply free_where_self.
Qed.

Lemma normalize_chars_unfold x :
  normalize_chars x =
  sub NUM_RE (list_ascii_of_string "<NUM>")
    (sub IP_RE (list_ascii_of_string "<IP>")
       (sub UUID_RE (list_ascii_of_string "<UUID>")
          (sub TIME_RE (list_ascii_of_string "<TIME>")
             (sub DATE_RE (list_ascii_of_string "<DATE>") x)))).
Proof. reflexivity. Qed.

(** In a normalized message none of the five patterns matches anywhere. *)
Lemma normalized_free x :
  let z := normalize_chars x in
  free DATE_RE None z /\ free TIME_RE None z /\ free UUID_RE None z
  /\ free IP_RE None z /\ free NUM_RE None z.
Proof.
  intros z. unfold z. rewrite normalize_chars_unfold.
  assert (Hnum := num_free_after_num
    (sub IP_RE (list_ascii_of_string "<IP>")
       (sub UUID_RE (list_ascii_of_string "<UUID>")
          (sub TIME_RE (list_ascii_of_string "<TIME>")
             (sub DATE_RE (list_ascii_of_string "<DATE>") x))))).
  repeat split.
  - exact (free_of_num DATE_RE date_has_num _ _ Hnum).
  - exact (free_of_num TIME_RE time_has_num _ _ Hnum).
  - apply uuid_free_after_num, uuid_free_after_ip, uuid_free_after_uuid.
  - exact (free_of_num IP_RE ip_has_num _ _ Hnum).
  - exact Hnum.
Qed.

Lemma normalize_chars_idempotent x :
  normalize_chars (normalize_chars x) = normalize_chars x.
Proof.
  destruct (normalized_free x) as (Hd & Ht & Hu & Hi & Hn).
  rewrite (normalize_chars_unfold (normalize_chars x)).
  unfold sub in *.
  now rewrite (free_sub_id _ _ _ _ Hd), (free_sub_id _ _ _ _ Ht),
    (free_sub_id _ _ _ _ Hu), (free_sub_id _ _ _ _ Hi), (free_sub_id _ _ _ _ Hn).
Qed.

(** C2.  The normalizer, that is the five masking rules (ISO date, time,
    UUID, IPv4, digit run) applied in that order with [re.sub], is
    idempotent: normalizing a normalized message changes nothing. *)
Theorem normalize_idempotent (x : string) :
  _normalize_message (_normalize_message x) = _normalize_message x.
Proof.
  unfold _normalize_message.
  now rewrite list_ascii_of_string_of_list_ascii, normalize_chars_idempotent.
Qed.

End NormalizeFacts.

(* ===================================================================== *)
(** * More about the deduplicator: counts, windows, services *)
(* ===================================================================== *)

Module DedupMore.
Import Dedup DedupReport Samples.

(** Sums of a count over the values of a dict. *)
Section Totals.
Context {V : Type} (cnt : V -> Z).

Lemma fold_sum_from (l : list V) : forall acc,
  fold_left (fun acc v => acc + cnt v) l acc =
  acc + fold_left (fun acc v => acc + cnt v) l 0.
Proof.
  induction l as [|v l IH]; intros acc; simpl; [lia|].
  rewrite (IH (acc + cnt v)), (IH (cnt v)). lia.
Qed.

Lemma total_cons k v (d : Dict.t V) : DictSum.total cnt ((k, v) :: d) = cnt v + DictSum.total cnt d.
Proof. unfold DictSum.total. simpl. now rewrite fold_sum_from. Qed.

Lemma total_set_known (d : Dict.t V) k v v' :
  Dict.get k d = Some v -> DictSum.total cnt (Dict.set k v' d) = DictSum.total cnt d - cnt v + cnt v'.
Proof.
  induction d as [|[k0 v0] d IH]; simpl; [discriminate|].
  destruct (String.eqb k k0); intros H.
  - injection H as ->. rewrite !total_cons. lia.
  - rewrite !total_cons, (IH H). lia.
Qed.

Lemma total_set_new (d : Dict.t V) k v' :
  Dict.get k d = None -> DictSum.total cnt (Dict.set k v' d) = DictSum.total cnt d + cnt v'.
Proof.
  induction d as [|[k0 v0] d IH]; simpl.
  - intros _. rewrite total_cons. unfold DictSum.total. simpl. lia.
  - destruct (String.eqb k k0); intros H; [discriminate|].
    rewrite !total_cons, (IH H). lia.
Qed.

Lemma length_set (d : Dict.t V) k v' :
  length (Dict.set k v' d) =
  match Dict.get k d with
  | Some _ => length d
  | None => S (length d)
  end.
Proof.
  induction d as [|[k0 v0] d IH]; simpl; auto.
  destruct (String.eqb k k0); simpl; auto.
  rewrite IH. now destruct (Dict.get k d).
Qed.

End Totals.

Lemma process_alert_total self alert :
  total_processed (fst (process_alert self alert)) = total_processed self + 1.
Proof.
  unfold total_processed, process_alert.
  change (fold_left (fun acc g => acc + AlertGroup.count g)
            (Dict.values (groups self)) 0)
    with (DictSum.total AlertGroup.count (groups self)).
  destruct (Dict.get (_get_signature alert) (groups self)) as [g|] eqn:Hg.
  - destruct (timestamp alert - AlertGroup.last_seen g <? SUPPRESSION_WINDOW);
      cbn [fst groups];
      match goal with |- fold_left _ (Dict.values ?d) 0 = _ =>
        change (fold_left (fun acc g => acc + AlertGroup.count g)
                  (Dict.values d) 0) with (DictSum.total AlertGroup.count d) end;
      rewrite (total_set_known _ _ _ _ _ Hg); cbn [AlertGroup.count]; lia.
  - cbn [fst groups].
    match goal with |- fold_left _ (Dict.values ?d) 0 = _ =>
      change (fold_left (fun acc g => acc + AlertGroup.count g)
                (Dict.values d) 0) with (DictSum.total AlertGroup.count d) end.
    rewrite (total_set_new _ _ _ _ Hg). cbn [AlertGroup.count]. lia.
Qed.

Lemma run_total alerts : forall self,
  total_processed (fst (run self alerts)) =
  total_processed self + Z.of_nat (length alerts).
Proof.
  induction alerts as [|a rest IH]; intros self.
  - simpl. lia.
  - cbn [run]. pose proof (process_alert_total self a) as H1.
    destruct (process_alert self a) as [self1 sent]. cbn [fst] in H1.
    specialize (IH self1). destruct (run self1 rest) as [self2 trace].
    cbn [fst] in *. rewrite IH, H1. simpl length. lia.
Qed.

(** X1.  Count conservation: whatever the store was, processing a list of
    alerts adds exactly its length to the total_alerts_processed of
    [get_summary]; every alert is counted once, sent or suppressed. *)
Theorem alerts_counted (now : Z) (self : AlertDeduplicator) (alerts : list Alert) :
  total_alerts_processed (get_summary now (fst (run self alerts))) =
  total_alerts_processed (get_summary now self) + Z.of_nat (length alerts).
Proof. apply run_total. Qed.

Lemma run_trace_fst alerts : forall self, map fst (snd (run self alerts)) = alerts.
Proof.
  induction alerts as [|a rest IH]; intros self; [reflexivity|].
  cbn [run]. destruct (process_alert self a) as [self1 sent].
  specialize (IH self1). destruct (run self1 rest) as [self2 trace].
  cbn [snd map fst] in *. now rewrite IH.
Qed.

Lemma process_alert_new_is_sent self alert :
  (length (groups (fst (process_alert self alert))) <=
   length (groups self) + (if snd (process_alert self alert) then 1 else 0))%nat.
Proof.
  unfold process_alert.
  destruct (Dict.get (_get_signature alert) (groups self)) as [g|] eqn:Hg.
  - destruct (timestamp alert - AlertGroup.last_seen g <? SUPPRESSION_WINDOW);
      cbn [fst snd groups]; rewrite length_set, Hg; lia.
  - cbn [fst snd groups]. rewrite length_set, Hg. lia.
Qed.

Lemma run_new_are_sent alerts : forall self,
  (length (groups (fst (run self alerts))) <=
   length (groups self) + length (filter snd (snd (run self alerts))))%nat.
Proof.
  induction alerts as [|a rest IH]; intros self.
  - simpl. lia.
  - cbn [run]. pose proof (process_alert_new_is_sent self a) as H1.
    destruct (process_alert self a) as [self1 sent]. cbn [fst snd] in H1.
    specialize (IH self1). destruct (run self1 rest) as [self2 trace].
    cbn [fst snd filter] in *. destruct sent; cbn [length]; lia.
Qed.

(** X2.  The counters of a demo run ([main]: a fresh deduplicator fed a
    list of alerts): the notifications sent and the alerts suppressed add
    up to the alerts processed, which is the length of the list, and at
    least one notification is sent for every alert type stored. *)
Theorem sent_and_suppressed (now : Z) (alerts : list Alert) :
  let r := run init alerts in
  let summary := get_summary now (fst r) in
  sent_count (snd r) + alerts_suppressed summary = total_alerts_processed summary
  /\ total_alerts_processed summary = Z.of_nat (length alerts)
  /\ unique_alert_types summary <= sent_count (snd r)
  /\ 0 <= alerts_suppressed summary.
Proof.
  intros r summary.
  assert (Htot : total_alerts_processed summary = Z.of_nat (length alerts)).
  { unfold summary, r, get_summary. cbn [total_alerts_processed].
    now rewrite run_total. }
  destruct (DedupFacts.dedup_run_krun alerts init) as (_ & _ & Hs).
  pose proof (filter_length snd (snd (run init alerts))) as Hlen.
  rewrite <- (length_map fst (snd (run init alerts))), run_trace_fst in Hlen.
  pose proof (run_new_are_sent alerts init) as Hnew.
  unfold summary, r, get_summary, sent_count in *.
  cbn [total_alerts_processed alerts_suppressed unique_alert_types] in *.
  rewrite Hs. cbn [init suppressed_count groups length] in *.
  unfold suppressed at 1.
  repeat split; lia.
Qed.

(** X3.  After any run from an empty store every group is stored under its
    own signature, which is the hash of its own name and severity; it has
    counted at least one alert, and all the alerts it holds have that
    signature. *)
Theorem group_is_consistent (alerts : list Alert) (k : string) (g : AlertGroup.t) :
  Dict.get k (groups (fst (run init alerts))) = Some g ->
  AlertGroup.signature g = k
  /\ md5_hex12 (AlertGroup.name g ++ "|" ++ value (AlertGroup.severity g))%string = k
  /\ 1 <= AlertGroup.count g
  /\ AlertGroup.alerts g <> []
  /\ Forall (fun a => _get_signature a = k) (AlertGroup.alerts g).
Proof.
  intros Hg.
  destruct (DedupFacts.group_shape alerts k g Hg)
    as (a0 & rest & Hf & Sg & Nm & Sv & _ & _ & Cn & Al).
  assert (Hall : Forall (fun a => _get_signature a = k) (a0 :: rest)).
  { rewrite <- Hf. apply Forall_forall. intros a Ha.
    apply filter_In in Ha. destruct Ha as [_ Ha]. now apply String.eqb_eq in Ha. }
  repeat split; auto.
  - rewrite Nm, Sv. exact (Forall_inv Hall).
  - rewrite Cn. simpl length. lia.
  - rewrite Al. discriminate.
  - now rewrite Al.
Qed.

Lemma group_is_consistent_witness :
  exists g,
    Dict.get "ef2e0d8b2bdf"
      (groups (fst (run init [high_error_rate "api" 0; high_cpu "api" 5])))
      = Some g
    /\ AlertGroup.signature g = "ef2e0d8b2bdf".
Proof.
  assert (Hg : { g | Dict.get "ef2e0d8b2bdf"
      (groups (fst (run init [high_error_rate "api" 0; high_cpu "api" 5])))
      = Some g }).
  { eexists. vm_compute. reflexivity. }
  destruct Hg as [g Hg]. exists g. split; [exact Hg|].
  exact (proj1 (group_is_consistent _ _ _ Hg)).
Defined.

(** X4.  No eviction: a group that is in the store is still there after any
    further alerts, with the same signature, name, severity and first_seen;
    its count has grown by the number of further alerts of its signature
    and these alerts were appended to its list, in order. *)
Theorem group_is_never_evicted
    (self : AlertDeduplicator) (alerts : list Alert) (k : string) (g : AlertGroup.t) :
  Dict.get k (groups self) = Some g ->
  exists g',
    Dict.get k (groups (fst (run self alerts))) = Some g'
    /\ AlertGroup.signature g' = AlertGroup.signature g
    /\ AlertGroup.name g' = AlertGroup.name g
    /\ AlertGroup.severity g' = AlertGroup.severity g
    /\ AlertGroup.first_seen g' = AlertGroup.first_seen g
    /\ AlertGroup.count g' =
       AlertGroup.count g + Z.of_nat (length (filter (with_signature k) alerts))
    /\ AlertGroup.alerts g' =
       AlertGroup.alerts g ++ filter (with_signature k) alerts.
Proof.
  intros Hg. destruct (DedupFacts.dedup_run_proj k alerts self) as [Hp _].
  rewrite Hg in Hp.
  destruct (DedupFacts.grun_group (filter (with_signature k) alerts) g)
    as (g' & Hg' & A1 & A2 & A3 & A4 & A5 & A6 & _).
  exists g'. rewrite Hp, Hg'. repeat split; auto.
Qed.

Lemma group_is_never_evicted_witness :
  exists g',
    Dict.get "ef2e0d8b2bdf"
      (groups (fst (run (fst (process_alert init (high_error_rate "api" 0)))
                        [high_cpu "api" 5; high_error_rate "auth" 10])))
      = Some g'
    /\ AlertGroup.first_seen g' = 0.
Proof.
  assert (Hg : { g | Dict.get "ef2e0d8b2bdf"
      (groups (fst (process_alert init (high_error_rate "api" 0)))) = Some g
      /\ AlertGroup.first_seen g = 0 }).
  { eexists. vm_compute. split; reflexivity. }
  destruct Hg as [g [Hg Hf]].
  destruct (group_is_never_evicted _ [high_cpu "api" 5; high_error_rate "auth" 10]
              _ _ Hg) as (g' & H1 & _ & _ & _ & H2 & _).
  exists g'. split; [exact H1 | congruence].
Defined.

Lemma grun_gap l : forall og,
  snd (Keyed.grun upsert_group og l) =
  map some_decision (gap_decisions (option_map AlertGroup.last_seen og) l).
Proof.
  induction l as [|a rest IH]; intros og; [reflexivity|].
  cbn [Keyed.grun gap_decisions map].
  pose proof (DedupClaims.upsert_group_last_seen og a) as Hl.
  destruct (upsert_group og a) as [g dec] eqn:Hu. cbn [fst] in Hl.
  specialize (IH (Some g)). cbn [option_map] in IH. rewrite Hl in IH.
  destruct (Keyed.grun upsert_group (Some g) rest) as [og' tr].
  cbn [snd] in *. rewrite IH. f_equal.
  unfold some_decision. cbn [fst snd]. f_equal. f_equal.
  unfold upsert_group in Hu. destruct og as [g0|]; cbn [option_map].
  - destruct (timestamp a - AlertGroup.last_seen g0 <? SUPPRESSION_WINDOW);
      now injection Hu as _ <-.
  - now injection Hu as _ <-.
Qed.

Lemma decisions_of_signature self alerts k :
  filter (fun p => with_signature k (fst p)) (snd (run self alerts)) =
  gap_decisions (option_map AlertGroup.last_seen (Dict.get k (groups self)))
                (filter (with_signature k) alerts).
Proof.
  destruct (DedupFacts.dedup_run_proj k alerts self) as [_ Hp].
  rewrite grun_gap in Hp.
  now apply GroupingClaims.map_some_decision_inj.
Qed.

(** X5.  The window slides: among the alerts of one signature, in the order
    processed, the first one a store sees is sent and each later one is
    suppressed exactly when it comes less than five minutes after the
    alert of that signature processed just before it, whatever alerts of
    other signatures come in between. *)
Theorem decisions_follow_gaps
    (self : AlertDeduplicator) (alerts : list Alert) (k : string) :
  filter (fun p => with_signature k (fst p)) (snd (run self alerts)) =
  gap_decisions (option_map AlertGroup.last_seen (Dict.get k (groups self)))
                (filter (with_signature k) alerts).
Proof. apply decisions_of_signature. Qed.

Lemma gap_decisions_within rest : forall t,
  within_window t rest ->
  map snd (gap_decisions (Some t) rest) = repeat false (length rest).
Proof.
  induction rest as [|a rest IH]; intros t Hw; [reflexivity|].
  destruct Hw as [Hlt Hw]. cbn [gap_decisions map snd length repeat].
  rewrite (IH _ Hw). f_equal.
  now destruct (Z.ltb_spec (timestamp a - t) SUPPRESSION_WINDOW); [|lia].
Qed.

Lemma filter_all {A : Type} (p : A -> bool) (l : list A) :
  Forall (fun x => p x = true) l -> filter p l = l.
Proof.
  induction 1 as [|x l Hx Hl IH]; simpl; auto. now rewrite Hx, IH.
Qed.

(** X6.  An alert storm gives one notification: when a fresh deduplicator
    is fed alerts of one signature, each less than five minutes after the
    one before, the first is sent and all the others are suppressed,
    however long the storm lasts. *)
Theorem storm_is_sent_once (a0 : Alert) (rest : list Alert) :
  Forall (fun a => _get_signature a = _get_signature a0) rest ->
  within_window (timestamp a0) rest ->
  map snd (snd (run init (a0 :: rest))) = true :: repeat false (length rest).
Proof.
  intros Hsig Hw.
  assert (Hall : Forall (fun a => with_signature (_get_signature a0) a = true)
                        (a0 :: rest)).
  { constructor; [apply String.eqb_refl|].
    eapply Forall_impl; [|exact Hsig]. intros a Ha.
    unfold with_signature. rewrite Ha. apply String.eqb_refl. }
  pose proof (decisions_of_signature init (a0 :: rest) (_get_signature a0)) as H.
  rewrite (filter_all _ _ Hall) in H.
  rewrite filter_all in H.
  - rewrite H. cbn [init groups Dict.get option_map gap_decisions map snd].
    f_equal. now apply gap_decisions_within.
  - apply Forall_forall. intros p Hp.
    rewrite Forall_forall in Hall. apply Hall.
    rewrite <- (run_trace_fst (a0 :: rest) init). now apply in_map.
Qed.

Lemma storm_is_sent_once_witness :
  map snd (snd (run init [high_error_rate "api" 0; high_error_rate "auth" 200;
                          high_error_rate "api" 450; high_error_rate "api" 700]))
  = [true; false; false; false].
Proof.
  apply (storm_is_sent_once (high_error_rate "api" 0)
           [high_error_rate "auth" 200; high_error_rate "api" 450;
            high_error_rate "api" 700]).
  - repeat (apply Forall_cons; [vm_compute; reflexivity|]). apply Forall_nil.
  - vm_compute. repeat split.
Defined.

(** X7.  The group of an alert that was just processed is active: it is in
    the list [get_active_groups] returns at any time less than 30 minutes
    after the timestamp of the alert. *)
Theorem processed_group_is_active
    (self : AlertDeduplicator) (alert : Alert) (now : Z) :
  now - timestamp alert < 30 * 60 * 1000000 ->
  exists g,
    Dict.get (_get_signature alert) (groups (fst (process_alert self alert)))
      = Some g
    /\ In g (get_active_groups now (fst (process_alert self alert))).
Proof.
  intros Hnow.
  destruct (DedupClaims.process_alert_get self alert) as [Hg _].
  eexists. split; [exact Hg|].
  unfold get_active_groups. apply filter_In. split.
  - now apply (DictFacts.get_In _ _ _ Hg).
  - rewrite DedupClaims.upsert_group_last_seen. now apply Z.ltb_lt.
Qed.

Lemma processed_group_is_active_witness :
  exists g,
    In g (get_active_groups (seconds 1700)
            (fst (process_alert init (high_error_rate "api" 0)))).
Proof.
  destruct (processed_group_is_active init (high_error_rate "api" 0) (seconds 1700))
    as (g & _ & Hin).
  - vm_compute. reflexivity.
  - now exists g.
Defined.

Lemma insert_by_timestamp_perm a l :
  Permutation (insert_by_timestamp a l) (a :: l).
Proof.
  induction l as [|h l IH]; simpl; auto.
  destruct (timestamp a <=? timestamp h); auto.
  eapply Permutation_trans; [apply perm_skip, IH | apply perm_swap].
Qed.

Lemma insert_by_timestamp_sorted a l :
  Sorted not_later l -> Sorted not_later (insert_by_timestamp a l).
Proof.
  induction 1 as [|h l Hs IH Hhd]; simpl.
  - repeat constructor.
  - destruct (Z.leb_spec (timestamp a) (timestamp h)).
    + constructor; [now constructor|]. now constructor.
    + constructor; auto.
      destruct l as [|h' l']; simpl.
      * constructor. unfold not_later. lia.
      * inversion Hhd; subst.
        destruct (timestamp a <=? timestamp h'); constructor; auto.
        unfold not_later. lia.
Qed.

Lemma sorted_by_timestamp_sorted alerts :
  Sorted not_later (sorted_by_timestamp alerts).
Proof.
  induction alerts as [|a l IH]; simpl; [constructor|].
  now apply insert_by_timestamp_sorted.
Qed.

Lemma sorted_by_timestamp_perm alerts :
  Permutation (sorted_by_timestamp alerts) alerts.
Proof.
  induction alerts as [|a l IH]; simpl; auto.
  eapply Permutation_trans; [apply insert_by_timestamp_perm | now constructor].
Qed.

Lemma strongly_sorted_filter {A : Type} (R : A -> A -> Prop) (p : A -> bool) l :
  StronglySorted R l -> StronglySorted R (filter p l).
Proof.
  induction 1 as [|x l Hs IH Hall]; simpl; [constructor|].
  destruct (p x); auto. constructor; auto.
  apply Forall_forall. intros y Hy. apply filter_In in Hy.
  rewrite Forall_forall in Hall. now apply Hall.
Qed.

(** X8.  [AlertGenerator.generate] hands its alerts over sorted by
    timestamp: the sorted list is a permutation of the alerts, earliest
    first, and a fresh deduplicator fed with it ends with last_seen >=
    first_seen in every group. *)
Theorem sorted_feed_keeps_order (alerts : list Alert) :
  let fed := sorted_by_timestamp alerts in
  Permutation fed alerts
  /\ Sorted not_later fed
  /\ forall k g,
       Dict.get k (groups (fst (run init fed))) = Some g ->
       AlertGroup.first_seen g <= AlertGroup.last_seen g.
Proof.
  intros fed. split; [apply sorted_by_timestamp_perm|].
  split; [apply sorted_by_timestamp_sorted|].
  intros k g Hg.
  destruct (DedupFacts.group_shape fed k g Hg)
    as (a0 & rest & Hf & _ & _ & _ & F & L & _).
  assert (Hss : StronglySorted not_later (a0 :: rest)).
  { rewrite <- Hf. apply strongly_sorted_filter.
    apply Sorted_StronglySorted; [|apply sorted_by_timestamp_sorted].
    intros x y z. unfold not_later. lia. }
  inversion Hss as [|x l _ Hall]; subst.
  rewrite F, L. apply DedupClaims.last_ge; [lia | exact Hall].
Qed.

Lemma upsert_group_services g a :
  services_ok g -> services_ok (fst (upsert_group (Some g) a)).
Proof.
  intros (Hnd & Hsub & Hhd & Hne). unfold upsert_group.
  assert (Hhd' : option_map service (hd_error (AlertGroup.alerts g ++ [a])) =
                 hd_error (AlertGroup.services g)).
  { destruct (AlertGroup.alerts g); [congruence | exact Hhd]. }
  assert (Hne' : AlertGroup.alerts g ++ [a] <> []).
  { destruct (AlertGroup.alerts g); discriminate. }
  assert (Hsub' : forall s, In s (AlertGroup.services g) ->
            exists a', In a' (AlertGroup.alerts g ++ [a]) /\ service a' = s).
  { intros s Hs. destruct (Hsub s Hs) as (a' & Ha' & Hs').
    exists a'. split; auto. apply in_or_app. now left. }
  destruct (timestamp a - AlertGroup.last_seen g <? SUPPRESSION_WINDOW);
    cbn [fst]; unfold services_ok;
    cbn [AlertGroup.services AlertGroup.alerts]; [|now repeat split].
  unfold append_if_absent.
  destruct (existsb (String.eqb (service a)) (AlertGroup.services g)) eqn:Hex;
    [now repeat split|].
  repeat split; auto.
  - apply (Permutation_NoDup (l := service a :: AlertGroup.services g)).
    + apply Permutation_cons_append.
    + constructor; auto. intros Hin.
      assert (Hex' : existsb (String.eqb (service a)) (AlertGroup.services g) = true).
      { apply existsb_exists. exists (service a). split; auto.
        apply String.eqb_refl. }
      congruence.
  - intros s Hs. apply in_app_or in Hs. destruct Hs as [Hs|[<-|[]]]; auto.
    exists a. split; auto. apply in_or_app. right. now left.
  - rewrite Hhd'. destruct (AlertGroup.services g) as [|s0 l] eqn:Hsv; auto.
    destruct (AlertGroup.alerts g); [congruence|]. simpl in Hhd. discriminate.
Qed.

Lemma grun_services l : forall g,
  services_ok g ->
  forall g', fst (Keyed.grun upsert_group (Some g) l) = Some g' -> services_ok g'.
Proof.
  induction l as [|a rest IH]; intros g Hok g' Hg'.
  - simpl in Hg'. now injection Hg' as <-.
  - cbn [Keyed.grun] in Hg'.
    pose proof (upsert_group_services g a Hok) as Hok1.
    destruct (upsert_group (Some g) a) as [g1 dec]. cbn [fst] in Hok1.
    specialize (IH g1 Hok1 g').
    destruct (Keyed.grun upsert_group (Some g1) rest) as [og tr].
    cbn [fst] in *. now apply IH.
Qed.

(** X9.  After any run from an empty store the services of a group are
    pairwise distinct, each of them is the service of an alert the group
    holds, and the first of them is the service of the group's first
    alert. *)
Theorem services_are_distinct_senders
    (alerts : list Alert) (k : string) (g : AlertGroup.t) :
  Dict.get k (groups (fst (run init alerts))) = Some g ->
  NoDup (AlertGroup.services g)
  /\ (forall s, In s (AlertGroup.services g) ->
        exists a, In a (AlertGroup.alerts g) /\ service a = s)
  /\ option_map service (hd_error (AlertGroup.alerts g)) =
     hd_error (AlertGroup.services g).
Proof.
  intros Hg. destruct (DedupFacts.dedup_run_proj k alerts init) as [Hp _].
  rewrite Hp in Hg. cbn [init groups Dict.get] in Hg.
  destruct (filter (with_signature k) alerts) as [|a0 rest]; [discriminate|].
  cbn [Keyed.grun upsert_group] in Hg.
  match type of Hg with context [Keyed.grun upsert_group (Some ?g0) rest] =>
    pose proof (grun_services rest g0) as Hs;
    destruct (Keyed.grun upsert_group (Some g0) rest) as [og tr] end.
  cbn [fst] in *.
  destruct (Hs) with (g' := g) as (H1 & H2 & H3 & _); auto.
  unfold services_ok. cbn [AlertGroup.services AlertGroup.alerts hd_error option_map].
  repeat split; try discriminate.
  - repeat constructor. intros [].
  - intros s [<-|[]]. exists a0. split; auto. now left.
Qed.

Lemma services_are_distinct_senders_witness :
  exists g,
    Dict.get "ef2e0d8b2bdf"
      (groups (fst (run init [high_error_rate "api" 0; high_error_rate "auth" 5;
                              high_error_rate "api" 9]))) = Some g
    /\ NoDup (AlertGroup.services g).
Proof.
  assert (Hg : { g | Dict.get "ef2e0d8b2bdf"
      (groups (fst (run init [high_error_rate "api" 0; high_error_rate "auth" 5;
                              high_error_rate "api" 9]))) = Some g }).
  { eexists. vm_compute. reflexivity. }
  destruct Hg as [g Hg]. exists g. split; [exact Hg|].
  exact (proj1 (services_are_distinct_senders _ _ _ Hg)).
Defined.

End DedupMore.

(* ===================================================================== *)
(** * More about the classifier: counts, noise, actionable clusters *)
(* ===================================================================== *)

Module ClassifierMore.
Import Classifier ClassifierReport Samples.

Lemma total_errors_eq self :
  total_errors self = DictSum.total count (clusters self).
Proof. reflexivity. Qed.

Lemma classify_total self entry :
  grand_total (fst (classify self entry)) = grand_total self + 1.
Proof.
  unfold grand_total. rewrite !total_errors_eq. unfold classify.
  destruct (_is_noise entry); [cbn [fst clusters noise_count]; lia|].
  destruct (Dict.get (md5_hex12 (_normalize_message (message entry)))
                     (clusters self)) as [c|] eqn:Hc;
    cbn [fst clusters noise_count].
  - rewrite (DedupMore.total_set_known _ _ _ _ _ Hc). cbn [count]. lia.
  - rewrite (DedupMore.total_set_new _ _ _ _ Hc). cbn [count]. lia.
Qed.

Lemma classify_noise self entry :
  noise_count (fst (classify self entry)) =
  noise_count self + (if _is_noise entry then 1 else 0).
Proof.
  unfold classify. destruct (_is_noise entry); [reflexivity|].
  destruct (Dict.get _ (clusters self)); cbn [fst noise_count]; lia.
Qed.

Lemma run_totals entries : forall self,
  grand_total (fst (run self entries)) =
    grand_total self + Z.of_nat (length entries)
  /\ noise_count (fst (run self entries)) =
    noise_count self + Z.of_nat (length (filter _is_noise entries)).
Proof.
  induction entries as [|e rest IH]; intros self.
  - simpl. split; lia.
  - cbn [run]. pose proof (classify_total self e) as H1.
    pose proof (classify_noise self e) as H2.
    destruct (classify self e) as [self1 sig]. cbn [fst] in H1, H2.
    destruct (IH self1) as [I1 I2]. destruct (run self1 rest) as [self2 trace].
    cbn [fst filter] in *. rewrite I1, I2, H1, H2.
    destruct (_is_noise e); simpl length; split; lia.
Qed.

(** X10.  Count conservation in the classifier: whatever the store was,
    classifying a list of entries adds its length to the total_entries of
    [get_summary] and the number of its noise entries to noise_filtered:
    every entry is counted once, as noise or in exactly one cluster. *)
Theorem entries_counted (self : LogClassifier) (entries : list LogEntry) :
  total_entries (get_summary (fst (run self entries))) =
    total_entries (get_summary self) + Z.of_nat (length entries)
  /\ noise_filtered (get_summary (fst (run self entries))) =
    noise_filtered (get_summary self)
    + Z.of_nat (length (filter _is_noise entries)).
Proof. apply run_totals. Qed.

Lemma classify_clusters_only self self' entry :
  clusters self = clusters self' ->
  clusters (fst (classify self entry)) = clusters (fst (classify self' entry))
  /\ snd (classify self entry) = snd (classify self' entry).
Proof.
  intros H. unfold classify. rewrite H.
  destruct (_is_noise entry); [auto|].
  destruct (Dict.get _ (clusters self')); auto.
Qed.

Lemma run_without_noise entries : forall self self',
  clusters self = clusters self' ->
  clusters (fst (run self entries)) =
  clusters (fst (run self' (filter not_noise entries))).
Proof.
  induction entries as [|e rest IH]; intros self self' H; [exact H|].
  cbn [run filter]. unfold not_noise at 1.
  destruct (_is_noise e) eqn:He; cbn [negb].
  - assert (H1 : clusters (fst (classify self e)) = clusters self').
    { unfold classify. now rewrite He. }
    destruct (classify self e) as [self1 sig]. cbn [fst] in H1.
    specialize (IH self1 self' H1).
    destruct (run self1 rest) as [self2 trace]. exact IH.
  - cbn [run].
    destruct (classify_clusters_only self self' e H) as [H1 _].
    destruct (classify self e) as [self1 sig].
    destruct (classify self' e) as [self1' sig']. cbn [fst] in H1.
    specialize (IH self1 self1' H1).
    destruct (run self1 rest) as [self2 trace].
    destruct (run self1' (filter not_noise rest)) as [self2' trace'].
    exact IH.
Qed.

(** X11.  Noise leaves no trace in the clusters: classifying a list of
    entries gives the same clusters dict, entry for entry and in the same
    order, as classifying the list without its noise entries. *)
Theorem noise_leaves_clusters_alone (self : LogClassifier) (entries : list LogEntry) :
  clusters (fst (run self entries)) =
  clusters (fst (run self (filter not_noise entries))).
Proof. now apply run_without_noise. Qed.

(** X12.  What [classify] returns for an entry that is not noise is the key
    of a cluster of the store it leaves; that cluster has the timestamp of
    the entry as last_seen and one more than the count the signature had
    before (1 when it was new); no other cluster and not the noise tally
    are changed. *)
Theorem classify_then_lookup (self : LogClassifier) (entry : LogEntry) :
  _is_noise entry = false ->
  let self' := fst (classify self entry) in
  snd (classify self entry) = Some (signature_of entry)
  /\ noise_count self' = noise_count self
  /\ (exists c,
        Dict.get (signature_of entry) (clusters self') = Some c
        /\ last_seen c = timestamp entry
        /\ count c =
           match Dict.get (signature_of entry) (clusters self) with
           | Some c0 => count c0 + 1
           | None => 1
           end)
  /\ forall k, k <> signature_of entry ->
       Dict.get k (clusters self') = Dict.get k (clusters self).
Proof.
  intros Hn self'. unfold self', classify, signature_of. rewrite Hn.
  destruct (Dict.get (md5_hex12 (_normalize_message (message entry)))
                     (clusters self)) as [c0|];
    cbn [fst snd clusters noise_count]; repeat split; auto;
    try (eexists; split; [apply DictFacts.get_set_eq | split; reflexivity]);
    intros k Hk; now apply DictFacts.get_set_ne.
Qed.

Lemma classify_then_lookup_witness :
  snd (classify init (log_line "disk full" 3)) =
  Some (signature_of (log_line "disk full" 3)).
Proof.
  refine (proj1 (classify_then_lookup init (log_line "disk full" 3) _)).
  vm_compute. reflexivity.
Defined.

Lemma run_keys_nodup entries : forall self,
  NoDup (Dict.keys (clusters self)) ->
  NoDup (Dict.keys (clusters (fst (run self entries)))).
Proof.
  induction entries as [|e rest IH]; intros self H; [exact H|].
  cbn [run].
  assert (H1 : NoDup (Dict.keys (clusters (fst (classify self e))))).
  { unfold classify. destruct (_is_noise e); [exact H|].
    destruct (Dict.get _ (clusters self)); cbn [fst clusters];
      now apply DictFacts.NoDup_set. }
  destruct (classify self e) as [self1 sig]. cbn [fst] in H1.
  specialize (IH self1 H1). destruct (run self1 rest) as [self2 trace].
  exact IH.
Qed.

(** X13.  After any run from an empty store a cluster is returned by
    [get_actionable_errors(min_count)] exactly when it is stored under a
    signature that at least min_count of the processed entries that are
    not noise have. *)
Theorem actionable_iff_repeated
    (entries : list LogEntry) (min_count : Z) (c : ErrorCluster) :
  let self := fst (run init entries) in
  In c (get_actionable_errors min_count self) <->
  exists k, Dict.get k (clusters self) = Some c
            /\ min_count <= Z.of_nat (length (filter (with_signature k) entries)).
Proof.
  intros self. unfold get_actionable_errors. rewrite filter_In. split.
  - intros [Hin Hc]. apply andb_prop in Hc. destruct Hc as [_ Hc].
    apply Z.leb_le in Hc.
    destruct (DictFacts.In_get (clusters self) c) as [k Hk]; auto.
    { apply run_keys_nodup. constructor. }
    exists k. split; auto.
    destruct (ClassifierFacts.cluster_shape entries k c Hk)
      as (e0 & rest & Hf & _ & _ & _ & _ & _ & Cn & _).
    rewrite Hf, <- Cn. exact Hc.
  - intros (k & Hk & Hm). split; [now apply (DictFacts.get_In _ _ _ Hk)|].
    destruct (ClassifierFacts.cluster_shape entries k c Hk)
      as (e0 & rest & Hf & _ & _ & Hn & _ & _ & Cn & _).
    rewrite Hn. cbn [negb andb]. apply Z.leb_le. rewrite Cn, <- Hf. exact Hm.
Qed.

Lemma insert_cluster_perm c l : Permutation (insert_cluster c l) (c :: l).
Proof.
  induction l as [|h l IH]; simpl; auto.
  destruct (count h <=? count c); auto.
  eapply Permutation_trans; [apply perm_skip, IH | apply perm_swap].
Qed.

Lemma insert_cluster_sorted c l :
  Sorted cluster_ge l -> Sorted cluster_ge (insert_cluster c l).
Proof.
  induction 1 as [|h l Hs IH Hhd]; simpl.
  - repeat constructor.
  - destruct (Z.leb_spec (count h) (count c)).
    + constructor; [now constructor|]. now constructor.
    + constructor; auto.
      destruct l as [|h' l']; simpl.
      * constructor. unfold cluster_ge. lia.
      * inversion Hhd; subst.
        destruct (count h' <=? count c); constructor; auto.
        unfold cluster_ge. lia.
Qed.

Lemma sorted_clusters_perm l : Permutation (sorted_clusters l) l.
Proof.
  induction l as [|c l IH]; simpl; auto.
  eapply Permutation_trans; [apply insert_cluster_perm | now constructor].
Qed.

Lemma sorted_clusters_sorted l : StronglySorted cluster_ge (sorted_clusters l).
Proof.
  apply Sorted_StronglySorted.
  - intros x y z. unfold cluster_ge. lia.
  - induction l as [|c l IH]; simpl; [constructor|].
    now apply insert_cluster_sorted.
Qed.

Lemma strongly_sorted_split {A : Type} (R : A -> A -> Prop) n : forall l,
  StronglySorted R l ->
  StronglySorted R (firstn n l)
  /\ forall x y, In x (firstn n l) -> In y (skipn n l) -> R x y.
Proof.
  induction n as [|n IH]; intros l Hs.
  - simpl. split; [constructor|]. intros x y [].
  - destruct l as [|h l]; simpl.
    + split; [constructor|]. intros x y [].
    + inversion Hs as [|? ? Hs' Hall]; subst.
      destruct (IH l Hs') as [I1 I2]. rewrite Forall_forall in Hall.
      split.
      * constructor; auto. apply Forall_forall. intros y Hy.
        apply Hall. eapply (In_nth_error) in Hy. destruct Hy as [i Hi].
        apply nth_error_In with (n := i).
        rewrite nth_error_firstn in Hi.
        destruct (i <? n)%nat; [exact Hi | discriminate].
      * intros x y [<-|Hx] Hy.
        -- apply Hall. rewrite <- (firstn_skipn n l). apply in_or_app. now right.
        -- now apply I2.
Qed.

(** X14.  The report lists at most five clusters, by count with the largest
    first; each of them is actionable (count >= 2), and an actionable
    cluster that is not listed has a count no larger than any listed
    one. *)
Theorem report_lists_the_top_five (self : LogClassifier) :
  (length (top_patterns self) <= 5)%nat
  /\ StronglySorted cluster_ge (top_patterns self)
  /\ (forall c, In c (top_patterns self) ->
        In c (Dict.values (clusters self)) /\ 2 <= count c)
  /\ forall c d,
       In c (get_actionable_errors 2 self) -> ~ In c (top_patterns self) ->
       In d (top_patterns self) -> count c <= count d.
Proof.
  unfold top_patterns.
  pose proof (sorted_clusters_sorted (get_actionable_errors 2 self)) as Hs.
  pose proof (sorted_clusters_perm (get_actionable_errors 2 self)) as Hp.
  destruct (strongly_sorted_split cluster_ge 5 _ Hs) as [H1 H2].
  split; [apply firstn_le_length|]. split; [exact H1|]. split.
  - intros c Hc.
    assert (Hin : In c (get_actionable_errors 2 self)).
    { apply (Permutation_in _ Hp).
      rewrite <- (firstn_skipn 5 (sorted_clusters _)). apply in_or_app. now left. }
    unfold get_actionable_errors in Hin. apply filter_In in Hin.
    destruct Hin as [Hin Hc2]. apply andb_prop in Hc2. destruct Hc2 as [_ Hc2].
    split; auto. now apply Z.leb_le.
  - intros c d Hc Hnot Hd.
    apply (Permutation_in _ (Permutation_sym Hp)) in Hc.
    rewrite <- (firstn_skipn 5 (sorted_clusters _)) in Hc.
    apply in_app_or in Hc. destruct Hc as [Hc|Hc]; [contradiction|].
    exact (H2 d c Hd Hc).
Qed.

End ClassifierMore.

(* ===================================================================== *)
(** * More about signatures, patterns and noise *)
(* ===================================================================== *)

Module SignatureMore.
Import Samples.

Lemma free_search r s : forall prev,
  Re.free r prev s -> Re.search_from r prev s = false.
Proof.
  induction s as [|c s IH]; intros prev [H1 H2]; simpl; rewrite H1; auto.
Qed.

(** X15.  A normalized message, so also the pattern of every cluster, has
    no place left where one of the five rules matches: [re.search] finds
    no date, no time, no UUID, no dotted quad and no free-standing number
    in it. *)
Theorem normalized_has_no_match (x : string) :
  Forall (fun rule =>
            Re.search (fst rule) (list_ascii_of_string (_normalize_message x))
            = false)
         NORMALIZE_PATTERNS.
Proof.
  unfold _normalize_message. rewrite list_ascii_of_string_of_list_ascii.
  destruct (NormalizeFacts.normalized_free (list_ascii_of_string x))
    as (Hd & Ht & Hu & Hi & Hn).
  unfold NORMALIZE_PATTERNS, Re.search.
  repeat (apply Forall_cons; [now apply free_search|]). apply Forall_nil.
Qed.

Lemma rmatch_lit p : forall prev post,
  Re.rmatch (lit_chars p) prev (p ++ post) = Some (length p).
Proof.
  induction p as [|c p IH]; intros prev post; [reflexivity|].
  cbn [lit_chars map app Re.rmatch Re.accepts length].
  rewrite Ascii.eqb_refl. fold (lit_chars p). now rewrite IH.
Qed.

Lemma search_from_app r s :
  (forall prev, Re.rmatch r prev s <> None) ->
  forall pre prev, Re.search_from r prev (pre ++ s) = true.
Proof.
  intros Hm. induction pre as [|c pre IH]; intros prev.
  - simpl app. specialize (Hm prev).
    destruct s; simpl; destruct (Re.rmatch r prev _); congruence.
  - cbn [app Re.search_from]. destruct (Re.rmatch r prev _); auto.
Qed.

(** X16.  The four noise patterns written in lower case are matched in any
    letter case: an entry whose lower-cased message contains "health
    check", "connection reset by peer", "context canceled" or "request
    canceled" anywhere is noise, and [classify] returns None for it,
    adds 1 to the noise tally and leaves the clusters as they were. *)
Theorem lowercase_noise_is_filtered
    (self : Classifier.LogClassifier) (entry : Classifier.LogEntry)
    (p : string) (pre post : list ascii) :
  In p ["health check"; "connection reset by peer"; "context canceled";
        "request canceled"] ->
  Chars.lower (list_ascii_of_string (Classifier.message entry)) =
    pre ++ list_ascii_of_string p ++ post ->
  Classifier._is_noise entry = true
  /\ Classifier.classify self entry =
     (Classifier.mkClassifier (Classifier.clusters self)
        (Classifier.noise_count self + 1), None).
Proof.
  intros Hp Hmsg.
  assert (Hn : Classifier._is_noise entry = true).
  { unfold Classifier._is_noise. apply existsb_exists. exists (Re.lit p). split.
    - unfold NOISE_PATTERNS. simpl in Hp.
      destruct Hp as [<-|[<-|[<-|[<-|[]]]]]; simpl; tauto.
    - rewrite Hmsg. unfold Re.search. apply search_from_app.
      intros prev. unfold Re.lit. fold (lit_chars (list_ascii_of_string p)).
      now rewrite rmatch_lit. }
  split; [exact Hn|]. unfold Classifier.classify. now rewrite Hn.
Qed.

Lemma lowercase_noise_is_filtered_witness :
  Classifier._is_noise (log_line "GET /status: Health Check passed" 0) = true.
Proof.
  refine (proj1 (lowercase_noise_is_filtered Classifier.init
                   (log_line "GET /status: Health Check passed" 0)
                   "health check" (list_ascii_of_string "get /status: ")
                   (list_ascii_of_string " passed") _ _)).
  - simpl. tauto.
  - vm_compute. reflexivity.
Defined.

Lemma hex_digit_is_hex n : 0 <= n < 16 -> Chars.is_hex (MD5.hex_digit n) = true.
Proof.
  intros Hn. rewrite <- (Z2Nat.id n) by lia.
  assert (Hk : (Z.to_nat n < 16)%nat) by lia.
  revert Hk. generalize (Z.to_nat n) as k. intros k Hk.
  do 16 (destruct k as [|k]; [reflexivity|]). lia.
Qed.

Lemma le_bytes_range k x :
  Forall (fun b => 0 <= b < 256) (MD5.le_bytes k x).
Proof.
  unfold MD5.le_bytes. apply Forall_forall. intros b Hb.
  apply in_map_iff in Hb. destruct Hb as (i & <- & _).
  change 255 with (Z.ones 8). rewrite Z.land_ones by lia.
  apply Z.mod_pos_bound. reflexivity.
Qed.

Lemma digest_bytes msg :
  length (MD5.digest msg) = 16%nat
  /\ Forall (fun b => 0 <= b < 256) (MD5.digest msg).
Proof.
  unfold MD5.digest.
  destruct (MD5.blocks _ _ _) as [[[a b] c] d]. split.
  - rewrite !length_app. unfold MD5.le_bytes. rewrite !length_map, !length_seq.
    reflexivity.
  - repeat (apply Forall_app; split); apply le_bytes_range.
Qed.

Lemma hex_of_bytes l :
  Forall (fun b => 0 <= b < 256) l ->
  length (flat_map (fun b => [MD5.hex_digit (b / 16); MD5.hex_digit (b mod 16)]) l)
    = (2 * length l)%nat
  /\ Forall (fun c => Chars.is_hex c = true)
       (flat_map (fun b => [MD5.hex_digit (b / 16); MD5.hex_digit (b mod 16)]) l).
Proof.
  induction 1 as [|b l Hb Hall [I1 I2]].
  - split; [reflexivity | constructor].
  - cbn [flat_map app length]. split; [rewrite I1; lia|].
    constructor; [|constructor; auto]; apply hex_digit_is_hex.
    + split; [apply Z.div_pos; lia | apply Z.div_lt_upper_bound; lia].
    + apply Z.mod_pos_bound. lia.
Qed.

Lemma hexdigest_chars msg :
  length (MD5.hexdigest msg) = 32%nat
  /\ Forall (fun c => Chars.is_hex c = true) (MD5.hexdigest msg).
Proof.
  unfold MD5.hexdigest. destruct (digest_bytes msg) as [Hlen Hall].
  destruct (hex_of_bytes _ Hall) as [H1 H2]. split; auto.
  rewrite H1, Hlen. reflexivity.
Qed.

Lemma string_of_list_length l : String.length (string_of_list_ascii l) = length l.
Proof. induction l as [|c l IH]; simpl; auto. Qed.

Lemma md5_hex12_format s :
  String.length (md5_hex12 s) = 12%nat
  /\ Forall (fun c => Chars.is_hex c = true) (list_ascii_of_string (md5_hex12 s)).
Proof.
  unfold md5_hex12.
  destruct (hexdigest_chars (MD5.encode (list_ascii_of_string s))) as [Hlen Hall].
  rewrite string_of_list_length, list_ascii_of_string_of_list_ascii. split.
  - rewrite length_firstn, Hlen. reflexivity.
  - rewrite <- (firstn_skipn 12) in Hall. apply Forall_app in Hall. tauto.
Qed.

(** X17.  Every signature, of an alert or of a log entry, is a string of
    exactly 12 characters, each one of 0-9 a-f. *)
Theorem signature_is_12_hex (alert : Dedup.Alert) (entry : Classifier.LogEntry) :
  (String.length (Dedup._get_signature alert) = 12%nat
   /\ Forall (fun c => Chars.is_hex c = true)
             (list_ascii_of_string (Dedup._get_signature alert)))
  /\ (String.length (Classifier.signature_of entry) = 12%nat
      /\ Forall (fun c => Chars.is_hex c = true)
                (list_ascii_of_string (Classifier.signature_of entry))).
Proof. split; apply md5_hex12_format. Qed.

Lemma value_has_no_bar sev n v :
  Dedup.value sev <> (n ++ "|" ++ v)%string.
Proof.
  destruct sev; simpl;
    repeat (destruct n as [|? n]; simpl; [discriminate|];
            intros H; injection H as _ H; revert H);
    destruct n; discriminate.
Qed.

Lemma value_injective s1 s2 : Dedup.value s1 = Dedup.value s2 -> s1 = s2.
Proof. destruct s1, s2; simpl; intros H; auto; discriminate. Qed.

Lemma fingerprint_split n1 : forall n2 s1 s2,
  (n1 ++ "|" ++ Dedup.value s1)%string = (n2 ++ "|" ++ Dedup.value s2)%string ->
  n1 = n2 /\ s1 = s2.
Proof.
  induction n1 as [|c n1 IH]; intros [|c2 n2] s1 s2 H.
  - simpl in H. injection H as H. split; auto. now apply value_injective.
  - simpl in H. injection H as _ H. exfalso. exact (value_has_no_bar _ _ _ H).
  - simpl in H. injection H as _ H. exfalso. symmetry in H.
    exact (value_has_no_bar _ _ _ H).
  - simpl in H. injection H as -> H. destruct (IH _ _ _ H) as [-> ->]. auto.
Qed.

(** X18.  The string [_get_signature] hashes tells alert types apart: two
    alerts have the same fingerprint "name|severity" only when they have
    the same name and the same severity, also when a name contains the
    separator, and then they have the same signature. *)
Theorem fingerprint_tells_types_apart (a1 a2 : Dedup.Alert) :
  DedupReport.fingerprint a1 = DedupReport.fingerprint a2 ->
  Dedup.name a1 = Dedup.name a2
  /\ Dedup.severity a1 = Dedup.severity a2
  /\ Dedup._get_signature a1 = Dedup._get_signature a2.
Proof.
  unfold DedupReport.fingerprint. intros H.
  destruct (fingerprint_split _ _ _ _ H) as [Hn Hs].
  repeat split; auto. unfold Dedup._get_signature. now rewrite Hn, Hs.
Qed.

Lemma fingerprint_tells_types_apart_witness :
  Dedup.severity (high_error_rate "api" 0) =
  Dedup.severity (high_error_rate "auth" 7).
Proof.
  refine (proj1 (proj2 (fingerprint_tells_types_apart
                          (high_error_rate "api" 0) (high_error_rate "auth" 7) _))).
  reflexivity.
Defined.

End SignatureMore.

(* ===================================================================== *)
(** * More about events with absent attributes *)
(* ===================================================================== *)

Module UntypedMore.
Import Untyped.

(** X20.  A timestamp of None poisons a group: an alert of a new signature
    whose timestamp is None (and whose service is there) is accepted and
    sent, and after it every alert of that signature that has a timestamp
    attribute raises TypeError and leaves the store as it was. *)
Theorem none_timestamp_poisons_group
    (self : AlertDeduplicator) (first later : Alert) (sig : string) :
  _get_signature first = inr sig ->
  _get_signature later = inr sig ->
  Dict.get sig (groups self) = None ->
  timestamp first = PyNone ->
  service first <> Missing ->
  timestamp later <> Missing ->
  exists self1,
    process_alert self first = Returned self1 true
    /\ process_alert self1 later = Raised TypeError self1.
Proof.
  intros Hf Hl Hnew Ht Hs Hlt.
  unfold process_alert at 1. rewrite Hf, Hnew, Ht.
  assert (Hsev : exists sev, severity first = Has sev).
  { unfold _get_signature in Hf. destruct (name first); try discriminate;
      destruct (severity first); try discriminate; eauto. }
  destruct Hsev as [sev Hsev]. rewrite Hsev.
  destruct (service first) as [| |svc] eqn:Hsvc; [congruence| |];
    eexists; (split; [reflexivity|]);
    unfold process_alert; rewrite Hl; unfold put; cbn [groups];
    rewrite DictFacts.get_set_eq; cbn [g_last_seen stored];
    destruct (timestamp later); congruence.
Qed.

Lemma none_timestamp_poisons_group_witness :
  let first :=
    mkAlert (Has "alert-0005") (Has "HighErrorRate") (Has Dedup.CRITICAL)
      (Has "api") (Has "Error rate > 5%") PyNone (Has []) in
  let later :=
    mkAlert (Has "alert-0006") (Has "HighErrorRate") (Has Dedup.CRITICAL)
      (Has "api") (Has "Error rate > 5%") (Has 0) (Has []) in
  exists self1,
    process_alert (mkDedup [] 0) first = Returned self1 true
    /\ process_alert self1 later = Raised TypeError self1.
Proof.
  intros first later.
  apply (none_timestamp_poisons_group (mkDedup [] 0) first later "ef2e0d8b2bdf");
    try (vm_compute; reflexivity); discriminate.
Defined.

End UntypedMore.

(* ===================================================================== *)
(** * The sample generator of the classifier and the normalizer *)
(* ===================================================================== *)

Module GeneratorMore.
Import Re Chars ReFacts NormalizeFacts LogGen.
Local Open Scope Z_scope.
Local Open Scope nat_scope.

Lemma rmatch_needs c r : In (One (CChar c)) r ->
  forall prev s n, rmatch r prev s = Some n -> In c (firstn n s).
Proof.
  induction r as [|a r IH]; intros Hin prev s n H; [destruct Hin|].
  destruct a as [k|k|].
  - apply rmatch_One_inv in H. destruct H as (x & s' & n' & -> & Hx & -> & H).
    cbn [firstn]. destruct Hin as [E|Hin].
    + injection E as ->. cbn [accepts] in Hx. apply Ascii.eqb_eq in Hx. now left.
    + right. exact (IH Hin _ _ _ H).
  - apply rmatch_Plus_inv in H.
    destruct H as (j & x & m & Hj & -> & _ & _ & _ & H).
    destruct Hin as [E|Hin]; [discriminate|].
    rewrite firstn_add. apply in_or_app. right. exact (IH Hin _ _ _ H).
  - apply rmatch_Bound_inv in H. destruct H as [_ H].
    destruct Hin as [E|Hin]; [discriminate|]. exact (IH Hin _ _ _ H).
Qed.

Lemma in_firstn {X : Type} (x : X) n l : In x (firstn n l) -> In x l.
Proof.
  intros H. rewrite <- (firstn_skipn n l). apply in_or_app. now left.
Qed.

Lemma free_without c r : In (One (CChar c)) r ->
  forall s prev, ~ In c s -> free r prev s.
Proof.
  intros Hin. induction s as [|x s IH]; intros prev Hc.
  - cbn [free]. split; auto.
    destruct (rmatch r prev []) as [n|] eqn:H; auto.
    apply (rmatch_needs c r Hin) in H. now rewrite firstn_nil in H.
  - cbn [free]. split.
    + destruct (rmatch r prev (x :: s)) as [n|] eqn:H; auto.
      apply (rmatch_needs c r Hin) in H. apply in_firstn in H. contradiction.
    + apply IH. intros H. apply Hc. now right.
Qed.

Lemma uint_digits d :
  Forall (fun c => is_digit c = true)
    (list_ascii_of_string (DecimalString.NilEmpty.string_of_uint d)).
Proof.
  induction d; cbn [DecimalString.NilEmpty.string_of_uint list_ascii_of_string];
    constructor; auto.
Qed.

Lemma str_digits n : (0 <= n)%Z ->
  Forall (fun c => is_digit c = true) (str n) /\ str n <> [].
Proof.
  intros Hn. unfold str. destruct n as [|p|p]; [| |lia].
  - vm_compute. split; [repeat constructor | discriminate].
  - cbn [Z.to_int DecimalString.NilZero.string_of_int].
    unfold DecimalString.NilZero.string_of_uint.
    destruct (Pos.to_uint p) as [|u|u|u|u|u|u|u|u|u|u].
    1: now split; [repeat constructor | discriminate].
    all: split; [ exact (uint_digits _) | discriminate ].
Qed.


Lemma not_in_class (A : ascii -> bool) c s :
  Forall (fun x => A x = true) s -> A c = false -> ~ In c s.
Proof.
  intros Hall Hc Hin. rewrite Forall_forall in Hall.
  apply Hall in Hin. congruence.
Qed.

Lemma digits_are_hex s :
  Forall (fun c => is_digit c = true) s -> Forall (fun c => is_hex c = true) s.
Proof.
  apply Forall_impl. intros c Hc. unfold is_hex. unfold is_digit in Hc.
  now rewrite Hc.
Qed.

(** A substitution whose pattern takes the whole of a string gives the
    replacement. *)
Lemma sub_whole r repl prev s :
  s <> [] -> rmatch r prev s = Some (length s) ->
  (forall p, rmatch r p [] = None) ->
  sub_from r repl prev s 0 = repl.
Proof.
  intros Hs Hm Hnil. destruct s as [|c s]; [congruence|].
  rewrite sub_from_cons, Hm. cbn [length skipn].
  rewrite skipn_all. cbn [sub_from]. rewrite Hnil. apply app_nil_r.
Qed.

(** The greedy loop on a whole run of the class, behind which the rest of
    the pattern matches. *)
Lemma plus_loop_run k rest t n : forall ds,
  ds <> [] -> Forall (fun c => accepts k c = true) ds ->
  match t with [] => True | c :: _ => accepts k c = false end ->
  (forall c, accepts k c = true -> rest (Some c) t = Some n) ->
  plus_loop k rest (ds ++ t) = Some (length ds + n).
Proof.
  induction ds as [|d ds IH]; intros Hne Hall Ht Hrest; [congruence|].
  inversion Hall as [|x l Hd Hall']; subst.
  cbn [app plus_loop length]. rewrite Hd.
  destruct ds as [|d' ds].
  - cbn [app]. assert (Hl : plus_loop k rest t = None).
    { destruct t as [|c t]; [reflexivity|]. cbn [plus_loop]. now rewrite Ht. }
    rewrite Hl, (Hrest d Hd). reflexivity.
  - rewrite IH; auto. discriminate.
Qed.

Lemma rmatch_Bound r prev s :
  rmatch (Bound :: r) prev s =
  if xorb (word_before prev) (word_at s) then rmatch r prev s else None.
Proof. reflexivity. Qed.

Lemma rmatch_Plus k r prev s :
  rmatch (Plus k :: r) prev s = plus_loop k (rmatch r) s.
Proof. reflexivity. Qed.

Lemma rmatch_One k r prev c s :
  rmatch (One k :: r) prev (c :: s) =
  if accepts k c then option_map S (rmatch r (Some c) s) else None.
Proof. reflexivity. Qed.

(** [\d+\b] does not match a run of digits glued to letters. *)
Lemma digits_glued_loop ds :
  Forall (fun c => is_digit c = true) ds ->
  plus_loop CDigit (rmatch [Bound]) (ds ++ list_ascii_of_string "ms") = None.
Proof.
  induction ds as [|d ds IH]; intros Hall; [reflexivity|].
  inversion Hall as [|x l Hd Hall']; subst.
  cbn [app plus_loop accepts]. rewrite Hd, (IH Hall').
  cbn [rmatch word_before]. rewrite (digit_word d Hd).
  assert (Hw : word_at (ds ++ list_ascii_of_string "ms") = true).
  { destruct ds as [|d' ds]; [reflexivity|].
    inversion Hall'; subst. cbn [app word_at]. now apply digit_word. }
  rewrite Hw. reflexivity.
Qed.

Lemma digits_glued_free ds : forall prev,
  Forall (fun c => is_digit c = true) ds ->
  free NUM_RE prev (ds ++ list_ascii_of_string "ms").
Proof.
  induction ds as [|d ds IH]; intros prev Hall.
  - cbn [app list_ascii_of_string free]. repeat split.
    + unfold NUM_RE. cbn [rmatch]. now destruct (xorb _ _).
  - inversion Hall as [|x l Hd Hall']; subst.
    cbn [app free]. split; [|now apply IH].
    unfold NUM_RE. rewrite rmatch_Bound, rmatch_Plus.
    change (d :: ds ++ list_ascii_of_string "ms")
      with ((d :: ds) ++ list_ascii_of_string "ms").
    rewrite (digits_glued_loop (d :: ds) Hall). now destruct (xorb _ _).
Qed.

Lemma nil_DATE p : rmatch DATE_RE p [] = None.
Proof. reflexivity. Qed.
Lemma nil_NUM p : rmatch NUM_RE p [] = None.
Proof. unfold NUM_RE. cbn [rmatch]. now destruct (xorb _ _). Qed.
Lemma nil_IP p : rmatch IP_RE p [] = None.
Proof. unfold IP_RE. cbn [rmatch]. now destruct (xorb _ _). Qed.
Lemma nil_UUID p : rmatch UUID_RE p [] = None.
Proof.
  unfold UUID_RE. cbn [app rmatch]. now destruct (xorb _ _).
Qed.

(** The five rules, one after the other. *)
Lemma normalize_steps x x1 x2 x3 x4 x5 :
  sub DATE_RE (list_ascii_of_string "<DATE>") x = x1 ->
  sub TIME_RE (list_ascii_of_string "<TIME>") x1 = x2 ->
  sub UUID_RE (list_ascii_of_string "<UUID>") x2 = x3 ->
  sub IP_RE (list_ascii_of_string "<IP>") x3 = x4 ->
  sub NUM_RE (list_ascii_of_string "<NUM>") x4 = x5 ->
  normalize_chars x = x5.
Proof. intros <- <- <- <- <-. apply normalize_chars_unfold. Qed.

(** The scan of a substitution walks over a prefix in which no match
    starts; the prefixes here end with a space. *)
Ltac skip_prefix :=
  match goal with
  | |- sub ?r ?repl (list_ascii_of_string ?P ++ ?u) = _ =>
      transitivity (list_ascii_of_string P ++ sub_from r repl (Some " "%char) u 0);
      [ generalize u; intros ?; cbn; reflexivity | ]
  end.

Ltac has_char :=
  cbv [DATE_RE TIME_RE UUID_RE IP_RE NUM_RE times repeat app chr lit map
       list_ascii_of_string In];
  repeat ((left; reflexivity) || right).

(** A rule whose pattern needs a character the filling does not have. *)
Ltac absent c H :=
  skip_prefix; f_equal; apply free_sub_id, (free_without c); [has_char | exact H].

Lemma digits_without c ds :
  Forall (fun x => is_digit x = true) ds -> is_digit c = false -> ~ In c ds.
Proof. apply not_in_class. Qed.

(** "... status <NUM>" filled with a number. *)
Lemma normalize_status ds :
  ds <> [] -> Forall (fun c => is_digit c = true) ds ->
  normalize_chars (list_ascii_of_string "API request failed: status " ++ ds)
  = list_ascii_of_string "API request failed: status <NUM>".
Proof.
  intros Hne Hall.
  assert (Hdash := digits_without "-" ds Hall eq_refl).
  assert (Hcolon := digits_without ":" ds Hall eq_refl).
  assert (Hdot := digits_without "." ds Hall eq_refl).
  set (x := list_ascii_of_string "API request failed: status " ++ ds).
  apply (normalize_steps x x x x x); unfold x.
  - absent "-"%char Hdash.
  - absent ":"%char Hcolon.
  - absent "-"%char Hdash.
  - absent "."%char Hdot.
  - skip_prefix.
    rewrite (sub_whole NUM_RE _ (Some " "%char) ds Hne); [reflexivity| |exact nil_NUM].
    apply num_match.
    + destruct ds; [congruence|]. cbn [length]. lia.
    + reflexivity.
    + now rewrite firstn_all.
    + now rewrite skipn_all.
Qed.

(** "... timeout after <NUM>ms" filled with a number: the digits are glued
    to the unit and stay. *)
Lemma normalize_timeout ds :
  Forall (fun c => is_digit c = true) ds ->
  let m := list_ascii_of_string "Database connection failed: timeout after "
           ++ ds ++ list_ascii_of_string "ms" in
  normalize_chars m = m.
Proof.
  intros Hall m.
  assert (Hw : forall c, is_digit c = false -> Ascii.eqb c "m" = false ->
                Ascii.eqb c "s" = false ->
                ~ In c (ds ++ list_ascii_of_string "ms")).
  { intros c Hc Hm Hs Hin. apply in_app_or in Hin. destruct Hin as [Hin|Hin].
    - exact (digits_without c ds Hall Hc Hin).
    - cbn in Hin. destruct Hin as [<-|[<-|[]]]; discriminate. }
  assert (Hdash := Hw "-"%char eq_refl eq_refl eq_refl).
  assert (Hcolon := Hw ":"%char eq_refl eq_refl eq_refl).
  assert (Hdot := Hw "."%char eq_refl eq_refl eq_refl).
  apply (normalize_steps m m m m m); unfold m.
  - absent "-"%char Hdash.
  - absent ":"%char Hcolon.
  - absent "-"%char Hdash.
  - absent "."%char Hdot.
  - skip_prefix. f_equal.
    exact (free_sub_id NUM_RE _ _ _ (digits_glued_free ds (Some " "%char) Hall)).
Qed.

(** One more field of an address: a dot, a run of digits, and the rest. *)
Lemma dotted_field R t n ds p :
  ds <> [] -> Forall (fun c => is_digit c = true) ds ->
  match t with [] => True | c :: _ => is_digit c = false end ->
  (forall c, is_digit c = true -> rmatch R (Some c) t = Some n) ->
  rmatch (chr "." :: Plus CDigit :: R) p ("."%char :: ds ++ t)
  = Some (S (length ds + n)).
Proof.
  intros Hne Hall Ht Hrest. unfold chr. rewrite rmatch_One.
  cbn [accepts]. rewrite Ascii.eqb_refl, rmatch_Plus.
  now rewrite (plus_loop_run CDigit (rmatch R) t n ds Hne Hall Ht Hrest).
Qed.

(** "... for IP <IP>" filled with an address. *)
Lemma normalize_rate_limit d1 d2 d3 d4 :
  d1 <> [] -> d2 <> [] -> d3 <> [] -> d4 <> [] ->
  Forall (fun c => is_digit c = true) d1 ->
  Forall (fun c => is_digit c = true) d2 ->
  Forall (fun c => is_digit c = true) d3 ->
  Forall (fun c => is_digit c = true) d4 ->
  normalize_chars
    (list_ascii_of_string "Rate limit exceeded for IP "
     ++ d1 ++ "."%char :: d2 ++ "."%char :: d3 ++ "."%char :: d4)
  = list_ascii_of_string "Rate limit exceeded for IP <IP>".
Proof.
  intros N1 N2 N3 N4 H1 H2 H3 H4.
  set (u := d1 ++ "."%char :: d2 ++ "."%char :: d3 ++ "."%char :: d4).
  assert (Hw : forall c, is_digit c = false -> Ascii.eqb c "." = false ->
                ~ In c u).
  { intros c Hc Hd Hin. unfold u in Hin.
    repeat (apply in_app_or in Hin;
            destruct Hin as [Hin|[<-|Hin]];
            [ refine (digits_without c _ _ Hc Hin); assumption
            | rewrite Ascii.eqb_refl in Hd; discriminate Hd | ]).
    refine (digits_without c _ _ Hc Hin); assumption. }
  assert (Hdash := Hw "-"%char eq_refl eq_refl).
  assert (Hcolon := Hw ":"%char eq_refl eq_refl).
  set (x := list_ascii_of_string "Rate limit exceeded for IP " ++ u).
  apply (normalize_steps x x x x
           (list_ascii_of_string "Rate limit exceeded for IP <IP>")); unfold x.
  - absent "-"%char Hdash.
  - absent ":"%char Hcolon.
  - absent "-"%char Hdash.
  - skip_prefix.
    assert (Hu : u <> []).
    { unfold u. destruct d1; [congruence|discriminate]. }
    rewrite (sub_whole IP_RE _ (Some " "%char) u Hu); [reflexivity| |exact nil_IP].
    unfold IP_RE. rewrite rmatch_Bound.
    assert (Hat : word_at u = true).
    { unfold u. destruct d1 as [|c d1]; [congruence|].
      inversion H1; subst. cbn [app word_at]. now apply digit_word. }
    rewrite Hat. replace (word_before (Some " "%char)) with false by reflexivity.
    cbn [xorb]. rewrite rmatch_Plus. unfold u.
    rewrite (plus_loop_run CDigit _ _
               (S (length d2 + S (length d3 + S (length d4 + 0)))) d1 N1 H1).
    + f_equal. repeat (rewrite length_app; cbn [length]). lia.
    + reflexivity.
    + intros c1 _. apply dotted_field; auto.
      intros c2 _. apply dotted_field; auto.
      intros c3 _.
      assert (E := dotted_field [Bound] [] 0 d4 (Some c3) N4 H4 I).
      rewrite app_nil_r in E. apply E.
      intros c4 Hc4. rewrite rmatch_Bound. cbn [word_before word_at].
      now rewrite (digit_word c4 Hc4).
  - vm_compute. reflexivity.
Qed.

Lemma date_dashes prev s n :
  rmatch DATE_RE prev s = Some n ->
  nth_error s 4 = Some "-"%char /\ nth_error s 7 = Some "-"%char.
Proof.
  unfold DATE_RE. cbn [times repeat app chr]. intros H.
  do 4 one_inv H. one_inv H. apply Ascii.eqb_eq in Hc3. subst.
  do 2 one_inv H. one_inv H. apply Ascii.eqb_eq in Hc5. subst.
  now split.
Qed.

(** The text of a generated identifier: eight hexadecimal digits and the
    constant groups. *)
Lemma date_free_in_uuid_text h prev :
  length h = 8 -> Forall (fun c => is_hex c = true) h ->
  free DATE_RE prev (h ++ list_ascii_of_string "-0000-0000-0000-000000000000").
Proof.
  intros Hl Hall.
  do 8 (destruct h as [|? h]; [discriminate Hl|]).
  destruct h; [|discriminate Hl]. clear Hl.
  assert (Hn : Forall (fun c => c <> "-"%char) [a; a0; a1; a2; a3; a4; a5; a6]).
  { eapply Forall_impl; [|exact Hall]. intros c Hc ->. discriminate Hc. }
  clear Hall.
  repeat match goal with
         | H : Forall _ (_ :: _) |- _ =>
             let H1 := fresh "N" in let H2 := fresh "F" in
             inversion H as [|? ? H1 H2]; subst; clear H
         | H : Forall _ [] |- _ => clear H
         end.
  cbn [app list_ascii_of_string free].
  repeat match goal with |- _ /\ _ => split end; try exact I;
    match goal with
    | |- rmatch DATE_RE ?p ?s = None =>
        let E := fresh "E" in
        destruct (rmatch DATE_RE p s) eqn:E; [exfalso|reflexivity];
        apply date_dashes in E; cbn [nth_error] in E;
        destruct E as [E1 E2]; congruence
    end.
Qed.

(** "... <UUID>" filled with an identifier, for a prefix that ends with a
    space: the steps behind the prefix. *)
Lemma uuid_text_steps h :
  length h = 8 -> Forall (fun c => is_hex c = true) h ->
  let u := h ++ list_ascii_of_string "-0000-0000-0000-000000000000" in
  sub_from DATE_RE (list_ascii_of_string "<DATE>") (Some " "%char) u 0 = u
  /\ sub_from TIME_RE (list_ascii_of_string "<TIME>") (Some " "%char) u 0 = u
  /\ sub_from UUID_RE (list_ascii_of_string "<UUID>") (Some " "%char) u 0
     = list_ascii_of_string "<UUID>".
Proof.
  intros Hl Hall u. split; [|split].
  - apply free_sub_id. now apply date_free_in_uuid_text.
  - apply free_sub_id, (free_without ":"%char); [has_char|].
    unfold u. intros Hin. apply in_app_or in Hin. destruct Hin as [Hin|Hin].
    + exact (not_in_class is_hex ":" h Hall eq_refl Hin).
    + cbn in Hin. intuition discriminate.
  - apply sub_whole; [| |exact nil_UUID].
    + unfold u. destruct h; discriminate.
    + unfold u. do 8 (destruct h as [|? h]; [discriminate Hl|]).
      destruct h; [|discriminate Hl]. clear Hl u.
      repeat match goal with
             | H : Forall _ (_ :: _) |- _ =>
                 let H1 := fresh "X" in let H2 := fresh "F" in
                 inversion H as [|? ? H1 H2]; subst; clear H
             | H : Forall _ [] |- _ => clear H
             end.
      unfold UUID_RE. cbn [times repeat app chr list_ascii_of_string length].
      rewrite rmatch_Bound. cbn [word_before word_at].
      match goal with H : is_hex ?c = true |- context [is_word ?c] =>
        rewrite (hex_word c H) end.
      replace (is_word " "%char) with false by reflexivity. cbn [xorb].
      do 8 (rewrite rmatch_One; cbn [accepts];
            match goal with H : is_hex ?c = true |- context [is_hex ?c] =>
              rewrite H end).
      vm_compute. reflexivity.
Qed.

(** "... <UUID>" filled with an identifier. *)
Lemma normalize_user_id h :
  length h = 8 -> Forall (fun c => is_hex c = true) h ->
  normalize_chars
    (list_ascii_of_string "User authentication failed for user_id: "
     ++ h ++ list_ascii_of_string "-0000-0000-0000-000000000000")
  = list_ascii_of_string "User authentication failed for user_id: <UUID>".
Proof.
  intros Hl Hall. destruct (uuid_text_steps h Hl Hall) as (Hd & Ht & Hu).
  set (x := list_ascii_of_string "User authentication failed for user_id: "
            ++ h ++ list_ascii_of_string "-0000-0000-0000-000000000000").
  set (y := list_ascii_of_string "User authentication failed for user_id: <UUID>").
  apply (normalize_steps x x x y y); unfold x, y.
  - skip_prefix. now rewrite Hd.
  - skip_prefix. now rewrite Ht.
  - skip_prefix. now rewrite Hu.
  - vm_compute. reflexivity.
  - vm_compute. reflexivity.
Qed.

Lemma normalize_transaction h :
  length h = 8 -> Forall (fun c => is_hex c = true) h ->
  normalize_chars
    (list_ascii_of_string "Payment processing error: transaction "
     ++ h ++ list_ascii_of_string "-0000-0000-0000-000000000000")
  = list_ascii_of_string "Payment processing error: transaction <UUID>".
Proof.
  intros Hl Hall. destruct (uuid_text_steps h Hl Hall) as (Hd & Ht & Hu).
  set (x := list_ascii_of_string "Payment processing error: transaction "
            ++ h ++ list_ascii_of_string "-0000-0000-0000-000000000000").
  set (y := list_ascii_of_string "Payment processing error: transaction <UUID>").
  apply (normalize_steps x x x y y); unfold x, y.
  - skip_prefix. now rewrite Hd.
  - skip_prefix. now rewrite Ht.
  - skip_prefix. now rewrite Hu.
  - vm_compute. reflexivity.
  - vm_compute. reflexivity.
Qed.

(** ** The messages of the generator *)

Lemma message_chars template num x a b c d :
  list_ascii_of_string (message_of template num x a b c d) =
  sub (lit "<IP>") (ip_text a b c d)
    (sub (lit "<UUID>") (uuid_text x)
       (sub (lit "<NUM>") (str num) (list_ascii_of_string template))).
Proof. unfold message_of. apply list_ascii_of_string_of_list_ascii. Qed.

Lemma no_angle_app s t :
  ~ In "<"%char s -> ~ In "<"%char t -> ~ In "<"%char (s ++ t).
Proof. intros Hs Ht Hin. apply in_app_or in Hin. tauto. Qed.

Lemma no_angle_text (t : string) :
  forallb (fun c => negb (Ascii.eqb c "<")) (list_ascii_of_string t) = true ->
  ~ In "<"%char (list_ascii_of_string t).
Proof.
  intros H. apply (not_in_class (fun c => negb (Ascii.eqb c "<"))); auto.
  now apply Forall_forall, forallb_forall.
Qed.

(** A placeholder that is not in the message is not filled. *)
Lemma no_angle_sub p repl s :
  In (One (CChar "<")) (lit p) -> ~ In "<"%char s -> sub (lit p) repl s = s.
Proof.
  intros Hp Hs. apply free_sub_id. now apply (free_without "<"%char).
Qed.

Ltac fill_here := unfold sub; cbn; rewrite ?app_nil_r; reflexivity.

Ltac no_angle :=
  repeat (apply no_angle_app; [try (apply no_angle_text; reflexivity)|]);
  try (apply no_angle_text; reflexivity); auto.

Ltac fill_not := apply no_angle_sub; [has_char | no_angle].

(** The three steps of the filling, one after the other. *)
Lemma fill_steps t nn uu ip y1 y2 y3 :
  sub (lit "<NUM>") nn t = y1 ->
  sub (lit "<UUID>") uu y1 = y2 ->
  sub (lit "<IP>") ip y2 = y3 ->
  sub (lit "<IP>") ip (sub (lit "<UUID>") uu (sub (lit "<NUM>") nn t)) = y3.
Proof. now intros <- <- <-. Qed.

Lemma fill_status nn uu ip : ~ In "<"%char nn ->
  sub (lit "<IP>") ip (sub (lit "<UUID>") uu (sub (lit "<NUM>") nn
    (list_ascii_of_string "API request failed: status <NUM>")))
  = list_ascii_of_string "API request failed: status " ++ nn.
Proof.
  intros Hn.
  set (y := list_ascii_of_string "API request failed: status " ++ nn).
  apply (fill_steps _ _ _ _ y y y); unfold y; [fill_here|fill_not|fill_not].
Qed.

Lemma fill_timeout nn uu ip : ~ In "<"%char nn ->
  sub (lit "<IP>") ip (sub (lit "<UUID>") uu (sub (lit "<NUM>") nn
    (list_ascii_of_string "Database connection failed: timeout after <NUM>ms")))
  = list_ascii_of_string "Database connection failed: timeout after "
    ++ nn ++ list_ascii_of_string "ms".
Proof.
  intros Hn.
  set (y := list_ascii_of_string "Database connection failed: timeout after "
            ++ nn ++ list_ascii_of_string "ms").
  apply (fill_steps _ _ _ _ y y y); unfold y; [fill_here|fill_not|fill_not].
Qed.

Lemma fill_user_id nn uu ip : ~ In "<"%char uu ->
  sub (lit "<IP>") ip (sub (lit "<UUID>") uu (sub (lit "<NUM>") nn
    (list_ascii_of_string "User authentication failed for user_id: <UUID>")))
  = list_ascii_of_string "User authentication failed for user_id: " ++ uu.
Proof.
  intros Hn.
  set (y := list_ascii_of_string "User authentication failed for user_id: " ++ uu).
  apply (fill_steps _ _ _ _
           (list_ascii_of_string "User authentication failed for user_id: <UUID>")
           y y); unfold y; [fill_here|fill_here|fill_not].
Qed.

Lemma fill_transaction nn uu ip : ~ In "<"%char uu ->
  sub (lit "<IP>") ip (sub (lit "<UUID>") uu (sub (lit "<NUM>") nn
    (list_ascii_of_string "Payment processing error: transaction <UUID>")))
  = list_ascii_of_string "Payment processing error: transaction " ++ uu.
Proof.
  intros Hn.
  set (y := list_ascii_of_string "Payment processing error: transaction " ++ uu).
  apply (fill_steps _ _ _ _
           (list_ascii_of_string "Payment processing error: transaction <UUID>")
           y y); unfold y; [fill_here|fill_here|fill_not].
Qed.

Lemma fill_rate_limit nn uu ip :
  sub (lit "<IP>") ip (sub (lit "<UUID>") uu (sub (lit "<NUM>") nn
    (list_ascii_of_string "Rate limit exceeded for IP <IP>")))
  = list_ascii_of_string "Rate limit exceeded for IP " ++ ip.
Proof.
  set (t := list_ascii_of_string "Rate limit exceeded for IP <IP>").
  apply (fill_steps _ _ _ _ t t); unfold t; fill_here.
Qed.

(** A template without placeholder is the message. *)
Lemma fill_plain t nn uu ip :
  forallb (fun c => negb (Ascii.eqb c "<")) (list_ascii_of_string t) = true ->
  sub (lit "<IP>") ip (sub (lit "<UUID>") uu (sub (lit "<NUM>") nn
    (list_ascii_of_string t)))
  = list_ascii_of_string t.
Proof.
  intros Ht. apply no_angle_text in Ht.
  apply (fill_steps _ _ _ _ (list_ascii_of_string t) (list_ascii_of_string t));
    apply no_angle_sub; auto; has_char.
Qed.

Lemma hex8_shape x :
  length (hex8 x) = 8 /\ Forall (fun c => is_hex c = true) (hex8 x).
Proof.
  split; [reflexivity|]. unfold hex8. apply Forall_map, Forall_forall.
  intros i _. apply SignatureMore.hex_digit_is_hex.
  apply Z.mod_pos_bound. lia.
Qed.

Lemma str_no_angle n : (0 <= n)%Z -> ~ In "<"%char (str n).
Proof.
  intros Hn. destruct (str_digits n Hn) as [Hall _].
  exact (not_in_class is_digit "<" _ Hall eq_refl).
Qed.

Lemma uuid_text_no_angle x : ~ In "<"%char (uuid_text x).
Proof.
  unfold uuid_text. apply no_angle_app.
  - exact (not_in_class is_hex "<" _ (proj2 (hex8_shape x)) eq_refl).
  - apply no_angle_text. reflexivity.
Qed.

(** What a generated message normalizes to, template by template. *)
Lemma round_trip_chars template num x a b c d :
  In template round_trip_templates -> draws_in_range num x a b c d ->
  normalize_chars (list_ascii_of_string (message_of template num x a b c d))
  = list_ascii_of_string template.
Proof.
  intros Hin (Hnum & Hx & Ha & Hb & Hc & Hd). rewrite message_chars.
  destruct (hex8_shape x) as [Hl Hh].
  destruct (str_digits num) as [Dn Nn]; [lia|].
  destruct (str_digits a) as [Da Na]; [lia|].
  destruct (str_digits b) as [Db Nb]; [lia|].
  destruct (str_digits c) as [Dc Nc]; [lia|].
  destruct (str_digits d) as [Dd Nd]; [lia|].
  unfold round_trip_templates in Hin. cbn [In] in Hin.
  destruct Hin as [<-|[<-|[<-|[<-|[<-|[]]]]]].
  - rewrite fill_status by (apply str_no_angle; lia).
    now apply normalize_status.
  - rewrite fill_user_id by apply uuid_text_no_angle.
    now apply normalize_user_id.
  - rewrite fill_transaction by apply uuid_text_no_angle.
    now apply normalize_transaction.
  - rewrite fill_plain by reflexivity. vm_compute. reflexivity.
  - rewrite fill_rate_limit. unfold ip_text. now apply normalize_rate_limit.
Qed.

Lemma round_trip template num x a b c d :
  In template round_trip_templates -> draws_in_range num x a b c d ->
  _normalize_message (message_of template num x a b c d) = template.
Proof.
  intros Hin Hr. unfold _normalize_message.
  rewrite (round_trip_chars _ _ _ _ _ _ _ Hin Hr).
  apply string_of_list_ascii_of_string.
Qed.

(** X21.  Round trip of the sample generator through the normalizer: a
    message [LogGenerator.generate] builds from the status template, one of
    the two UUID templates, the template without placeholder or the IP
    template normalizes back to exactly that template, whatever the random
    draws are. *)
Theorem generated_message_normalizes_to_template
    (template : string) (num x a b c d : Z) :
  In template round_trip_templates -> draws_in_range num x a b c d ->
  _normalize_message (message_of template num x a b c d) = template.
Proof. apply round_trip. Qed.

Lemma generated_message_normalizes_to_template_witness :
  _normalize_message
    (message_of "Rate limit exceeded for IP <IP>" 404 305419896 10 0 0 1)
  = "Rate limit exceeded for IP <IP>".
Proof.
  apply generated_message_normalizes_to_template.
  - do 4 right. left. reflexivity.
  - unfold draws_in_range. lia.
Defined.

(** X22.  The timeout template does not come back: its message is the
    text with the drawn number glued to "ms", no word boundary follows the
    digits, so the digit rule does not apply and the normalizer returns the
    message as it is, number included. *)
Theorem timeout_message_keeps_its_number (num x a b c d : Z) :
  draws_in_range num x a b c d ->
  let m := message_of "Database connection failed: timeout after <NUM>ms"
             num x a b c d in
  list_ascii_of_string m =
    list_ascii_of_string "Database connection failed: timeout after "
    ++ str num ++ list_ascii_of_string "ms"
  /\ _normalize_message m = m.
Proof.
  intros (Hnum & _) m.
  destruct (str_digits num) as [Dn Nn]; [lia|].
  assert (Hm : list_ascii_of_string m =
               list_ascii_of_string "Database connection failed: timeout after "
               ++ str num ++ list_ascii_of_string "ms").
  { unfold m. rewrite message_chars. apply fill_timeout, str_no_angle. lia. }
  split; [exact Hm|].
  unfold _normalize_message. rewrite Hm.
  rewrite (normalize_timeout (str num) Dn), <- Hm.
  apply string_of_list_ascii_of_string.
Qed.

Lemma timeout_message_keeps_its_number_witness :
  _normalize_message
    (message_of "Database connection failed: timeout after <NUM>ms"
       100 0 1 0 0 1)
  = message_of "Database connection failed: timeout after <NUM>ms"
      100 0 1 0 0 1.
Proof.
  refine (proj2 (timeout_message_keeps_its_number 100 0 1 0 0 1 _)).
  unfold draws_in_range. lia.
Defined.

(** ** Generated messages and the noise filter *)

Lemma filling_lower c : filling_char c = true -> lower_char c = c.
Proof. ascii_cases c; vm_compute; auto; discriminate. Qed.

Lemma lower_filling u :
  Forall (fun c => filling_char c = true) u -> lower u = u.
Proof.
  induction 1 as [|c u Hc _ IH]; [reflexivity|].
  unfold lower in *. cbn [map]. now rewrite IH, (filling_lower c Hc).
Qed.

Lemma hex_filling u :
  Forall (fun c => is_hex c = true) u -> Forall (fun c => filling_char c = true) u.
Proof.
  apply Forall_impl. intros c Hc. unfold filling_char. now rewrite Hc.
Qed.

Lemma text_filling (t : string) :
  forallb filling_char (list_ascii_of_string t) = true ->
  Forall (fun c => filling_char c = true) (list_ascii_of_string t).
Proof. intros H. now apply Forall_forall, forallb_forall. Qed.

(** No noise pattern is found in a prefix followed by a filling, when none
    starts in the prefix. *)
Ltac pattern_absent c Hu :=
  apply SignatureMore.free_search; cbn; repeat split;
  apply (free_without c);
  [ has_char | exact (not_in_class filling_char c _ Hu eq_refl) ].

Ltac not_noise Hu :=
  unfold NOISE_PATTERNS; cbn [existsb]; unfold search;
  rewrite ?orb_false_r;
  repeat (apply orb_false_intro);
  [ pattern_absent "h"%char Hu | pattern_absent "n"%char Hu
  | pattern_absent "n"%char Hu | pattern_absent "r"%char Hu
  | pattern_absent "E"%char Hu ].

Lemma status_not_noise u :
  Forall (fun c => filling_char c = true) u ->
  existsb (fun p => search p
             (lower (list_ascii_of_string "API request failed: status " ++ u)))
          NOISE_PATTERNS = false.
Proof.
  intros Hu. unfold lower. rewrite map_app. fold (lower u).
  rewrite (lower_filling u Hu). not_noise Hu.
Qed.

Lemma timeout_not_noise u :
  Forall (fun c => filling_char c = true) u ->
  existsb (fun p => search p
             (lower (list_ascii_of_string
                       "Database connection failed: timeout after " ++ u)))
          NOISE_PATTERNS = false.
Proof.
  intros Hu. unfold lower. rewrite map_app. fold (lower u).
  rewrite (lower_filling u Hu). not_noise Hu.
Qed.

Lemma user_id_not_noise u :
  Forall (fun c => filling_char c = true) u ->
  existsb (fun p => search p
             (lower (list_ascii_of_string
                       "User authentication failed for user_id: " ++ u)))
          NOISE_PATTERNS = false.
Proof.
  intros Hu. unfold lower. rewrite map_app. fold (lower u).
  rewrite (lower_filling u Hu). not_noise Hu.
Qed.

Lemma transaction_not_noise u :
  Forall (fun c => filling_char c = true) u ->
  existsb (fun p => search p
             (lower (list_ascii_of_string
                       "Payment processing error: transaction " ++ u)))
          NOISE_PATTERNS = false.
Proof.
  intros Hu. unfold lower. rewrite map_app. fold (lower u).
  rewrite (lower_filling u Hu). not_noise Hu.
Qed.

Lemma rate_limit_not_noise u :
  Forall (fun c => filling_char c = true) u ->
  existsb (fun p => search p
             (lower (list_ascii_of_string "Rate limit exceeded for IP " ++ u)))
          NOISE_PATTERNS = false.
Proof.
  intros Hu. unfold lower. rewrite map_app. fold (lower u).
  rewrite (lower_filling u Hu). not_noise Hu.
Qed.

Lemma str_filling n : (0 <= n)%Z -> Forall (fun c => filling_char c = true) (str n).
Proof.
  intros Hn. apply hex_filling, digits_are_hex. now apply str_digits.
Qed.

(** A generated message is noise exactly when its template is one of the
    two noise templates. *)
Lemma generated_noise template num x a b c d :
  In template ERROR_TEMPLATES -> draws_in_range num x a b c d ->
  existsb (fun p => search p
             (lower (list_ascii_of_string (message_of template num x a b c d))))
          NOISE_PATTERNS
  = existsb (String.eqb template) noise_templates.
Proof.
  intros Hin (Hnum & Hx & Ha & Hb & Hc & Hd). rewrite message_chars.
  assert (Fn := str_filling num ltac:(lia)).
  assert (Fa := str_filling a ltac:(lia)).
  assert (Fb := str_filling b ltac:(lia)).
  assert (Fc := str_filling c ltac:(lia)).
  assert (Fd := str_filling d ltac:(lia)).
  assert (Fx := hex_filling _ (proj2 (hex8_shape x))).
  unfold ERROR_TEMPLATES in Hin. cbn [In] in Hin.
  destruct Hin as [<-|[<-|[<-|[<-|[<-|[<-|[<-|[<-|[]]]]]]]]].
  - rewrite fill_timeout by (apply str_no_angle; lia).
    rewrite timeout_not_noise; [reflexivity|].
    apply Forall_app. split; [exact Fn | now apply text_filling].
  - rewrite fill_status by (apply str_no_angle; lia).
    now rewrite status_not_noise.
  - rewrite fill_user_id by apply uuid_text_no_angle.
    rewrite user_id_not_noise; [reflexivity|].
    apply Forall_app. split; [exact Fx | now apply text_filling].
  - rewrite fill_transaction by apply uuid_text_no_angle.
    rewrite transaction_not_noise; [reflexivity|].
    apply Forall_app. split; [exact Fx | now apply text_filling].
  - rewrite fill_plain by reflexivity. vm_compute. reflexivity.
  - rewrite fill_plain by reflexivity. vm_compute. reflexivity.
  - rewrite fill_plain by reflexivity. vm_compute. reflexivity.
  - rewrite fill_rate_limit. rewrite rate_limit_not_noise; [reflexivity|].
    unfold ip_text.
    repeat (apply Forall_app; split; [assumption || now apply text_filling|]).
    assumption.
Qed.

(** X23.  A generated entry is filtered as noise exactly when its template
    is one of the two noise templates, "health check passed" and
    "connection reset by peer": no random filling makes or hides a noise
    match. *)
Theorem generated_noise_is_the_noise_templates
    (entry : Classifier.LogEntry) (template : string) (num x a b c d : Z) :
  In template ERROR_TEMPLATES -> draws_in_range num x a b c d ->
  Classifier.message entry = message_of template num x a b c d ->
  Classifier._is_noise entry = true <-> In template noise_templates.
Proof.
  intros Hin Hr Hm. unfold Classifier._is_noise. rewrite Hm.
  rewrite (generated_noise _ _ _ _ _ _ _ Hin Hr).
  rewrite existsb_exists. split.
  - intros (t & Ht & E). apply String.eqb_eq in E. now subst.
  - intros Ht. exists template. split; [exact Ht | apply String.eqb_refl].
Qed.

Lemma generated_noise_is_the_noise_templates_witness :
  Classifier._is_noise (Samples.log_line "connection reset by peer" 0) = true
  <-> In "connection reset by peer" noise_templates.
Proof.
  apply (generated_noise_is_the_noise_templates
           (Samples.log_line "connection reset by peer" 0)
           "connection reset by peer" 1 0 1 0 0 1).
  - do 5 right. left. reflexivity.
  - unfold draws_in_range. lia.
  - vm_compute. reflexivity.
Defined.

Lemma generated_key
    (entry : Classifier.LogEntry) (template : string) (num x a b c d : Z) :
  In template round_trip_templates -> draws_in_range num x a b c d ->
  Classifier.message entry = message_of template num x a b c d ->
  Classifier.key entry = Some (md5_hex12 template).
Proof.
  intros Hin Hr Hm.
  assert (Hall : In template ERROR_TEMPLATES).
  { unfold round_trip_templates in Hin. unfold ERROR_TEMPLATES. cbn [In] in *.
    tauto. }
  unfold Classifier.key, Classifier.signature_of, Classifier._is_noise.
  rewrite Hm, (generated_noise _ _ _ _ _ _ _ Hall Hr).
  unfold _normalize_message. rewrite (round_trip_chars _ _ _ _ _ _ _ Hin Hr).
  rewrite string_of_list_ascii_of_string.
  assert (E : existsb (String.eqb template) noise_templates = false).
  { unfold round_trip_templates in Hin. cbn [In] in Hin.
    destruct Hin as [<-|[<-|[<-|[<-|[<-|[]]]]]]; reflexivity. }
  now rewrite E.
Qed.

(** X24.  All entries generated from one of the round-trip templates get
    one and the same signature, the hash of the template itself: they are
    not noise and the draws do not reach the signature. *)
Theorem generated_entry_has_template_signature
    (entry : Classifier.LogEntry) (template : string) (num x a b c d : Z) :
  In template round_trip_templates -> draws_in_range num x a b c d ->
  Classifier.message entry = message_of template num x a b c d ->
  Classifier.key entry = Some (md5_hex12 template).
Proof. apply generated_key. Qed.

Lemma generated_entry_has_template_signature_witness :
  let message := message_of "API request failed: status <NUM>" 404 0 1 0 0 1 in
  Classifier.key (Samples.log_line message 0)
  = Some (md5_hex12 "API request failed: status <NUM>").
Proof.
  intros message.
  apply (generated_entry_has_template_signature
           (Samples.log_line message 0) "API request failed: status <NUM>"
           404 0 1 0 0 1).
  - left. reflexivity.
  - unfold draws_in_range. lia.
  - reflexivity.
Defined.

End GeneratorMore.

(* ===================================================================== *)
(** * The order of the stores and the demo runs *)
(* ===================================================================== *)

Module OrderMore.

Section KeyOrder.
Context {E G D : Type}.
Variable key : E -> option string.
Variable step : option G -> E -> G * D.

Lemma existsb_keys (d : Dict.t G) k :
  existsb (String.eqb k) (Dict.keys d) =
  match Dict.get k d with Some _ => true | None => false end.
Proof.
  induction d as [|[k0 v0] d IH]; [reflexivity|].
  cbn [Dict.keys Dict.get map fst existsb].
  destruct (String.eqb k k0); [reflexivity|]. exact IH.
Qed.

Lemma kstep_keys d e :
  Dict.keys (fst (Keyed.kstep key step d e)) = note_key (Dict.keys d) (key e).
Proof.
  unfold Keyed.kstep, note_key. destruct (key e) as [k|]; [|reflexivity].
  destruct (step (Dict.get k d) e) as [g dec]. cbn [fst].
  rewrite existsb_keys. destruct (Dict.get k d) as [g0|] eqn:Hg.
  - exact (DictFacts.keys_set_in d k g g0 Hg).
  - exact (DictFacts.keys_set_notin d k g Hg).
Qed.

Lemma krun_keys es : forall d,
  Dict.keys (fst (Keyed.krun key step d es)) =
  key_order (Dict.keys d) (map key es).
Proof.
  induction es as [|e rest IH]; intros d; [reflexivity|].
  cbn [Keyed.krun map key_order fold_left].
  pose proof (kstep_keys d e) as H1.
  destruct (Keyed.kstep key step d e) as [d1 dec]. cbn [fst] in H1.
  specialize (IH d1). destruct (Keyed.krun key step d1 rest) as [d2 tr].
  cbn [fst] in *. rewrite IH, H1. reflexivity.
Qed.

End KeyOrder.

Lemma note_key_nodup seen ok : NoDup seen -> NoDup (note_key seen ok).
Proof.
  intros H. destruct ok as [k|]; [|exact H]. cbn [note_key].
  destruct (existsb (String.eqb k) seen) eqn:Hk; [exact H|].
  apply (Permutation_NoDup (l := k :: seen)); [apply Permutation_cons_append|].
  constructor; [|exact H]. intros Hin.
  assert (existsb (String.eqb k) seen = true); [|congruence].
  apply existsb_exists. exists k. split; [exact Hin | apply String.eqb_refl].
Qed.

Lemma key_order_nodup oks : forall seen, NoDup seen -> NoDup (key_order seen oks).
Proof.
  induction oks as [|ok oks IH]; intros seen H; [exact H|].
  cbn [key_order fold_left]. apply IH. now apply note_key_nodup.
Qed.

Lemma key_order_incl pool oks : forall seen,
  incl seen pool ->
  Forall (fun ok => match ok with Some k => In k pool | None => True end) oks ->
  incl (key_order seen oks) pool.
Proof.
  induction oks as [|ok oks IH]; intros seen Hs Hall; [exact Hs|].
  inversion Hall as [|x l Hok Hall']; subst.
  cbn [key_order fold_left]. apply IH; [|exact Hall'].
  destruct ok as [k|]; [|exact Hs]. cbn [note_key].
  destruct (existsb (String.eqb k) seen); [exact Hs|].
  apply incl_app; [exact Hs|]. intros y [<-|[]]. exact Hok.
Qed.

(** No more keys than the pool the keys are drawn from. *)
Lemma key_order_bound pool oks :
  Forall (fun ok => match ok with Some k => In k pool | None => True end) oks ->
  (length (key_order [] oks) <= length pool)%nat.
Proof.
  intros Hall. apply NoDup_incl_length.
  - apply key_order_nodup. constructor.
  - apply key_order_incl; [intros y [] | exact Hall].
Qed.

(** Every key is there, and where its first occurrence put it. *)
Lemma key_order_In k oks : forall seen,
  In k (key_order seen oks) <-> In k seen \/ In (Some k) oks.
Proof.
  induction oks as [|ok oks IH]; intros seen; cbn [key_order fold_left].
  - cbn [In]. tauto.
  - fold (key_order (note_key seen ok) oks). rewrite IH. cbn [In].
    destruct ok as [k'|]; cbn [note_key].
    + destruct (existsb (String.eqb k') seen) eqn:Hk.
      * apply existsb_exists in Hk. destruct Hk as (y & Hy & E).
        apply String.eqb_eq in E. subst y.
        split; [tauto|]. intros [H|[H|H]]; auto.
        injection H as ->. now left.
      * rewrite in_app_iff. cbn [In]. split.
        -- intros [[H|[->|[]]]|H]; auto.
        -- intros [H|[H|H]]; auto. injection H as ->. left. right. now left.
    + split; [tauto|]. intros [H|[H|H]]; auto. discriminate.
Qed.

(** The values of a dict whose entries carry their own key. *)
Lemma values_carry_keys {V : Type} (f : V -> string) (d : Dict.t V) :
  NoDup (Dict.keys d) ->
  (forall k v, Dict.get k d = Some v -> f v = k) ->
  map f (Dict.values d) = Dict.keys d.
Proof.
  induction d as [|[k0 v0] d IH]; intros Hnd H; [reflexivity|].
  cbn [Dict.values Dict.keys map fst snd] in *.
  inversion Hnd as [|x l Hk0 Hnd']; subst. f_equal.
  - apply H. cbn [Dict.get]. now rewrite String.eqb_refl.
  - apply IH; [exact Hnd'|]. intros k v Hg. apply H. cbn [Dict.get].
    destruct (String.eqb k k0) eqn:E; [|exact Hg].
    apply String.eqb_eq in E. subst k0. exfalso. apply Hk0.
    clear - Hg. induction d as [|[k1 v1] d IH]; [discriminate|].
    cbn [Dict.get] in Hg. cbn [map fst In].
    destruct (String.eqb k k1) eqn:E; [left; symmetry; now apply String.eqb_eq|].
    right. now apply IH.
Qed.

Import Dedup.

Lemma dedup_keys alerts :
  Dict.keys (groups (fst (run init alerts))) = key_order [] (map key alerts).
Proof.
  destruct (DedupFacts.dedup_run_krun alerts init) as [-> _].
  exact (krun_keys key upsert_group alerts []).
Qed.

(** X25.  The store keeps its groups in the order in which their
    signatures first occurred among the processed alerts, one group for
    each distinct signature: that is the order of [groups.values()], so of
    [get_active_groups], and every group carries the key it is stored
    under. *)
Theorem groups_keep_first_occurrence_order (alerts : list Alert) :
  let self := fst (run init alerts) in
  map AlertGroup.signature (Dict.values (groups self)) =
    key_order [] (map (fun a => Some (_get_signature a)) alerts)
  /\ Dict.keys (groups self) = map AlertGroup.signature (Dict.values (groups self))
  /\ NoDup (Dict.keys (groups self)).
Proof.
  intros self.
  assert (Hk : Dict.keys (groups self) = key_order [] (map key alerts))
    by apply dedup_keys.
  assert (Hnd : NoDup (Dict.keys (groups self))).
  { rewrite Hk. apply key_order_nodup. constructor. }
  assert (Hv : map AlertGroup.signature (Dict.values (groups self)) =
               Dict.keys (groups self)).
  { apply values_carry_keys; [exact Hnd|]. intros k g Hg.
    destruct (DedupFacts.group_shape alerts k g Hg) as (a0 & rest & _ & Sg & _).
    exact Sg. }
  repeat split; auto. now rewrite Hv, Hk.
Qed.

Lemma classifier_keys entries :
  Dict.keys (Classifier.clusters (fst (Classifier.run Classifier.init entries)))
  = key_order [] (map Classifier.key entries).
Proof.
  destruct (ClassifierFacts.classifier_run_krun entries Classifier.init)
    as [-> _].
  exact (krun_keys Classifier.key Classifier.upsert_cluster entries []).
Qed.

(** X26.  The clusters are kept in the order in which their signatures
    first occurred among the entries that are not noise, one cluster for
    each distinct signature, and every cluster carries the key it is
    stored under. *)
Theorem clusters_keep_first_occurrence_order
    (entries : list Classifier.LogEntry) :
  let self := fst (Classifier.run Classifier.init entries) in
  Dict.keys (Classifier.clusters self) =
    key_order [] (map Classifier.key entries)
  /\ map Classifier.signature (Dict.values (Classifier.clusters self)) =
     Dict.keys (Classifier.clusters self)
  /\ NoDup (Dict.keys (Classifier.clusters self)).
Proof.
  intros self.
  assert (Hk := classifier_keys entries). fold self in Hk.
  assert (Hnd : NoDup (Dict.keys (Classifier.clusters self))).
  { rewrite Hk. apply key_order_nodup. constructor. }
  repeat split; auto.
  apply values_carry_keys; [exact Hnd|]. intros k c Hc.
  destruct (ClassifierFacts.cluster_shape entries k c Hc)
    as (e0 & rest & _ & Sg & _).
  exact Sg.
Qed.

(** ** The demo run of the deduplicator *)

Import AlertGen DedupReport.

Lemma build_length draws : forall i, length (build i draws) = length draws.
Proof.
  induction draws as [|d rest IH]; intros i; [reflexivity|].
  cbn [build length]. now rewrite IH.
Qed.

Lemma generate_length draws : length (generate draws) = length draws.
Proof.
  unfold generate.
  rewrite (Permutation_length (DedupMore.sorted_by_timestamp_perm _)).
  apply build_length.
Qed.

Lemma build_Forall (P : Alert -> Prop) draws :
  (forall i d, In d draws -> P (alert_of i d)) ->
  forall i, Forall P (build i draws).
Proof.
  induction draws as [|d rest IH]; intros H i; [constructor|].
  cbn [build]. constructor.
  - apply H. now left.
  - apply IH. intros j d' Hd. apply H. now right.
Qed.

Lemma generate_Forall (P : Alert -> Prop) draws :
  (forall i d, In d draws -> P (alert_of i d)) -> Forall P (generate draws).
Proof.
  intros H. unfold generate.
  apply (Permutation_Forall
           (Permutation_sym (DedupMore.sorted_by_timestamp_perm _))).
  now apply build_Forall.
Qed.

Lemma alert_of_signature i d :
  In (template d) ALERT_TYPES -> In (_get_signature (alert_of i d)) type_signatures.
Proof.
  intros H. unfold type_signatures, _get_signature.
  cbn [alert_of name severity].
  exact (in_map (fun t => md5_hex12 (fst (fst t) ++ "|" ++ value (snd (fst t))))
           ALERT_TYPES (template d) H).
Qed.

Lemma alert_of_type i d :
  In (template d) ALERT_TYPES ->
  In (name (alert_of i d), severity (alert_of i d)) (map fst ALERT_TYPES).
Proof.
  intros H. cbn [alert_of name severity].
  rewrite <- surjective_pairing. now apply in_map.
Qed.

(** X27.  The demo run of [main] on [AlertGenerator.generate]: whatever
    is drawn, every generated alert is counted, the store has at most five
    groups, and each group has the name and the severity of one of the
    five alert types. *)
Theorem demo_run_has_at_most_five_groups (now : Z) (draws : list draw) :
  Forall in_range draws ->
  let self := fst (run init (generate draws)) in
  total_alerts_processed (get_summary now self) = Z.of_nat (length draws)
  /\ unique_alert_types (get_summary now self) <= 5
  /\ Forall (fun g => In (AlertGroup.name g, AlertGroup.severity g)
                        (map fst ALERT_TYPES))
            (Dict.values (groups self)).
Proof.
  intros Hall self. rewrite Forall_forall in Hall.
  assert (Hk : Dict.keys (groups self) = key_order [] (map key (generate draws)))
    by apply dedup_keys.
  assert (Hnd : NoDup (Dict.keys (groups self))).
  { rewrite Hk. apply key_order_nodup. constructor. }
  split; [|split].
  - cbn [get_summary total_alerts_processed]. unfold self.
    rewrite DedupMore.run_total, generate_length. reflexivity.
  - cbn [get_summary unique_alert_types].
    replace (length (groups self)) with (length (Dict.keys (groups self)))
      by apply length_map.
    rewrite Hk.
    assert (Hb : (length (key_order [] (map key (generate draws)))
                  <= length type_signatures)%nat).
    { apply key_order_bound. apply Forall_map.
      apply generate_Forall. intros i d Hd. cbn [key].
      apply alert_of_signature. exact (proj1 (Hall d Hd)). }
    unfold type_signatures in Hb. rewrite length_map in Hb.
    cbn [ALERT_TYPES length] in Hb. lia.
  - apply Forall_forall. intros g Hg.
    destruct (DictFacts.In_get _ _ Hnd Hg) as [k Hk'].
    destruct (DedupFacts.group_shape _ k g Hk')
      as (a0 & rest & Hf & _ & Nm & Sv & _).
    assert (Ha0 : In a0 (generate draws)).
    { assert (H0 : In a0 (filter (with_signature k) (generate draws)))
        by (rewrite Hf; now left).
      now apply filter_In in H0. }
    assert (HP : Forall (fun a => In (name a, severity a) (map fst ALERT_TYPES))
                        (generate draws)).
    { apply generate_Forall. intros i d Hd. apply alert_of_type.
      exact (proj1 (Hall d Hd)). }
    rewrite Forall_forall in HP. rewrite Nm, Sv. exact (HP a0 Ha0).
Qed.

Lemma demo_run_has_at_most_five_groups_witness :
  let draws :=
    [mkDraw ("HighCPU", WARNING, "CPU > 80%") "api" 12 1800000000;
     mkDraw ("DiskSpaceLow", WARNING, "Disk < 10%") "worker" 30 1800000001;
     mkDraw ("HighCPU", WARNING, "CPU > 80%") "auth" 0 1800000002] in
  let self := fst (run init (generate draws)) in
  total_alerts_processed (get_summary 1800000003 self)
    = Z.of_nat (length draws)
  /\ unique_alert_types (get_summary 1800000003 self) <= 5
  /\ Forall (fun g => In (AlertGroup.name g, AlertGroup.severity g)
                        (map fst ALERT_TYPES))
            (Dict.values (groups self)).
Proof.
  intros draws. apply (demo_run_has_at_most_five_groups 1800000003 draws).
  unfold draws, in_range, ALERT_TYPES, services.
  repeat (apply Forall_cons; [cbn [template service minutes In]; intuition lia|]).
  apply Forall_nil.
Defined.

(** ** The demo run of the classifier *)

Import LogGen.

Lemma generated_keys entries :
  Forall (generated_from (round_trip_templates ++ noise_templates)) entries ->
  Forall (fun ok => match ok with
                    | Some k => In k (map md5_hex12 round_trip_templates)
                    | None => True
                    end) (map Classifier.key entries).
Proof.
  intros Hall. apply Forall_map. eapply Forall_impl; [|exact Hall].
  intros e (t & num & x & a & b & c & d & Ht & Hr & Hm).
  apply in_app_or in Ht. destruct Ht as [Ht|Ht].
  - rewrite (GeneratorMore.generated_key
               e t num x a b c d Ht Hr Hm).
    now apply in_map.
  - assert (Hn : Classifier._is_noise e = true).
    { unfold Classifier._is_noise. rewrite Hm.
      rewrite GeneratorMore.generated_noise; auto.
      - apply existsb_exists. exists t. split; [exact Ht|apply String.eqb_refl].
      - unfold noise_templates in Ht. unfold ERROR_TEMPLATES. cbn [In] in *.
        tauto. }
    unfold Classifier.key. now rewrite Hn.
Qed.

(** X28.  Entries generated from the templates other than the timeout
    template make at most five clusters, and the pattern of each cluster
    is one of the round-trip templates, whatever the draws are. *)
Theorem demo_clusters_are_the_templates (entries : list Classifier.LogEntry) :
  Forall (generated_from (round_trip_templates ++ noise_templates)) entries ->
  let self := fst (Classifier.run Classifier.init entries) in
  ClassifierReport.unique_patterns (ClassifierReport.get_summary self) <= 5
  /\ Forall (fun c => In (Classifier.pattern c) round_trip_templates)
            (Dict.values (Classifier.clusters self)).
Proof.
  intros Hall self.
  assert (Hk := classifier_keys entries). fold self in Hk.
  assert (Hnd : NoDup (Dict.keys (Classifier.clusters self))).
  { rewrite Hk. apply key_order_nodup. constructor. }
  split.
  - cbn [ClassifierReport.get_summary ClassifierReport.unique_patterns].
    replace (length (Classifier.clusters self))
      with (length (Dict.keys (Classifier.clusters self))) by apply length_map.
    rewrite Hk.
    pose proof (key_order_bound _ _ (generated_keys entries Hall)) as Hb.
    rewrite length_map in Hb. cbn [round_trip_templates length] in Hb. lia.
  - apply Forall_forall. intros c Hc.
    destruct (DictFacts.In_get _ _ Hnd Hc) as [k Hk'].
    destruct (ClassifierFacts.cluster_shape _ k c Hk')
      as (e0 & rest & Hf & _ & Pt & _).
    assert (H0 : In e0 (filter (Classifier.with_signature k) entries))
      by (rewrite Hf; now left).
    apply filter_In in H0. destruct H0 as [Hin Hw].
    unfold Classifier.with_signature in Hw. apply andb_prop in Hw.
    destruct Hw as [Hn _]. apply negb_true_iff in Hn.
    rewrite Forall_forall in Hall.
    destruct (Hall e0 Hin) as (t & num & x & a & b & c' & d & Ht & Hr & Hm).
    apply in_app_or in Ht. destruct Ht as [Ht|Ht].
    + rewrite Pt, Hm.
      now rewrite (GeneratorMore.round_trip
                     t num x a b c' d Ht Hr).
    + exfalso. unfold Classifier._is_noise in Hn. rewrite Hm in Hn.
      rewrite GeneratorMore.generated_noise in Hn; auto.
      * assert (existsb (String.eqb t) noise_templates = true); [|congruence].
        apply existsb_exists. exists t. split; [exact Ht|apply String.eqb_refl].
      * unfold noise_templates in Ht. unfold ERROR_TEMPLATES. cbn [In] in *.
        tauto.
Qed.

Lemma demo_clusters_are_the_templates_witness :
  let entries :=
    [Samples.log_line
       (message_of "Rate limit exceeded for IP <IP>" 1 0 10 0 0 1) 0;
     Samples.log_line (message_of "health check passed" 1 0 10 0 0 1) 1;
     Samples.log_line
       (message_of "Rate limit exceeded for IP <IP>" 1 0 192 168 0 7) 2] in
  let self := fst (Classifier.run Classifier.init entries) in
  ClassifierReport.unique_patterns (ClassifierReport.get_summary self) <= 5
  /\ Forall (fun c => In (Classifier.pattern c) round_trip_templates)
            (Dict.values (Classifier.clusters self)).
Proof.
  intros entries. apply (demo_clusters_are_the_templates entries).
  unfold entries.
  apply Forall_cons;
    [exists "Rate limit exceeded for IP <IP>", 1, 0, 10, 0, 0, 1|].
  { split; [do 4 right; left; reflexivity|].
    split; [unfold draws_in_range; lia | reflexivity]. }
  apply Forall_cons; [exists "health check passed", 1, 0, 10, 0, 0, 1|].
  { split; [do 5 right; left; reflexivity|].
    split; [unfold draws_in_range; lia | reflexivity]. }
  apply Forall_cons;
    [exists "Rate limit exceeded for IP <IP>", 1, 0, 192, 168, 0, 7|].
  { split; [do 4 right; left; reflexivity|].
    split; [unfold draws_in_range; lia | reflexivity]. }
  apply Forall_nil.
Defined.

End OrderMore.
